(** * CircuitPython REPL driver (adafruit/circuitpython-repl-js)

    A shallow embedding of the serial REPL driver: the JavaScript string and
    RegExp primitives the driver relies on, the raw-paste variant of the
    driver ([src/repl.js]) and the cursor-buffer variant
    ([src/unnamed/part_000], classes [InputBuffer] and [REPL]).

    Conventions.
    - A JavaScript string is a [string]; the characters of the serial link
      are 8-bit code units.
    - A JavaScript integer is a [Z]; [NaN] is made explicit where the source
      can produce it.
    - An object of the source is a record, and a method is a function from
      the record to the updated record (and to what it returns).
    - A call that can throw returns a [completion]. *)

From Stdlib Require Import String Ascii List ZArith Lia Bool Arith DecimalString.
Import ListNotations.

Open Scope string_scope.
Open Scope Z_scope.

(* ================================================================== *)
(** * JavaScript strings *)
(* ================================================================== *)

Module Js.

(** The first [n] characters of [s]. *)
Fixpoint take (n : nat) (s : string) : string :=
  match n, s with
  | O, _ => EmptyString
  | S _, EmptyString => EmptyString
  | S n', String c s' => String c (take n' s')
  end.

(** [s] without its first [n] characters. *)
Fixpoint drop (n : nat) (s : string) : string :=
  match n, s with
  | O, _ => s
  | S _, EmptyString => EmptyString
  | S n', String _ s' => drop n' s'
  end.

(** [s.length] *)
Definition len (s : string) : Z := Z.of_nat (String.length s).

(** How [String.prototype.slice] reads one of its integer arguments: a
    negative index counts from the end, and the result is clamped to
    [0 .. length]. *)
Definition relativeIndex (size i : Z) : Z :=
  if i <? 0 then Z.max (size + i) 0 else Z.min i size.

(** [s.slice(b, e)] *)
Definition slice (s : string) (b e : Z) : string :=
  let from := relativeIndex (len s) b in
  let to := relativeIndex (len s) e in
  take (Z.to_nat (Z.max (to - from) 0)) (drop (Z.to_nat from) s).

(** [s.slice(b)] *)
Definition sliceFrom (s : string) (b : Z) : string :=
  slice s b (len s).

(** [s.charCodeAt(i)]; [None] is [NaN]. *)
Definition charCodeAt (s : string) (i : nat) : option Z :=
  match String.get i s with
  | Some c => Some (Z.of_nat (nat_of_ascii c))
  | None => None
  end.

(** [Math.ceil(n / 2)] for an integer [n >= 0]. *)
Definition ceilHalf (n : Z) : Z := (n + 1) / 2.

(** [s.startsWith(p)] *)
Fixpoint startsWith (p s : string) : bool :=
  match p, s with
  | EmptyString, _ => true
  | String _ _, EmptyString => false
  | String a p', String b s' => Ascii.eqb a b && startsWith p' s'
  end.

(** [s.includes(sep)] *)
Fixpoint includes (sep s : string) : bool :=
  startsWith sep s ||
  match s with
  | EmptyString => false
  | String _ s' => includes sep s'
  end.

(** [s.split(sep)] for a non-empty string separator [sep]: [cur] holds the
    characters read since the last separator, [skip] the characters of a
    separator that are still to be passed over. *)
Fixpoint splitOn (sep : string) (cur : string) (skip : nat) (s : string)
  : list string :=
  match s with
  | EmptyString => [cur]
  | String c s' =>
      match skip with
      | S k => splitOn sep cur k s'
      | O =>
          if startsWith sep s
          then cur :: splitOn sep EmptyString (String.length sep - 1) s'
          else splitOn sep (cur ++ String c EmptyString) O s'
      end
  end.

Definition split (s sep : string) : list string := splitOn sep EmptyString O s.

(** The strings of a list, one after the other. *)
Definition concatAll (l : list string) : string :=
  fold_right String.append EmptyString l.

(** [parseInt(s)] on a string that starts with a decimal digit reads the
    longest run of digits; a string that starts otherwise is not one the
    driver passes, and is read as [NaN]. The integer is kept exact, as
    JavaScript keeps it below 2^53; a longer run of digits is rounded
    there and is not rounded here. *)
Definition isDigit (c : ascii) : bool :=
  let n := nat_of_ascii c in (48 <=? n)%nat && (n <=? 57)%nat.

Fixpoint parseDigits (acc : Z) (s : string) : Z :=
  match s with
  | String c s' =>
      if isDigit c
      then parseDigits (10 * acc + (Z.of_nat (nat_of_ascii c) - 48)) s'
      else acc
  | EmptyString => acc
  end.

(** A JavaScript number that is an integer, or [NaN]. *)
Inductive number : Type :=
| Int (z : Z)
| NaN.

Definition parseInt (s : string) : number :=
  match s with
  | String c _ => if isDigit c then Int (parseDigits 0 s) else NaN
  | EmptyString => NaN
  end.

End Js.

(* ================================================================== *)
(** * JavaScript regular expressions *)
(* ================================================================== *)

Module Re.

(** The regular expressions of the source, as the syntax RegExp parses
    them into. A character is a predicate, so that a class, the dot and a
    character under the [i] flag are all one constructor. *)
Inductive regex : Type :=
| Chr (p : ascii -> bool)            (* one character accepted by [p] *)
| Eps                                (* the empty pattern *)
| Cat (r1 r2 : regex)                (* r1 r2 *)
| Alt (r1 r2 : regex)                (* r1|r2 *)
| Star (greedy : bool) (r : regex)   (* r* and r*? *)
| Grp (n : nat) (r : regex)          (* the capturing group number n *)
| Bol                                (* ^ without the m flag *)
| Eol.                               (* $ without the m flag *)

(** What the groups captured: group number and text. *)
Definition captures : Type := list (nat * string).

Fixpoint capture (n : nat) (c : captures) : option string :=
  match c with
  | [] => None
  | (m, s) :: c' => if Nat.eqb n m then Some s else capture n c'
  end.

(** The backtracking matcher of ECMAScript, in continuation style.
    [rmatch r pos rest caps k] matches [r] at offset [pos], where [rest] is
    the input from [pos] on, and hands the end offset, the input left and
    the captures to [k]; a [None] of [k] makes the matcher backtrack. An
    iteration of a star that matches the empty string is refused, as
    ECMAScript does, so a star runs at most once per character left. *)
Fixpoint rmatch {A : Type} (r : regex) (pos : nat) (rest : string)
  (caps : captures) (k : nat -> string -> captures -> option A)
  {struct r} : option A :=
  match r with
  | Chr p =>
      match rest with
      | String c rest' => if p c then k (S pos) rest' caps else None
      | EmptyString => None
      end
  | Eps => k pos rest caps
  | Cat r1 r2 =>
      rmatch r1 pos rest caps
        (fun pos' rest' caps' => rmatch r2 pos' rest' caps' k)
  | Alt r1 r2 =>
      match rmatch r1 pos rest caps k with
      | Some x => Some x
      | None => rmatch r2 pos rest caps k
      end
  | Star greedy r1 =>
      (fix star (fuel : nat) (pos : nat) (rest : string) (caps : captures)
         {struct fuel} : option A :=
         match fuel with
         | O => k pos rest caps
         | S fuel' =>
             let again :=
               rmatch r1 pos rest caps
                 (fun pos' rest' caps' =>
                    if (pos <? pos')%nat then star fuel' pos' rest' caps'
                    else None) in
             if greedy then
               match again with
               | Some x => Some x
               | None => k pos rest caps
               end
             else
               match k pos rest caps with
               | Some x => Some x
               | None => again
               end
         end) (S (String.length rest)) pos rest caps
  | Grp n r1 =>
      rmatch r1 pos rest caps
        (fun pos' rest' caps' =>
           k pos' rest' ((n, Js.take (pos' - pos) rest) :: caps'))
  | Bol => if Nat.eqb pos 0 then k pos rest caps else None
  | Eol =>
      match rest with
      | EmptyString => k pos rest caps
      | String _ _ => None
      end
  end.

(** One match: where it starts, where it ends, and the captures. *)
Record found : Type := mkFound {
  index : nat;
  lastIndex : nat;
  groups : captures
}.

(** A match of [r] that starts exactly at [pos]. *)
Definition matchAt (r : regex) (pos : nat) (rest : string) : option found :=
  match rmatch r pos rest [] (fun e _ c => Some (e, c)) with
  | Some (e, c) => Some (mkFound pos e c)
  | None => None
  end.

(** The leftmost match of [r] that starts at [pos] or later. *)
Fixpoint search (r : regex) (pos : nat) (rest : string) : option found :=
  match matchAt r pos rest with
  | Some m => Some m
  | None =>
      match rest with
      | EmptyString => None
      | String _ rest' => search r (S pos) rest'
      end
  end.

(** [r.exec(s)] for a regex with the [g] flag whose [lastIndex] is [from]. *)
Definition exec (r : regex) (s : string) (from : nat) : option found :=
  if (String.length s <? from)%nat then None
  else search r from (Js.drop from s).

(** [r.test(s)] and [s.match(r) !== null] for a fresh regex. *)
Definition test (r : regex) (s : string) : bool :=
  match exec r s 0 with Some _ => true | None => false end.

(** [s.match(r)[n]] for a regex without the [g] flag: [None] when there is
    no match, or when group [n] took no part in it. *)
Definition matchGroup (r : regex) (s : string) (n : nat) : option string :=
  match exec r s 0 with
  | Some m => capture n (groups m)
  | None => None
  end.

(** [s.replace(r, by)] for a regex without the [g] flag and a replacement
    without [$]: the first match is replaced. *)
Definition replace (r : regex) (s by_ : string) : string :=
  match exec r s 0 with
  | Some m => Js.take (index m) s ++ by_ ++ Js.drop (lastIndex m) s
  | None => s
  end.

(** [s.split(r)] for a regex [r] with exactly one capturing group, number 1:
    the pieces between the matches, with the text of the group after each
    piece. [cur] is the piece being read (from the end of the last match to
    [pos]); an empty match right at the end of the last match is passed
    over, as in ECMAScript. A round reads a character or ends a piece that
    is not empty, so there are at most two rounds for each character. *)
Fixpoint splitLoop (r : regex) (fuel : nat) (cur : string) (pos : nat)
  (rest : string) : list string :=
  match fuel with
  | O => [cur ++ rest]
  | S fuel' =>
      match rest with
      | EmptyString => [cur]
      | String c rest' =>
          match matchAt r pos rest with
          | Some m =>
              if Nat.eqb (lastIndex m) pos && Nat.eqb (String.length cur) 0
              then splitLoop r fuel' (cur ++ String c EmptyString) (S pos) rest'
              else
                cur ::
                match capture 1 (groups m) with
                | Some g => [g]
                | None => []
                end ++
                splitLoop r fuel' EmptyString (lastIndex m)
                  (Js.drop (lastIndex m - pos) rest)
          | None =>
              splitLoop r fuel' (cur ++ String c EmptyString) (S pos) rest'
          end
      end
  end.

Definition split (r : regex) (s : string) : list string :=
  match s with
  | EmptyString =>
      match matchAt r 0 s with Some _ => [] | None => [s] end
  | _ => splitLoop r (S (2 * String.length s)) EmptyString 0 s
  end.

(** Patterns. *)
Definition chr (c : ascii) : regex := Chr (Ascii.eqb c).

(** A character under the [i] flag. *)
Definition lower (c : ascii) : ascii :=
  let n := nat_of_ascii c in
  if (65 <=? n)%nat && (n <=? 90)%nat then ascii_of_nat (n + 32) else c.

Definition chrI (c : ascii) : regex := Chr (fun x => Ascii.eqb (lower x) (lower c)).

(** [.] : any character but a line terminator. *)
Definition dot : regex :=
  Chr (fun c => negb (Ascii.eqb c "010"%char || Ascii.eqb c "013"%char)).

(** [\d] *)
Definition digit : regex := Chr Js.isDigit.

(** A run of literal characters. *)
Fixpoint lit (s : string) : regex :=
  match s with
  | EmptyString => Eps
  | String c s' => Cat (chr c) (lit s')
  end.

Fixpoint litI (s : string) : regex :=
  match s with
  | EmptyString => Eps
  | String c s' => Cat (chrI c) (litI s')
  end.

(** [r+], [r+?] and [r?] for a group-free [r]. *)
Definition plus (greedy : bool) (r : regex) : regex := Cat r (Star greedy r).
Definition opt (r : regex) : regex := Alt r Eps.


(** ** Words for the properties *)

(** The pattern occurs in [s] at offset [i]. *)
Definition occursAt (r : regex) (s : string) (i : nat) : Prop :=
  (i <= String.length s)%nat /\ matchAt r i (Js.drop i s) <> None.

(** A regex every match of which takes at least one character and is the
    text of its group 1. *)
Definition delimiter (r : regex) : Prop :=
  forall pos rest m, matchAt r pos rest = Some m ->
    exists n : nat,
      (0 < n <= String.length rest)%nat /\ lastIndex m = (pos + n)%nat /\
      capture 1 (groups m) = Some (Js.take n rest).

(** A character that the [i] flag leaves alone. *)
Definition caseless (c : ascii) : Prop :=
  forall x, Ascii.eqb (lower x) (lower c) = Ascii.eqb c x.

Fixpoint allCaseless (l : string) : Prop :=
  match l with
  | EmptyString => True
  | String c l' => caseless c /\ allCaseless l'
  end.

End Re.

(* ================================================================== *)
(** * Waiting under a deadline *)
(* ================================================================== *)

Module Async.

(** How a call ends: it returns, it throws (an [Error] with its message,
    or the [TypeError] of a property read on [undefined] or [null]), or
    it is still pending when nothing more arrives. *)
Inductive completion (A : Type) : Type :=
| Return (a : A)
| Throw (e : string)
| Pending.

Arguments Return {A} a.
Arguments Throw {A} e.
Arguments Pending {A}.

Definition bind {A B : Type} (c : completion A) (f : A -> completion B)
  : completion B :=
  match c with
  | Return a => f a
  | Throw e => Throw e
  | Pending => Pending
  end.

(** [x[...]] and [x.f(...)] on an [x] that may be [undefined] or [null]. *)
Definition defined {A : Type} (o : option A) : completion A :=
  match o with
  | Some a => Return a
  | None => Throw "TypeError"
  end.

Section Waits.

(** The driver's object. *)
Variable St : Type.

(** The loops the driver waits in all read
    [while (cond) { body; await this._sleep(ms); }].
    Bytes arrive while a loop sleeps: [sleeps] lists, for each sleep of
    the loop that ends before the deadline of the wait, what the receive
    path does to the object meanwhile. The loop is over ([true]) when its
    condition fails; the deadline has passed ([false]) when the condition
    still holds and no sleep is left. What the loop did so far stays
    done. *)
Fixpoint poll (cond : St -> bool) (body : St -> St)
  (sleeps : list (St -> St)) (s : St) : St * bool :=
  if cond s then
    match sleeps with
    | [] => (s, false)
    | arrive :: sleeps' => poll cond body sleeps' (arrive (body s))
    end
  else (s, true).

(** The arrivals of a whole call: one list of sleeps for each wait of the
    call, in the order the waits are reached. A wait past the end of the
    script has its deadline at once. *)
Definition script : Type := list (list (St -> St)).

(** An [async] method: from the script left and the object to the script
    left, the object and how the call ended. *)
Definition async (A : Type) : Type := script -> St -> script * St * completion A.

Definition ret {A : Type} (a : A) : async A :=
  fun sc s => (sc, s, Return a).

Definition throw {A : Type} (e : string) : async A :=
  fun sc s => (sc, s, Throw e).

Definition andThen {A B : Type} (m : async A) (f : A -> async B) : async B :=
  fun sc s =>
    match m sc s with
    | (sc', s', Return a) => f a sc' s'
    | (sc', s', Throw e) => (sc', s', Throw e)
    | (sc', s', Pending) => (sc', s', Pending)
    end.

(** A synchronous statement. *)
Definition step (f : St -> St) : async unit :=
  fun sc s => (sc, f s, Return tt).

(** A synchronous expression. *)
Definition read {A : Type} (f : St -> A) : async A :=
  fun sc s => (sc, s, Return (f s)).

(** [try { m } catch (error) { handler }] *)
Definition tryCatch {A : Type} (m : async A) (handler : string -> async A)
  : async A :=
  fun sc s =>
    match m sc s with
    | (sc', s', Throw e) => handler e sc' s'
    | other => other
    end.

(** [await this._timeout(callback, ms)] for a [callback] that is a loop
    with sleeps, [loop sleeps s] being where the loop is when it is over or
    the deadline has passed; [_timeout(callback, ms)] is
    [Promise.race([callback(), this._sleep(ms).then(() => {throw Error("Timed Out");})])].
    The race does not stop the loop that lost it: in the source the loop
    goes on after the throw, as long as its condition holds. Here the
    loop ends with the throw, so the object is followed up to the throw
    and not after it. Of the loops under a deadline, the one of
    [interruptCode] alone does something in each round that shows later
    (it transmits); what is proved about the messages transmitted after
    an [interruptCode] is stated for the runs in which its loop ended by
    itself. *)
Definition _timeout (loop : list (St -> St) -> St -> St * bool) : async unit :=
  fun sc s =>
    let '(s', finished) := loop (hd [] sc) s in
    (tl sc, s', if finished then Return tt else Throw "Timed Out").

(** A loop with sleeps under no deadline. *)
Definition forever (loop : list (St -> St) -> St -> St * bool) : async unit :=
  fun sc s =>
    let '(s', finished) := loop (hd [] sc) s in
    (tl sc, s', if finished then Return tt else Pending).

End Waits.

Arguments poll {St} cond body sleeps s.
Arguments ret {St A} a.
Arguments throw {St A} e.
Arguments andThen {St A B} m f.
Arguments step {St} f.
Arguments read {St A} f.
Arguments tryCatch {St A} m handler.
Arguments _timeout {St} loop.
Arguments forever {St} loop.

End Async.

(* ================================================================== *)
(** * Decoding the error text *)
(* ================================================================== *)

Module ErrorText.

Import Async.

(** The error record. *)
Record DecodedError : Type := {
  file : option string;
  line : option Js.number;
  type : option string;
  message : option string;
  errno : option Js.number;
  raw : string
}.

(** What [getErrorOutput] returns: the raw text, [null], or the record. *)
Inductive ErrorOutput : Type :=
| RawError (text : string)
| NoError
| Decoded (error : DecodedError).

(** [s.match(r)[1]] *)
Definition group1 (r : Re.regex) (s : string) : completion string :=
  defined (Re.matchGroup r s 1).

Definition quote : string := String "034" "".

(** The pattern that reads the file name: [File ], a double quote, group
    1 of any characters (greedy), a double quote. *)
Definition fileRegex : Re.regex :=
  Re.Cat (Re.lit ("File " ++ quote))
    (Re.Cat (Re.Grp 1 (Re.Star true Re.dot)) (Re.lit quote)).

(** [/line (\d+)/] *)
Definition lineRegex : Re.regex :=
  Re.Cat (Re.lit "line ") (Re.Grp 1 (Re.plus true Re.digit)).

(** [/(.+?):/] *)
Definition typeRegex : Re.regex :=
  Re.Cat (Re.Grp 1 (Re.plus false Re.dot)) (Re.lit ":").

(** [/: (.+)$/] *)
Definition messageRegex : Re.regex :=
  Re.Cat (Re.lit ": ") (Re.Cat (Re.Grp 1 (Re.plus true Re.dot)) Re.Eol).

(** [/\[Errno (\d+)\]/] *)
Definition errnoRegex : Re.regex :=
  Re.Cat (Re.lit "[Errno ")
    (Re.Cat (Re.Grp 1 (Re.plus true Re.digit)) (Re.lit "]")).

(** [/\[Errno \d+\] /] *)
Definition errnoPrefixRegex : Re.regex :=
  Re.Cat (Re.lit "[Errno ") (Re.Cat (Re.plus true Re.digit) (Re.lit "] ")).

(** The statements from [let errorLines = ...] to [return error], which
    [getErrorOutput] of [src/repl.js] and [_decodeError] of the cursor
    variant share word for word; [inputLineEnding] is
    [this._inputLineEnding]. Reading [errorLines[1]] or [errorLines[2]]
    past the end gives [undefined], and a failed [match] gives [null]:
    the call on it throws. *)
Definition decodeError (inputLineEnding rawError : string)
  : completion DecodedError :=
  let errorLines := Js.split rawError inputLineEnding in
  if (0 <? Z.of_nat (List.length errorLines)) then
    bind (defined (nth_error errorLines 1)) (fun line1 =>
    bind (group1 fileRegex line1) (fun file_ =>
    bind (group1 lineRegex line1) (fun line_ =>
    bind (defined (nth_error errorLines 2)) (fun line2 =>
    bind (group1 typeRegex line2) (fun type_ =>
    bind (group1 messageRegex line2) (fun message_ =>
    if String.eqb type_ "OSError" then
      bind (group1 errnoRegex message_) (fun errno_ =>
      Return
        {| file := Some file_;
           line := Some (Js.parseInt line_);
           type := Some type_;
           message := Some (Re.replace errnoPrefixRegex message_ "");
           errno := Some (Js.parseInt errno_);
           raw := rawError |})
    else
      Return
        {| file := Some file_;
           line := Some (Js.parseInt line_);
           type := Some type_;
           message := Some message_;
           errno := None;
           raw := rawError |}))))))
  else
    Return
      {| file := None; line := None; type := None; message := None;
         errno := None; raw := rawError |}.


(** ** An error text *)

(** The traceback of a write to a read-only file system, its lines ended
    by [lineEnding]. *)
Definition tracebackText (lineEnding : string) : string :=
  "Traceback..." ++ lineEnding
  ++ "  File " ++ quote ++ "main.py" ++ quote ++ ", line 7" ++ lineEnding
  ++ "OSError: [Errno 30] Read-only filesystem" ++ lineEnding.

Definition readOnlyError (rawError : string) : DecodedError :=
  {| file := Some "main.py";
     line := Some (Js.Int 7);
     type := Some "OSError";
     message := Some "Read-only filesystem";
     errno := Some (Js.Int 30);
     raw := rawError |}.

End ErrorText.

(* ================================================================== *)
(** * The raw-paste driver: [src/repl.js] *)
(* ================================================================== *)

Module RawPaste.

Import Async ErrorText.

Definition CHAR_CTRL_A : string := String "001" "".
Definition CHAR_CTRL_B : string := String "002" "".
Definition CHAR_CTRL_C : string := String "003" "".
Definition CHAR_CTRL_D : string := String "004" "".
Definition CHAR_CTRL_E : string := String "005" "".
Definition CHAR_TITLE_START : string := String "027" "]0;".
Definition CHAR_TITLE_END : string := String "027" "\".
Definition CHAR_RAW_PASTE_UNSUPPORTED : string := String "R" (String "000" "").
Definition CHAR_RAW_PASTE_SUPPORTED : string := String "R" (String "001" "").

Definition LINE_ENDING_CRLF : string := String "013" (String "010" "").
Definition LINE_ENDING_LF : string := String "010" "".

(** [/R[\x00\x01]..\x01/] *)
Definition REGEX_RAW_PASTE_RESPONSE : Re.regex :=
  Re.Cat (Re.chr "R")
    (Re.Cat (Re.Chr (fun c => Ascii.eqb c "000" || Ascii.eqb c "001"))
       (Re.Cat Re.dot (Re.Cat Re.dot (Re.chr "001")))).

Definition CONTROL_SEQUENCES : list Re.regex := [REGEX_RAW_PASTE_RESPONSE].

(** [[/^\... /, /^>>> /]] *)
Definition IGNORE_OUTPUT_LINE_PREFIXES : list Re.regex :=
  [ Re.Cat Re.Bol (Re.Cat (Re.chr ".") (Re.Cat Re.dot (Re.Cat Re.dot (Re.chr " "))));
    Re.Cat Re.Bol (Re.lit ">>> ") ].

(** [/raw REPL; CTRL-B to exit/] *)
Definition REGEX_PROMPT_RAW_MODE : Re.regex := Re.lit "raw REPL; CTRL-B to exit".

Inductive mode : Type := MODE_NORMAL | MODE_RAW | MODE_RAWPASTE.

Definition mode_eqb (a b : mode) : bool :=
  match a, b with
  | MODE_NORMAL, MODE_NORMAL | MODE_RAW, MODE_RAW
  | MODE_RAWPASTE, MODE_RAWPASTE => true
  | _, _ => false
  end.

(** The fields of [REPL] that the methods below read or write. The
    transmit function a client installs is seen through [transmitted], the
    strings it was called with (oldest first); [console] holds what
    [console.log] and [console.error] were given. *)
Record REPL : Type := {
  _pythonCodeRunning : bool;
  _codeOutput : string;
  _errorOutput : string;
  _serialInputBuffer : string;
  _titleMode : bool;
  title : string;
  _inputLineEnding : string;
  _outputLineEnding : string;
  _tokenQueue : list string;
  _mode : mode;
  _codeCheckPointer : Z;
  _promptCheckPointer : Z;
  _ctrlDCount : Z;
  terminalOutput : bool;
  _partialToken : option string;
  transmitted : list string;
  console : list string
}.

(** [constructor()] *)
Definition new_REPL : REPL :=
  {| _pythonCodeRunning := false;
     _codeOutput := "";
     _errorOutput := "";
     _serialInputBuffer := "";
     _titleMode := false;
     title := "";
     _inputLineEnding := LINE_ENDING_CRLF;
     _outputLineEnding := LINE_ENDING_LF;
     _tokenQueue := [];
     _mode := MODE_NORMAL;
     _codeCheckPointer := 0;
     _promptCheckPointer := 0;
     _ctrlDCount := 0;
     terminalOutput := true;
     _partialToken := None;
     transmitted := [];
     console := [] |}.

Definition set_pythonCodeRunning (v : bool) (r : REPL) : REPL :=
  Build_REPL v (_codeOutput r) (_errorOutput r) (_serialInputBuffer r)
    (_titleMode r) (title r) (_inputLineEnding r) (_outputLineEnding r)
    (_tokenQueue r) (_mode r) (_codeCheckPointer r) (_promptCheckPointer r)
    (_ctrlDCount r) (terminalOutput r) (_partialToken r) (transmitted r)
    (console r).

Definition set_codeOutput (v : string) (r : REPL) : REPL :=
  Build_REPL (_pythonCodeRunning r) v (_errorOutput r) (_serialInputBuffer
    r) (_titleMode r) (title r) (_inputLineEnding r) (_outputLineEnding r)
    (_tokenQueue r) (_mode r) (_codeCheckPointer r) (_promptCheckPointer r)
    (_ctrlDCount r) (terminalOutput r) (_partialToken r) (transmitted r)
    (console r).

Definition set_errorOutput (v : string) (r : REPL) : REPL :=
  Build_REPL (_pythonCodeRunning r) (_codeOutput r) v (_serialInputBuffer r)
    (_titleMode r) (title r) (_inputLineEnding r) (_outputLineEnding r)
    (_tokenQueue r) (_mode r) (_codeCheckPointer r) (_promptCheckPointer r)
    (_ctrlDCount r) (terminalOutput r) (_partialToken r) (transmitted r)
    (console r).

Definition set_serialInputBuffer (v : string) (r : REPL) : REPL :=
  Build_REPL (_pythonCodeRunning r) (_codeOutput r) (_errorOutput r) v
    (_titleMode r) (title r) (_inputLineEnding r) (_outputLineEnding r)
    (_tokenQueue r) (_mode r) (_codeCheckPointer r) (_promptCheckPointer r)
    (_ctrlDCount r) (terminalOutput r) (_partialToken r) (transmitted r)
    (console r).

Definition set_titleMode (v : bool) (r : REPL) : REPL :=
  Build_REPL (_pythonCodeRunning r) (_codeOutput r) (_errorOutput r)
    (_serialInputBuffer r) v (title r) (_inputLineEnding r)
    (_outputLineEnding r) (_tokenQueue r) (_mode r) (_codeCheckPointer r)
    (_promptCheckPointer r) (_ctrlDCount r) (terminalOutput r)
    (_partialToken r) (transmitted r) (console r).

Definition set_title (v : string) (r : REPL) : REPL :=
  Build_REPL (_pythonCodeRunning r) (_codeOutput r) (_errorOutput r)
    (_serialInputBuffer r) (_titleMode r) v (_inputLineEnding r)
    (_outputLineEnding r) (_tokenQueue r) (_mode r) (_codeCheckPointer r)
    (_promptCheckPointer r) (_ctrlDCount r) (terminalOutput r)
    (_partialToken r) (transmitted r) (console r).

Definition set_outputLineEnding (v : string) (r : REPL) : REPL :=
  Build_REPL (_pythonCodeRunning r) (_codeOutput r) (_errorOutput r)
    (_serialInputBuffer r) (_titleMode r) (title r) (_inputLineEnding r) v
    (_tokenQueue r) (_mode r) (_codeCheckPointer r) (_promptCheckPointer r)
    (_ctrlDCount r) (terminalOutput r) (_partialToken r) (transmitted r)
    (console r).

Definition set_tokenQueue (v : list string) (r : REPL) : REPL :=
  Build_REPL (_pythonCodeRunning r) (_codeOutput r) (_errorOutput r)
    (_serialInputBuffer r) (_titleMode r) (title r) (_inputLineEnding r)
    (_outputLineEnding r) v (_mode r) (_codeCheckPointer r)
    (_promptCheckPointer r) (_ctrlDCount r) (terminalOutput r)
    (_partialToken r) (transmitted r) (console r).

Definition set_mode (v : mode) (r : REPL) : REPL :=
  Build_REPL (_pythonCodeRunning r) (_codeOutput r) (_errorOutput r)
    (_serialInputBuffer r) (_titleMode r) (title r) (_inputLineEnding r)
    (_outputLineEnding r) (_tokenQueue r) v (_codeCheckPointer r)
    (_promptCheckPointer r) (_ctrlDCount r) (terminalOutput r)
    (_partialToken r) (transmitted r) (console r).

Definition set_codeCheckPointer (v : Z) (r : REPL) : REPL :=
  Build_REPL (_pythonCodeRunning r) (_codeOutput r) (_errorOutput r)
    (_serialInputBuffer r) (_titleMode r) (title r) (_inputLineEnding r)
    (_outputLineEnding r) (_tokenQueue r) (_mode r) v (_promptCheckPointer
    r) (_ctrlDCount r) (terminalOutput r) (_partialToken r) (transmitted r)
    (console r).

Definition set_promptCheckPointer (v : Z) (r : REPL) : REPL :=
  Build_REPL (_pythonCodeRunning r) (_codeOutput r) (_errorOutput r)
    (_serialInputBuffer r) (_titleMode r) (title r) (_inputLineEnding r)
    (_outputLineEnding r) (_tokenQueue r) (_mode r) (_codeCheckPointer r) v
    (_ctrlDCount r) (terminalOutput r) (_partialToken r) (transmitted r)
    (console r).

Definition set_ctrlDCount (v : Z) (r : REPL) : REPL :=
  Build_REPL (_pythonCodeRunning r) (_codeOutput r) (_errorOutput r)
    (_serialInputBuffer r) (_titleMode r) (title r) (_inputLineEnding r)
    (_outputLineEnding r) (_tokenQueue r) (_mode r) (_codeCheckPointer r)
    (_promptCheckPointer r) v (terminalOutput r) (_partialToken r)
    (transmitted r) (console r).

Definition set_partialToken (v : option string) (r : REPL) : REPL :=
  Build_REPL (_pythonCodeRunning r) (_codeOutput r) (_errorOutput r)
    (_serialInputBuffer r) (_titleMode r) (title r) (_inputLineEnding r)
    (_outputLineEnding r) (_tokenQueue r) (_mode r) (_codeCheckPointer r)
    (_promptCheckPointer r) (_ctrlDCount r) (terminalOutput r) v
    (transmitted r) (console r).

Definition set_transmitted (v : list string) (r : REPL) : REPL :=
  Build_REPL (_pythonCodeRunning r) (_codeOutput r) (_errorOutput r)
    (_serialInputBuffer r) (_titleMode r) (title r) (_inputLineEnding r)
    (_outputLineEnding r) (_tokenQueue r) (_mode r) (_codeCheckPointer r)
    (_promptCheckPointer r) (_ctrlDCount r) (terminalOutput r)
    (_partialToken r) v (console r).

Definition set_console (v : list string) (r : REPL) : REPL :=
  Build_REPL (_pythonCodeRunning r) (_codeOutput r) (_errorOutput r)
    (_serialInputBuffer r) (_titleMode r) (title r) (_inputLineEnding r)
    (_outputLineEnding r) (_tokenQueue r) (_mode r) (_codeCheckPointer r)
    (_promptCheckPointer r) (_ctrlDCount r) (terminalOutput r)
    (_partialToken r) (transmitted r) v.

(** [await this.serialTransmit(msg)], with a transmit function installed:
    the constructor leaves [serialTransmit] at [null], and the call throws
    until the client has set it. *)
Definition serialTransmit (msg : string) (r : REPL) : REPL :=
  set_transmitted (transmitted r ++ [msg]) r.

Definition console_error (msg : string) (r : REPL) : REPL :=
  set_console (console r ++ [msg]) r.

(** A string in a condition: the empty string is falsy. *)
Definition truthy (s : string) : bool := negb (String.eqb s "").

(** [s.match(t)] with a string [t] of ordinary characters builds the regex
    of these characters. *)
Definition matchString (s t : string) : bool := Re.test (Re.lit t) s.

Definition _getInputBufferLines (r : REPL) : list string :=
  Js.split (_serialInputBuffer r) (_inputLineEnding r).

Definition _lineIsPrompt (prompt_regex : Re.regex) (r : REPL) : bool :=
  let lines := _getInputBufferLines r in
  match lines with
  | [] => false
  | _ => Re.test prompt_regex (last lines "")
  end.

Definition _checkForModeChange (r : REPL) : REPL :=
  fold_left
    (fun r line => if Re.test REGEX_PROMPT_RAW_MODE line then set_mode MODE_RAW r else r)
    (_getInputBufferLines r) r.

(** [/>>> $/] *)
Definition _currentLineIsNormalPrompt (r : REPL) : bool :=
  _lineIsPrompt (Re.Cat (Re.lit ">>> ") Re.Eol) r.

Definition _currentLineIsPrompt (r : REPL) : bool :=
  if mode_eqb (_mode r) MODE_NORMAL then _currentLineIsNormalPrompt r else false.

Definition setLineEnding (lineEnding : string) (r : REPL) : REPL * completion unit :=
  if negb (String.eqb lineEnding LINE_ENDING_CRLF) && negb (String.eqb lineEnding LINE_ENDING_LF)
  then (r, Throw "Line ending expected to be either be LINE_ENDING_CRLF or LINE_ENDING_LF")
  else (set_outputLineEnding lineEnding r, Return tt).

(** The [while (bytes.length > 0)] loop of [checkPrompt]: one byte per
    round, [bytes = bytes.slice(1)] at its end. *)
Fixpoint checkPromptBytes (bytes : string) (r : REPL) : REPL :=
  match bytes with
  | EmptyString => r
  | String b bytes' =>
      let byte := String b "" in
      if matchString byte CHAR_CTRL_D then
        checkPromptBytes bytes' (set_ctrlDCount (_ctrlDCount r + 1) r)
      else if _ctrlDCount r =? 1 then
        checkPromptBytes bytes' (set_codeOutput (_codeOutput r ++ byte) r)
      else if _ctrlDCount r =? 2 then
        checkPromptBytes bytes' (set_errorOutput (_errorOutput r ++ byte) r)
      else if _ctrlDCount r >? 2 then
        checkPromptBytes bytes' (set_pythonCodeRunning false r)
      else if negb (_pythonCodeRunning r) && matchString byte ">" then
        set_mode MODE_RAW r
      else checkPromptBytes bytes' r
  end.

(** [checkPrompt()] up to its first [await]. In raw-paste mode there is
    none and this is the whole call. In the other modes nothing is written
    before [await this._sleep(this.promptCheckInterval)]; what follows the
    sleep is [checkPromptAfterSleep], run when [checkPromptSleeps]. *)
Definition checkPrompt (r : REPL) : REPL :=
  if mode_eqb (_mode r) MODE_RAWPASTE then
    let bytes := Js.sliceFrom (_serialInputBuffer r) (_promptCheckPointer r) in
    checkPromptBytes bytes
      (set_promptCheckPointer (_promptCheckPointer r + Js.len bytes) r)
  else r.

Definition checkPromptSleeps (r : REPL) : bool :=
  negb (mode_eqb (_mode r) MODE_RAWPASTE) && _currentLineIsPrompt r.

Definition checkPromptAfterSleep (r : REPL) : REPL :=
  if _currentLineIsPrompt r then set_pythonCodeRunning false r else r.

(** [softRestart()] *)
Definition softRestart (r : REPL) : REPL := serialTransmit CHAR_CTRL_D r.

Definition getCodeOutput (r : REPL) : string := _codeOutput r.

(** [_readSerialBytes(byteCount, offset=null)] *)
Definition _readSerialBytes (byteCount : Z) (offset : option Z) (r : REPL)
  : REPL * string :=
  let offset :=
    match offset with
    | None => _promptCheckPointer r
    | Some o => o
    end in
  let bytes := Js.slice (_serialInputBuffer r) offset (offset + byteCount) in
  (set_promptCheckPointer (_promptCheckPointer r + byteCount) r, bytes).

(** [_clearSerialBytes(offset=null)] *)
Definition _clearSerialBytes (offset : option Z) (r : REPL) : REPL :=
  let offset :=
    match offset with
    | None => _promptCheckPointer r
    | Some o => o
    end in
  let offset :=
    if offset >? Js.len (_serialInputBuffer r)
    then Js.len (_serialInputBuffer r) else offset in
  let r1 := set_serialInputBuffer (Js.sliceFrom (_serialInputBuffer r) offset) r in
  let r2 := set_promptCheckPointer (_promptCheckPointer r1 - offset) r1 in
  set_codeCheckPointer (_codeCheckPointer r2 - offset) r2.

(** [exitRawMode()] *)
Definition exitRawMode (r : REPL) : REPL :=
  set_mode MODE_NORMAL (serialTransmit CHAR_CTRL_B r).


(** [_formatCodeOutput(codeline)] *)
Definition _formatCodeOutput (codeline : string) : string :=
  if existsb (fun prefix => Re.test prefix codeline) IGNORE_OUTPUT_LINE_PREFIXES
  then ""
  else fold_left (fun codeline sequence => Re.replace sequence codeline "")
         CONTROL_SEQUENCES codeline.

(** [_getSerialCodeOutput()] *)
Definition _getSerialCodeOutput (r : REPL) : REPL * string :=
  let remainingBuffer := Js.sliceFrom (_serialInputBuffer r) (_codeCheckPointer r) in
  if Js.includes (_inputLineEnding r) remainingBuffer then
    let codeline := hd "" (Js.split remainingBuffer (_inputLineEnding r)) in
    (set_codeCheckPointer
       (_codeCheckPointer r + Js.len codeline + Js.len (_inputLineEnding r)) r,
     _formatCodeOutput codeline)
  else (r, _formatCodeOutput "").

(** [do { codeline = this._getSerialCodeOutput(); ... } while (codeline.length > 0)]
    of [_processToken]; every round that goes on moves [_codeCheckPointer]
    forward, so [fuel] rounds are enough when [fuel] exceeds the distance
    of the pointer to the end of the buffer. *)
Fixpoint readCodeLines (fuel : nat) (codelines : list string) (r : REPL)
  : REPL * list string :=
  match fuel with
  | O => (r, codelines)
  | S fuel' =>
      let '(r1, codeline) := _getSerialCodeOutput r in
      if truthy codeline
      then readCodeLines fuel' (codelines ++ [codeline]) r1
      else (r1, codelines)
  end.

(** [_setTitle(title, append=false)]; the [setTitle] it calls is the
    placeholder. *)
Definition _setTitle (t : string) (append : bool) (r : REPL) : REPL :=
  set_title (if append then title r ++ t else t) r.

(** One round of the [for (codeline of codelines)] loop of
    [_processToken]. *)
Definition addCodeLine (r : REPL) (codeline : string) : REPL :=
  if negb (Re.test (nth 0 IGNORE_OUTPUT_LINE_PREFIXES Re.Eps) codeline)
     && negb (Re.test (Re.Cat Re.Bol (Re.lit ">>> ")) codeline)
     && negb (Re.test (Re.Cat Re.Bol (Re.lit "=== ")) codeline)
  then
    if negb (mode_eqb (_mode r) MODE_RAWPASTE)
       && Re.test REGEX_PROMPT_RAW_MODE codeline
    then set_mode MODE_RAW r
    else set_codeOutput (_codeOutput r ++ codeline ++ _outputLineEnding r) r
  else r.

(** [_processToken(token)]. [checkPrompt] is called without [await]: what
    it does before its first [await] happens here. *)
Definition _processToken (r : REPL) (token : string) : REPL :=
  let r1 :=
    if String.eqb token CHAR_TITLE_START then _setTitle "" false (set_titleMode true r)
    else if String.eqb token CHAR_TITLE_END then set_titleMode false r
    else if _titleMode r then _setTitle token true r
    else r in
  let r2 := set_serialInputBuffer (_serialInputBuffer r1 ++ token) r1 in
  let '(r3, codelines) :=
    if _pythonCodeRunning r2 then
      let r2' := checkPrompt r2 in
      if negb (mode_eqb (_mode r2') MODE_RAWPASTE)
      then readCodeLines
             (S (Z.to_nat (Js.len (_serialInputBuffer r2') - _codeCheckPointer r2')))
             [] r2'
      else (r2', [])
    else (r2, []) in
  if _pythonCodeRunning r3 && (0 <? Z.of_nat (List.length codelines))
  then fold_left addCodeLine codelines r3
  else r3.

(** [_processQueuedTokens()]: the queue is emptied from its head. *)
Definition _processQueuedTokens (r : REPL) : REPL :=
  fold_left _processToken (_tokenQueue r) (set_tokenQueue [] r).

(** [_regexEscape(regexString)]: [regexString.replace(/\\/, "\\\\")], the
    first backslash doubled. *)
Definition _regexEscape (regexString : string) : string :=
  Re.replace (Re.chr "\") regexString "\\".

(** The source of the pattern [_tokenize] compiles. *)
Definition tokenRegexSource : string :=
  "(" ++ _regexEscape CHAR_TITLE_START ++ "|" ++ _regexEscape CHAR_TITLE_END
      ++ "|" ++ _regexEscape CHAR_CTRL_D ++ ")".

(** [new RegExp(tokenRegexSource, "gi")]: one group around three
    alternatives, ESC ] 0 ; and ESC \ (the doubled backslash is the escaped
    backslash) and EOT. *)
Definition tokenRegex : Re.regex :=
  Re.Grp 1
    (Re.Alt (Re.litI CHAR_TITLE_START)
       (Re.Alt (Re.litI CHAR_TITLE_END) (Re.litI CHAR_CTRL_D))).

(** [_tokenize(string)] *)
Definition _tokenize (s : string) : list string := Re.split tokenRegex s.

(** The regex literal of [_hasPartialToken], flags [gi]: an escaped
    backslash, then the three characters x 1 b, then optionally ] with
    optionally 0 with optionally a double quote, then [$]. *)
Definition partialToken : Re.regex :=
  Re.Cat (Re.litI "\x1b")
    (Re.Cat
       (Re.opt (Re.Cat (Re.chrI "]")
                  (Re.opt (Re.Cat (Re.chrI "0") (Re.opt (Re.chrI "034"))))))
       Re.Eol).

(** [_hasPartialToken(chunk)], called with the one-element array
    [tokens.slice(-1)], which [test] reads as its element. *)
Definition _hasPartialToken (chunk : string) : bool := Re.test partialToken chunk.

(** [onSerialReceive(e)] up to [await this._processQueuedTokens()]: the data with the
    carried partial token before it, the tokens added to the queue, and
    the partial token carried from here. *)
Definition receiveTokens (data : string) (r : REPL)
  : string * list string * option string :=
  let '(data, partial) :=
    match _partialToken r with
    | Some p => if truthy p then (p ++ data, None) else (data, Some p)
    | None => (data, None)
    end in
  let tokens := _tokenize data in
  if (0 <? Z.of_nat (List.length tokens)) && _hasPartialToken (last tokens "")
  then (data, removelast tokens, Some (last tokens ""))
  else (data, tokens, partial).

(** [onSerialReceive(e)], with [e.data] for [e]. *)
Definition onSerialReceive (edata : string) (r : REPL) : REPL * string :=
  let '(data, tokens, partial) := receiveTokens edata r in
  let r1 := set_partialToken partial r in
  let r2 := set_tokenQueue (_tokenQueue r1 ++ tokens) r1 in
  let r3 := _processQueuedTokens r2 in
  (r3, if terminalOutput r3 then data else "").

(** The partial token carried to the next call, as text. *)
Definition carried (r : REPL) : string :=
  match _partialToken r with
  | Some p => p
  | None => ""
  end.

(** The receive path as an arrival during a sleep. *)
Definition receive (edata : string) (r : REPL) : REPL :=
  fst (onSerialReceive edata r).

(** [getErrorOutput(raw = false)] *)
Definition getErrorOutput (raw_ : bool) (r : REPL) : completion ErrorOutput :=
  if raw_ then Return (RawError (_errorOutput r))
  else if negb (truthy (_errorOutput r)) then Return NoError
  else bind (decodeError (_inputLineEnding r) (_errorOutput r))
         (fun error => Return (Decoded error)).

(** The chunks of a stream received one after the other: the tokens the
    calls of [onSerialReceive] added to the queue, in order, and the object
    after the last call. *)
Fixpoint receiveAll (chunks : list string) (r : REPL) : list string * REPL :=
  match chunks with
  | [] => ([], r)
  | edata :: chunks' =>
      let '(_, tokens, _) := receiveTokens edata r in
      let '(tokens', r') := receiveAll chunks' (receive edata r) in
      ((tokens ++ tokens')%list, r')
  end.

Notation "x <- m ;; k" := (andThen m (fun x => k))
  (at level 61, m at next level, right associativity).
Notation "m ;; k" := (andThen m (fun _ => k))
  (at level 61, right associativity).

(** [_waitForModeChange(mode)]: no [try] around the wait. *)
Definition _waitForModeChange (target : mode) : async REPL unit :=
  _timeout (poll (fun r => negb (mode_eqb (_mode r) target)) _checkForModeChange).

(** The loop of [interruptCode]:
    [while (this._pythonCodeRunning) { await this.serialTransmit(CHAR_CTRL_C); await this.checkPrompt(); await this._sleep(50); }]
    where the awaited [checkPrompt] sleeps once more when the last line
    is the prompt. *)
Fixpoint interruptLoop (sleeps : list (REPL -> REPL)) (r : REPL) : REPL * bool :=
  if _pythonCodeRunning r then
    let r1 := checkPrompt (serialTransmit CHAR_CTRL_C r) in
    if checkPromptSleeps r1 then
      match sleeps with
      | [] => (r1, false)
      | arrive1 :: sleeps1 =>
          let r2 := checkPromptAfterSleep (arrive1 r1) in
          match sleeps1 with
          | [] => (r2, false)
          | arrive2 :: sleeps2 => interruptLoop sleeps2 (arrive2 r2)
          end
      end
    else
      match sleeps with
      | [] => (r1, false)
      | arrive :: sleeps' => interruptLoop sleeps' (arrive r1)
      end
  else (r, true).

(** [interruptCode()]: [undefined], or [false] after a timeout. *)
Definition interruptCode : async REPL (option bool) :=
  step (set_pythonCodeRunning true) ;;
  tryCatch (_timeout interruptLoop ;; ret None)
    (fun _ => step (console_error "Awaiting prompt timed out.") ;; ret (Some false)).

(** [getToPrompt()] *)
Definition getToPrompt : async REPL unit :=
  interruptCode ;;
  step (serialTransmit (CHAR_CTRL_B ++ CHAR_CTRL_D ++ CHAR_CTRL_B)) ;;
  step (set_mode MODE_NORMAL).

(** [enterRawMode()] *)
Definition enterRawMode : async REPL unit :=
  m <- read _mode ;;
  if mode_eqb m MODE_RAW then ret tt
  else
    getToPrompt ;;
    step (serialTransmit CHAR_CTRL_A) ;;
    _waitForModeChange MODE_RAW.

(** A method that returns at once. *)
Definition call {A : Type} (f : REPL -> REPL * A) : async REPL A :=
  fun sc r => let '(r', a) := f r in (sc, r', Return a).

(** [enterRawPasteMode()]: [true], [false], or [undefined] ([None]). *)
Definition enterRawPasteMode : async REPL (option bool) :=
  enterRawMode ;;
  bufferLength <- read (fun r => Js.len (_serialInputBuffer r)) ;;
  step (serialTransmit (CHAR_CTRL_E ++ "A" ++ CHAR_CTRL_A)) ;;
  _timeout (poll (fun r => Js.len (_serialInputBuffer r) <? bufferLength + 2) id) ;;
  len <- read (fun r => Js.len (_serialInputBuffer r)) ;;
  if len <? bufferLength + 2 then
    step (console_error "Failed to enter raw paste mode.") ;; ret None
  else
    response <- call (_readSerialBytes 2 (Some bufferLength)) ;;
    if matchString response CHAR_RAW_PASTE_UNSUPPORTED then
      step (console_error "Device does not support raw paste mode.") ;;
      ret (Some false)
    else if matchString response CHAR_RAW_PASTE_SUPPORTED then
      step (set_mode MODE_RAWPASTE) ;; ret (Some true)
    else if String.eqb response "ra" then
      step (console_error "Device does not understand or support raw paste mode.") ;;
      ret (Some false)
    else ret (Some false).

(** [_waitForCodeExecution(codeTimeoutMs)] *)
Definition _waitForCodeExecution (codeTimeoutMs : Z) : async REPL unit :=
  if negb (codeTimeoutMs =? 0) then
    tryCatch (_timeout (poll _pythonCodeRunning id))
      (fun _ => step (console_error "Code timed out."))
  else forever (poll _pythonCodeRunning id).

Definition CODE_EXECUTION_TIMEOUT : Z := 15000.

(** [finishRawMode()] *)
Definition finishRawMode : async REPL string :=
  step (set_pythonCodeRunning true) ;;
  step (set_codeOutput "") ;;
  step (set_errorOutput "") ;;
  step (serialTransmit CHAR_CTRL_D) ;;
  _waitForCodeExecution CODE_EXECUTION_TIMEOUT ;;
  step (set_mode MODE_NORMAL) ;;
  read _codeOutput.

(** [execRawMode(code)] *)
Definition execRawMode (code : string) : async REPL string :=
  enterRawMode ;;
  step (serialTransmit code) ;;
  finishRawMode.

(** [flowControlWindowSize.charCodeAt(0) + (flowControlWindowSize.charCodeAt(1) << 8)]:
    a missing second byte shifts to 0, a missing first byte makes the sum
    [NaN] ([None]). *)
Definition windowSize (bytes : string) : option Z :=
  match Js.charCodeAt bytes 0 with
  | None => None
  | Some b0 =>
      Some (b0 + Z.shiftl (match Js.charCodeAt bytes 1 with
                           | Some b1 => b1
                           | None => 0
                           end) 8)
  end.

(** The [while (codePointer < codeLength)] loop of [execRawPasteMode] for
    a window size that is a number. The loop need not end (a window that
    is used up and neither refilled nor refused is asked about again):
    [None] when [fuel] rounds were not enough. The input buffer is read as
    it is when the loop reaches it. *)
Fixpoint sendWindows (fuel : nat) (code : string)
  (flowControlWindowSize codePointer remainingWindowSize : Z) (r : REPL)
  : option REPL :=
  match fuel with
  | O => None
  | S fuel' =>
      if codePointer <? Js.len code then
        let chunk := Js.slice code codePointer (codePointer + remainingWindowSize) in
        let r := serialTransmit chunk r in
        let codePointer := codePointer + remainingWindowSize in
        let remainingWindowSize := remainingWindowSize - Js.len chunk in
        if remainingWindowSize <=? 0 then
          let '(r, instruction) := _readSerialBytes 1 None r in
          if matchString instruction CHAR_CTRL_A then
            sendWindows fuel' code flowControlWindowSize codePointer
              flowControlWindowSize r
          else if matchString instruction CHAR_CTRL_D then Some r
          else
            sendWindows fuel' code flowControlWindowSize codePointer
              remainingWindowSize r
        else
          sendWindows fuel' code flowControlWindowSize codePointer
            remainingWindowSize r
      else Some r
  end.

(** The same loop from its start, also for a window size that is [NaN]:
    then the one chunk is [code.slice(0, NaN)], empty, and the loop ends
    on [NaN < codeLength]. *)
Definition sendCode (fuel : nat) (code : string) (flowControlWindowSize : option Z)
  : async REPL unit :=
  fun sc r =>
    match flowControlWindowSize with
    | Some w =>
        match sendWindows fuel code w 0 w r with
        | Some r' => (sc, r', Return tt)
        | None => (sc, r, Pending)
        end
    | None =>
        if 0 <? Js.len code then (sc, serialTransmit "" r, Return tt)
        else (sc, r, Return tt)
    end.

(** [execRawPasteMode(code, codeTimeoutMs)]: a string, or [undefined]
    ([None]) after the fallback to [execRawMode]. *)
Definition execRawPasteMode (fuel : nat) (code : string) (codeTimeoutMs : Z)
  : async REPL (option string) :=
  success <- enterRawPasteMode ;;
  match success with
  | Some true =>
      step (serialTransmit code) ;;
      bytes <- call (_readSerialBytes 2 None) ;;
      call (_readSerialBytes 1 None) ;;
      step (_clearSerialBytes None) ;;
      sendCode fuel code (windowSize bytes) ;;
      step (serialTransmit CHAR_CTRL_D) ;;
      step (set_ctrlDCount 0) ;;
      step (set_pythonCodeRunning true) ;;
      step (set_codeOutput "") ;;
      step (set_errorOutput "") ;;
      _waitForCodeExecution codeTimeoutMs ;;
      step (_clearSerialBytes None) ;;
      step exitRawMode ;;
      out <- read _codeOutput ;;
      ret (Some (Js.sliceFrom out (Js.ceilHalf (Js.len out))))
  | _ =>
      execRawMode code ;;
      ret None
  end.

(** [runCode(code, codeTimeoutMs)] *)
Definition runCode (fuel : nat) (code : string) (codeTimeoutMs : Z)
  : async REPL (option string) :=
  getToPrompt ;;
  execRawPasteMode fuel (code ++ LINE_ENDING_LF) codeTimeoutMs.


(** ** Words for the properties, and objects to try them on *)

(** The object right after a submission is finalized, with the bytes
    [stream] of the device unread in its buffer. *)
Definition finalized (stream : string) (r : REPL) : Prop :=
  _mode r = MODE_RAWPASTE /\ _ctrlDCount r = 0 /\ _pythonCodeRunning r = true /\
  _codeOutput r = "" /\ _errorOutput r = "" /\
  Js.sliceFrom (_serialInputBuffer r) (_promptCheckPointer r) = stream.

(** A finalized object whose buffer holds marker, [hello], marker,
    marker. *)
Definition helloState : REPL :=
  set_serialInputBuffer (CHAR_CTRL_D ++ "hello" ++ CHAR_CTRL_D ++ "" ++ CHAR_CTRL_D)
    (set_pythonCodeRunning true (set_mode MODE_RAWPASTE new_REPL)).

(** The offset [_clearSerialBytes] starts from. *)
Definition clearOffset (offset : option Z) (r : REPL) : Z :=
  match offset with
  | None => _promptCheckPointer r
  | Some o => o
  end.

(** Six characters in the buffer, four of them read for the prompt and
    one for the code output. *)
Definition compactionState : REPL :=
  set_codeCheckPointer 1
    (set_promptCheckPointer 4 (set_serialInputBuffer "abcdef" new_REPL)).

(** The window is refilled [n] times: the next [n] instruction bytes the
    loop reads are refill bytes. *)
Definition refilled (n : Z) (r : REPL) : Prop :=
  forall j, 0 <= j < n ->
    Js.slice (_serialInputBuffer r) (_promptCheckPointer r + j)
      (_promptCheckPointer r + j + 1) = CHAR_CTRL_A.

Definition tenCharacters : string := "0123456789".

(** Two refill bytes wait in the buffer. *)
Definition twoRefills : REPL :=
  set_serialInputBuffer (CHAR_CTRL_A ++ CHAR_CTRL_A) new_REPL.

(** What the receive path keeps of its input: the carried partial token,
    the queue and the buffer. *)
Definition inputs (r : REPL) : option string * list string * string :=
  (_partialToken r, _tokenQueue r, _serialInputBuffer r).

Definition partialText (partial : option string) : string :=
  match partial with
  | Some p => p
  | None => ""
  end.

(** A device that answers every step of [runCode("print(1+1)")]: the
    prompt, the raw banner, the raw-paste answer with a window size, and
    the output of the program between the markers. The program runs twice
    on the device, which got its text twice. *)
Definition printScript : script REPL :=
  [ [receive (LINE_ENDING_CRLF ++ ">>> "); id; id];
    [id; id];
    [receive ("raw REPL; CTRL-B to exit" ++ LINE_ENDING_CRLF ++ ">"); id];
    [receive (CHAR_RAW_PASTE_SUPPORTED ++ String "128" (String "000" (String "001" "")))];
    [receive (CHAR_CTRL_D ++ "2" ++ LINE_ENDING_CRLF ++ "2" ++ LINE_ENDING_CRLF
              ++ CHAR_CTRL_D ++ CHAR_CTRL_D ++ ">")] ].

(** A device that has raw paste and declares a window of 4 bytes: the
    prompt, the raw banner, and the answer to the handshake, R, a one
    byte, the two bytes of the window size (4 and 0) and a one byte. It
    sends nothing after that. *)
Definition windowScript : script REPL :=
  [ [receive (LINE_ENDING_CRLF ++ ">>> "); id; id];
    [receive ("raw REPL; CTRL-B to exit" ++ LINE_ENDING_CRLF ++ ">"); id];
    [receive (CHAR_RAW_PASTE_SUPPORTED ++ String "004" (String "000" (String "001" "")))];
    [] ].

(** The same answer to the handshake with two refill bytes after it, for
    a driver that is in raw mode already and has nothing in its buffer. *)
Definition refillScript : script REPL :=
  [ [receive (CHAR_RAW_PASTE_SUPPORTED
              ++ String "004" (String "000" (String "001" ""))
              ++ CHAR_CTRL_A ++ CHAR_CTRL_A)];
    [] ].

(** A title that arrives in three chunks, cut inside its markers. *)
Definition titleChunks : list string :=
  [ "abc" ++ String "027" "]";
    "0;tit";
    "le" ++ CHAR_TITLE_END ++ "def" ].

End RawPaste.

(* ================================================================== *)
(** * The cursor-buffer driver: [src/unnamed/part_000] *)
(* ================================================================== *)

Module Buffered.

Import Async ErrorText.

Definition CHAR_CTRL_A : string := String "001" "".
Definition CHAR_CTRL_B : string := String "002" "".
Definition CHAR_CTRL_C : string := String "003" "".
Definition CHAR_CTRL_D : string := String "004" "".

Definition LINE_ENDING_CRLF : string := String "013" (String "010" "").
Definition LINE_ENDING_LF : string := String "010" "".

(** [/raw REPL; CTRL-B to exit/] *)
Definition REGEX_PROMPT_RAW_MODE : Re.regex := Re.lit "raw REPL; CTRL-B to exit".

(** [/>>> /] *)
Definition REGEX_PROMPT_NORMAL_MODE : Re.regex := Re.lit ">>> ".

(** [/Press any key to enter the REPL./], the last character a dot of the
    pattern. *)
Definition REGEX_PRE_PROMPT : Re.regex :=
  Re.Cat (Re.lit "Press any key to enter the REPL") Re.dot.

(** [MODE_NORMAL = 1], [MODE_RAW = 2], [MODE_PRE_PROMPT = 3]; [_mode] starts
    as [null], which is [None] in [option mode]. *)
Inductive mode : Type := MODE_NORMAL | MODE_RAW | MODE_PRE_PROMPT.

Definition mode_eqb (a b : mode) : bool :=
  match a, b with
  | MODE_NORMAL, MODE_NORMAL | MODE_RAW, MODE_RAW
  | MODE_PRE_PROMPT, MODE_PRE_PROMPT => true
  | _, _ => false
  end.

(** [this._mode == mode] and [this._mode != mode] for a [mode] that is one
    of the three constants. *)
Definition modeIs (m : option mode) (target : mode) : bool :=
  match m with
  | Some m' => mode_eqb m' target
  | None => false
  end.

(** ** [class InputBuffer] *)

Record InputBuffer : Type := {
  _buffer : string;
  _pointer : Z;
  lineEnding : string
}.

Definition set_buffer (v : string) (r : InputBuffer) : InputBuffer :=
  Build_InputBuffer v (_pointer r) (lineEnding r).

Definition set_pointer (v : Z) (r : InputBuffer) : InputBuffer :=
  Build_InputBuffer (_buffer r) v (lineEnding r).

(** [constructor()] *)
Definition new_InputBuffer : InputBuffer :=
  {| _buffer := ""; _pointer := 0; lineEnding := LINE_ENDING_CRLF |}.

Definition append (data : string) (b : InputBuffer) : InputBuffer :=
  set_buffer (_buffer b ++ data) b.

Definition get (b : InputBuffer) : string := _buffer b.

Definition clear (b : InputBuffer) : InputBuffer :=
  set_pointer 0 (set_buffer "" b).

(** [getLines(allLines = false)] *)
Definition getLines (allLines : bool) (b : InputBuffer) : list string :=
  let buffer := if allLines then _buffer b else Js.sliceFrom (_buffer b) (_pointer b) in
  Js.split buffer (lineEnding b).

(** [readLine(advancePointer = true)]; [None] is [null]. *)
Definition readLine (advancePointer : bool) (b : InputBuffer)
  : InputBuffer * option string :=
  let lines := getLines false b in
  if Js.len (Js.sliceFrom (_buffer b) (_pointer b)) =? 0 then (b, None)
  else
    let first := hd "" lines in
    (if advancePointer
     then set_pointer (_pointer b + Js.len first + Js.len (lineEnding b)) b
     else b,
     Some first).

(** [readLastLine()] *)
Definition readLastLine (b : InputBuffer) : option string :=
  let lines := getLines false b in
  if Js.len (Js.sliceFrom (_buffer b) (_pointer b)) =? 0 then None
  else Some (last lines "").

(** [getRemainingBuffer()] *)
Definition getRemainingBuffer (b : InputBuffer) : InputBuffer * string :=
  let result := Js.sliceFrom (_buffer b) (_pointer b) in
  (set_pointer (_pointer b + Js.len result) b, result).

(** [readExactly(byteCount)] *)
Definition readExactly (byteCount : Z) (b : InputBuffer) : InputBuffer * string :=
  let bytes := Js.slice (_buffer b) (_pointer b) (_pointer b + byteCount) in
  (set_pointer (_pointer b + byteCount) b, bytes).

(** The [while (!bytes.match(value) && newByte.length > 0)] loop of
    [readUntil]; it returns the buffer and [newByte]. [None] when [fuel]
    rounds were not enough. *)
Fixpoint readUntilLoop (fuel : nat) (value : Re.regex) (bytes newByte : string)
  (b : InputBuffer) : option (InputBuffer * string) :=
  match fuel with
  | O => None
  | S fuel' =>
      if negb (Re.test value bytes) && (0 <? Js.len newByte) then
        let '(b, newByte) := readExactly 1 b in
        readUntilLoop fuel' value (bytes ++ newByte) newByte b
      else Some (b, newByte)
  end.

(** [readUntil(value)] for a [value] that is a regex, or the regex of a
    string. Every round of the loop that is not the last reads one
    character, so the loop has at most as many rounds as characters are
    left, and two more. *)
Definition readUntil (value : Re.regex) (b : InputBuffer)
  : option (InputBuffer * bool) :=
  let currentOffset := _pointer b in
  let '(b1, bytes) := readExactly 1 b in
  match readUntilLoop (S (S (Z.to_nat (Js.len (_buffer b) - _pointer b))))
          value bytes " " b1 with
  | None => None
  | Some (b2, newByte) =>
      if Js.len newByte =? 0
      then Some (set_pointer currentOffset b2, false)
      else Some (b2, true)
  end.

(** [movePointer(offset)] *)
Definition movePointer (offset : Z) (b : InputBuffer) : InputBuffer :=
  if offset <? _pointer b then b
  else
    let offset := if offset >? Js.len (_buffer b) then Js.len (_buffer b) else offset in
    set_pointer offset b.

Definition getPointerPosition (b : InputBuffer) : Z := _pointer b.




(** ** [class REPL] *)

(** The fields the methods below read or write; [transmitted] and
    [console] as in the raw-paste driver. *)
Record REPL : Type := {
  _pythonCodeRunning : bool;
  _codeOutput : string;
  _errorOutput : string;
  _serialInputBuffer : InputBuffer;
  _titleMode : bool;
  title : string;
  _inputLineEnding : string;
  _outputLineEnding : string;
  _mode : option mode;
  _checkpointCount : Z;
  _rawByteCount : Z;
  terminalOutput : bool;
  transmitted : list string;
  console : list string
}.

(** [constructor()] *)
Definition new_REPL : REPL :=
  {| _pythonCodeRunning := false;
     _codeOutput := "";
     _errorOutput := "";
     _serialInputBuffer := new_InputBuffer;
     _titleMode := false;
     title := "";
     _inputLineEnding := LINE_ENDING_CRLF;
     _outputLineEnding := LINE_ENDING_LF;
     _mode := None;
     _checkpointCount := 0;
     _rawByteCount := 0;
     terminalOutput := true;
     transmitted := [];
     console := [] |}.

Definition set_pythonCodeRunning (v : bool) (r : REPL) : REPL :=
  Build_REPL v (_codeOutput r) (_errorOutput r) (_serialInputBuffer r)
    (_titleMode r) (title r) (_inputLineEnding r) (_outputLineEnding r)
    (_mode r) (_checkpointCount r) (_rawByteCount r) (terminalOutput r)
    (transmitted r) (console r).

Definition set_codeOutput (v : string) (r : REPL) : REPL :=
  Build_REPL (_pythonCodeRunning r) v (_errorOutput r) (_serialInputBuffer
    r) (_titleMode r) (title r) (_inputLineEnding r) (_outputLineEnding r)
    (_mode r) (_checkpointCount r) (_rawByteCount r) (terminalOutput r)
    (transmitted r) (console r).

Definition set_errorOutput (v : string) (r : REPL) : REPL :=
  Build_REPL (_pythonCodeRunning r) (_codeOutput r) v (_serialInputBuffer r)
    (_titleMode r) (title r) (_inputLineEnding r) (_outputLineEnding r)
    (_mode r) (_checkpointCount r) (_rawByteCount r) (terminalOutput r)
    (transmitted r) (console r).

Definition set_serialInputBuffer (v : InputBuffer) (r : REPL) : REPL :=
  Build_REPL (_pythonCodeRunning r) (_codeOutput r) (_errorOutput r) v
    (_titleMode r) (title r) (_inputLineEnding r) (_outputLineEnding r)
    (_mode r) (_checkpointCount r) (_rawByteCount r) (terminalOutput r)
    (transmitted r) (console r).

Definition set_mode (v : option mode) (r : REPL) : REPL :=
  Build_REPL (_pythonCodeRunning r) (_codeOutput r) (_errorOutput r)
    (_serialInputBuffer r) (_titleMode r) (title r) (_inputLineEnding r)
    (_outputLineEnding r) v (_checkpointCount r) (_rawByteCount r)
    (terminalOutput r) (transmitted r) (console r).

Definition set_checkpointCount (v : Z) (r : REPL) : REPL :=
  Build_REPL (_pythonCodeRunning r) (_codeOutput r) (_errorOutput r)
    (_serialInputBuffer r) (_titleMode r) (title r) (_inputLineEnding r)
    (_outputLineEnding r) (_mode r) v (_rawByteCount r) (terminalOutput r)
    (transmitted r) (console r).

Definition set_rawByteCount (v : Z) (r : REPL) : REPL :=
  Build_REPL (_pythonCodeRunning r) (_codeOutput r) (_errorOutput r)
    (_serialInputBuffer r) (_titleMode r) (title r) (_inputLineEnding r)
    (_outputLineEnding r) (_mode r) (_checkpointCount r) v (terminalOutput
    r) (transmitted r) (console r).

Definition set_transmitted (v : list string) (r : REPL) : REPL :=
  Build_REPL (_pythonCodeRunning r) (_codeOutput r) (_errorOutput r)
    (_serialInputBuffer r) (_titleMode r) (title r) (_inputLineEnding r)
    (_outputLineEnding r) (_mode r) (_checkpointCount r) (_rawByteCount r)
    (terminalOutput r) v (console r).

Definition set_console (v : list string) (r : REPL) : REPL :=
  Build_REPL (_pythonCodeRunning r) (_codeOutput r) (_errorOutput r)
    (_serialInputBuffer r) (_titleMode r) (title r) (_inputLineEnding r)
    (_outputLineEnding r) (_mode r) (_checkpointCount r) (_rawByteCount r)
    (terminalOutput r) (transmitted r) v.

(** [await this.serialTransmit(msg)], with a transmit function installed:
    the constructor leaves [serialTransmit] at [null], and the call throws
    until the client has set it. *)
Definition serialTransmit (msg : string) (r : REPL) : REPL :=
  set_transmitted (transmitted r ++ [msg]) r.

Definition console_log (msg : string) (r : REPL) : REPL :=
  set_console (console r ++ [msg]) r.

Definition matchString (s t : string) : bool := Re.test (Re.lit t) s.

Definition truthy (s : string) : bool := negb (String.eqb s "").

(** The [while ((match = regex.exec(str)) !== null)] loop of
    [_findLastRegexPosition]; [lastIndex] is [regex.lastIndex]. *)
Fixpoint findLastLoop (fuel : nat) (regex : Re.regex) (str : string)
  (lastIndex : nat) (lastPosition : Z) : Z :=
  match fuel with
  | O => lastPosition
  | S fuel' =>
      match Re.exec regex str lastIndex with
      | Some m =>
          findLastLoop fuel' regex str (S (Re.index m)) (Z.of_nat (Re.index m))
      | None => lastPosition
      end
  end.

(** [_findLastRegexPosition(regex, str)]. Each round starts its search one
    past the last match, so there are at most [str.length + 1] matches. *)
Definition _findLastRegexPosition (regex : Re.regex) (str : string) : Z :=
  findLastLoop (S (S (String.length str))) regex str 0 (-1).

(** [softRestart()] *)
Definition softRestart (r : REPL) : REPL := serialTransmit CHAR_CTRL_D r.

(** [_detectCurrentMode()] up to its end or to the
    [await this._sleep(1000)] that is its last statement: the callers
    sleep or read the mode next, so a sleep of theirs takes what arrives
    meanwhile. *)
Definition _detectCurrentMode (r : REPL) : REPL :=
  let buffer := get (_serialInputBuffer r) in
  let lastRawPosition := _findLastRegexPosition REGEX_PROMPT_RAW_MODE buffer in
  let lastNormalPosition := _findLastRegexPosition REGEX_PROMPT_NORMAL_MODE buffer in
  let lastPrePromptPosition := _findLastRegexPosition REGEX_PRE_PROMPT buffer in
  if (lastPrePromptPosition >? lastNormalPosition)
     && (lastPrePromptPosition >? lastRawPosition) then
    let r := set_mode (Some MODE_PRE_PROMPT) r in
    let r := set_serialInputBuffer
               (movePointer lastPrePromptPosition (_serialInputBuffer r)) r in
    serialTransmit CHAR_CTRL_C r
  else
    let r :=
      if lastRawPosition >? lastNormalPosition then
        let r := set_mode (Some MODE_RAW) r in
        set_serialInputBuffer (movePointer lastRawPosition (_serialInputBuffer r)) r
      else if lastNormalPosition >? lastRawPosition then
        let r := set_mode (Some MODE_NORMAL) r in
        set_serialInputBuffer (movePointer lastNormalPosition (_serialInputBuffer r)) r
      else r in
    match _mode r with
    | None => serialTransmit CHAR_CTRL_C (softRestart r)
    | Some _ => r
    end.

(** [_lineIsPrompt(prompt_regex)] *)
Definition _lineIsPrompt (prompt_regex : Re.regex) (r : REPL) : bool :=
  match readLastLine (_serialInputBuffer r) with
  | None => false
  | Some currentLine =>
      if truthy currentLine then Re.test prompt_regex currentLine else false
  end.

(** [/>>> $/] *)
Definition _currentLineIsNormalPrompt (r : REPL) : bool :=
  _lineIsPrompt (Re.Cat (Re.lit ">>> ") Re.Eol) r.

(** The [while (bytes.length > 0)] loop of [_checkCodeRunning]. The round
    that finds [OK] goes on with [bytes.slice(2)], every other round that
    goes on with [bytes.slice(1)]. *)
Fixpoint checkCodeBytes (bytes : string) (r : REPL) : REPL :=
  match bytes with
  | EmptyString => r
  | String b bytes' =>
      if _checkpointCount r =? 0 then
        if matchString (Js.slice bytes 0 2) "OK" then
          let r := set_checkpointCount (_checkpointCount r + 1) r in
          match bytes' with
          | EmptyString => r
          | String _ bytes'' => checkCodeBytes bytes'' r
          end
        else if matchString (Js.slice bytes 0 2) "ra" then r
        else console_log ("Unexpected output in raw mode: " ++ bytes) r
      else
        let byte := String b "" in
        if matchString byte CHAR_CTRL_D then
          checkCodeBytes bytes' (set_checkpointCount (_checkpointCount r + 1) r)
        else if _checkpointCount r =? 1 then
          checkCodeBytes bytes' (set_codeOutput (_codeOutput r ++ byte) r)
        else if _checkpointCount r =? 2 then
          checkCodeBytes bytes' (set_errorOutput (_errorOutput r ++ byte) r)
        else if _checkpointCount r >=? 2 then
          checkCodeBytes bytes' (set_pythonCodeRunning false r)
        else checkCodeBytes bytes' r
  end.

(** [_checkCodeRunning()] *)
Definition _checkCodeRunning (r : REPL) : REPL :=
  let r := _detectCurrentMode r in
  if modeIs (_mode r) MODE_RAW then
    let '(buf, bytes) := getRemainingBuffer (_serialInputBuffer r) in
    let r := set_serialInputBuffer buf r in
    let r := set_rawByteCount (_rawByteCount r + Js.len bytes) r in
    if _rawByteCount r >=? 2 then checkCodeBytes bytes r else r
  else if _currentLineIsNormalPrompt r then set_pythonCodeRunning false r
  else console_log "Normal Prompt not detected." r.

(** [_decodeError(rawError)] *)
Definition _decodeError (rawError : string) (r : REPL) : completion DecodedError :=
  decodeError (_inputLineEnding r) rawError.

(** [getErrorOutput(raw = false)] *)
Definition getErrorOutput (raw_ : bool) (r : REPL) : completion ErrorOutput :=
  if raw_ then Return (RawError (_errorOutput r))
  else if negb (truthy (_errorOutput r)) then Return NoError
  else bind (_decodeError (_errorOutput r) r) (fun error => Return (Decoded error)).

Definition getCodeOutput (r : REPL) : string := _codeOutput r.

(** [_waitForModeChange(mode, keySequence=null)]: the wait is inside a
    [try], and the [catch] logs. *)
Definition _waitForModeChange (target : mode) (keySequence : option string)
  : async REPL unit :=
  tryCatch
    (_timeout
       (poll (fun r => negb (modeIs (_mode r) target))
          (fun r =>
             _detectCurrentMode
               (match keySequence with
                | Some keys => if truthy keys then serialTransmit keys r else r
                | None => r
                end))))
    (fun _ => step (console_log "Awaiting mode change timed out.")).

Notation "x <- m ;; k" := (andThen m (fun x => k))
  (at level 61, m at next level, right associativity).
Notation "m ;; k" := (andThen m (fun _ => k))
  (at level 61, right associativity).

(** [_exitRawMode()] *)
Definition _exitRawMode : async REPL unit :=
  m <- read _mode ;;
  if negb (modeIs m MODE_RAW) then ret tt
  else _waitForModeChange MODE_NORMAL (Some CHAR_CTRL_B).

(** [_enterRawMode()] *)
Definition _enterRawMode : async REPL unit :=
  m <- read _mode ;;
  (if modeIs m MODE_RAW then _exitRawMode else ret tt) ;;
  _waitForModeChange MODE_RAW (Some CHAR_CTRL_A).


(** ** Words for the properties, and objects to try them on *)

(** The cursor is inside the buffer. *)
Definition inside (b : InputBuffer) : Prop :=
  0 <= _pointer b <= Js.len (_buffer b).



(** What holds between two rounds of the loop of a [readUntil] that
    started at [start] in [buffer]. *)
Definition reading (buffer : string) (start : Z) (bytes newByte : string)
  (b : InputBuffer) : Prop :=
  _buffer b = buffer /\ start + 1 <= _pointer b /\
  ((bytes <> "" /\ (newByte <> "" -> _pointer b <= Js.len buffer)) \/
   (bytes = "" /\ (newByte = "" \/ Js.len buffer <= start))).

Definition twoCharacters : InputBuffer := append "ab" new_InputBuffer.


(** [p] is the offset of the last occurrence of the pattern in [s], or -1
    when there is none. *)
Definition lastOccurrence (a : Re.regex) (s : string) (p : Z) : Prop :=
  (p = -1 /\ forall i, ~ Re.occursAt a s i) \/
  (0 <= p /\ Re.occursAt a s (Z.to_nat p) /\
   forall i, (Z.to_nat p < i)%nat -> ~ Re.occursAt a s i).

(** The character of [s] at offset [i] is [c]. *)
Definition startsAt (c : ascii) (s : string) (i : nat) : Prop :=
  exists rest, Js.drop i s = String c rest.

(** The normal prompt, then the raw banner. *)
Definition rawAfterNormal : REPL :=
  set_serialInputBuffer
    (append (">>> " ++ LINE_ENDING_CRLF ++ "raw REPL; CTRL-B to exit"
             ++ LINE_ENDING_CRLF ++ ">") new_InputBuffer)
    new_REPL.

(** The raw banner, then the normal prompt. *)
Definition normalAfterRaw : REPL :=
  set_serialInputBuffer
    (append ("raw REPL; CTRL-B to exit" ++ LINE_ENDING_CRLF ++ ">"
             ++ LINE_ENDING_CRLF ++ ">>> ") new_InputBuffer)
    new_REPL.

(** The device is silent and its mode unknown. *)
Definition silent (r : REPL) : Prop :=
  _buffer (_serialInputBuffer r) = "" /\ _mode r = None /\ console r = [].

End Buffered.


(* ================================================================== *)
(** * More words for the properties of [src/repl.js] *)
(* ================================================================== *)

Module Terms.

Import Async RawPaste.

(** Bytes of the device are added to the input buffer, as [_processToken]
    adds a token. *)
Definition arrived (bytes : string) (r : REPL) : REPL :=
  set_serialInputBuffer (_serialInputBuffer r ++ bytes) r.

(** A submission is under way: the code runs, or a marker was counted. *)
Definition busy (r : REPL) : Prop :=
  _pythonCodeRunning r = true \/ 1 <= _ctrlDCount r.

(** What the marker loop of [checkPrompt] writes. *)
Definition demux (r : REPL) : string * string * Z * bool :=
  (_codeOutput r, _errorOutput r, _ctrlDCount r, _pythonCodeRunning r).

(** The bytes that [checkPrompt] has not read, and the bytes from which
    the next line of output is taken. *)
Definition unreadPrompt (r : REPL) : string :=
  Js.sliceFrom (_serialInputBuffer r) (_promptCheckPointer r).

Definition unreadCode (r : REPL) : string :=
  Js.sliceFrom (_serialInputBuffer r) (_codeCheckPointer r).

(** What the receive path never writes: what was transmitted, the
    console, the line endings and the terminal switch. *)
Definition outside (r : REPL) : list string * list string * string * string * bool :=
  (transmitted r, console r, _inputLineEnding r, _outputLineEnding r, terminalOutput r).

End Terms.


Module Tokens.

Import RawPaste.

Definition ESC : string := String "027" "".

(** One of the three markers [_tokenize] splits at. *)
Definition isMarker (t : string) : Prop :=
  t = CHAR_TITLE_START \/ t = CHAR_TITLE_END \/ t = CHAR_CTRL_D.

(** A string in which no marker occurs. *)
Definition isData (t : string) : Prop :=
  Js.includes CHAR_TITLE_START t = false /\
  Js.includes CHAR_TITLE_END t = false /\
  Js.includes CHAR_CTRL_D t = false.

(** Data, marker, data, ..., marker, data. *)
Fixpoint alternate (tokens : list string) : Prop :=
  match tokens with
  | [] => False
  | d :: tokens' =>
      isData d /\
      match tokens' with
      | [] => True
      | m :: tokens'' => isMarker m /\ alternate tokens''
      end
  end.

(** What [_tokenize] makes of [rest] when it has read [cur] since the
    last marker. *)
Definition pieces (cur rest : string) : list string :=
  Re.splitLoop tokenRegex (S (String.length rest)) cur 0 rest.

(** The first statement of [_processToken]: the token read for the
    title. *)
Definition titleToken (r : REPL) (token : string) : REPL :=
  if String.eqb token CHAR_TITLE_START then _setTitle "" false (set_titleMode true r)
  else if String.eqb token CHAR_TITLE_END then set_titleMode false r
  else if _titleMode r then _setTitle token true r
  else r.

End Tokens.


Module Scripts.

Import Async RawPaste.

(** What arrives during a sleep leaves alone what the driver
    transmitted. *)
Definition quiet (arrive : REPL -> REPL) : Prop :=
  forall r, transmitted (arrive r) = transmitted r.

(** During a sleep nothing arrives, or data arrives through
    [onSerialReceive]. *)
Definition received (arrive : REPL -> REPL) : Prop :=
  arrive = id \/ exists edata, arrive = receive edata.

(** No loop of [interruptCode] is left running behind a call that enters
    raw mode from [r] on the script [sc]: the driver is in raw mode and
    does not interrupt, or the prompt came and the loop of
    [interruptCode], which reads the first wait of the script, ended by
    itself before its deadline. *)
Definition promptCame (sc : script REPL) (r : REPL) : Prop :=
  _mode r = MODE_RAW \/
  snd (interruptLoop (hd [] sc) (set_pythonCodeRunning true r)) = true.

(** A device that has raw paste: the prompt, the raw banner, the answer
    to the handshake with a window of 128 bytes, and the output between
    the markers. *)
Definition pasteScript : script REPL :=
  [ [receive (LINE_ENDING_CRLF ++ ">>> "); id; id];
    [receive ("raw REPL; CTRL-B to exit" ++ LINE_ENDING_CRLF ++ ">"); id];
    [receive (CHAR_RAW_PASTE_SUPPORTED ++ String "128" (String "000" (String "001" "")))];
    [receive (CHAR_CTRL_D ++ "2" ++ LINE_ENDING_CRLF ++ CHAR_CTRL_D ++ CHAR_CTRL_D ++ ">")] ].

(** A device without raw paste: it answers the handshake with R and a
    zero byte, and runs the code in raw mode. *)
Definition rawScript : script REPL :=
  [ [receive (LINE_ENDING_CRLF ++ ">>> "); id; id];
    [receive ("raw REPL; CTRL-B to exit" ++ LINE_ENDING_CRLF ++ ">"); id];
    [receive (CHAR_RAW_PASTE_UNSUPPORTED ++ LINE_ENDING_CRLF ++ ">")];
    [receive ("OK2" ++ LINE_ENDING_CRLF ++ CHAR_CTRL_D ++ CHAR_CTRL_D ++ ">"); id] ].

(** A call reads its sleeps from the head of the script: what it leaves
    is a tail of the script. *)
Definition tails {St A : Type} (m : async St A) : Prop :=
  forall sc s, exists k : nat, fst (fst (m sc s)) = skipn k sc.

End Scripts.


Module Lines.

(** The line ending of the device. *)
Definition CRLF : string := String "013" (String "010" "").

(** The normal prompt. *)
Definition PROMPT : string := ">>> ".

(** [s] ends with [p]. *)
Definition endsWith (p s : string) : Prop := exists pre, s = pre ++ p.

(** The characters of an [InputBuffer] from its cursor on. *)
Definition unread (b : Buffered.InputBuffer) : string :=
  Js.sliceFrom (Buffered._buffer b) (Buffered._pointer b).

End Lines.


Module Cursor.

Import Buffered Lines.

(** A buffer of the cursor variant with [text] in it and nothing read. *)
Definition holding (text : string) : InputBuffer := append text new_InputBuffer.

(** What holds between two rounds of the loop of [readUntil] that started
    at the cursor of [b0]: [bytes] is what was read, no shorter part of it
    matches, and an empty [newByte] tells that the end was passed. *)
Definition scanned (value : Re.regex) (b0 : InputBuffer) (bytes newByte : string)
  (b : InputBuffer) : Prop :=
  _buffer b = _buffer b0 /\
  _pointer b0 + 1 <= _pointer b /\
  bytes = Js.take (Z.to_nat (_pointer b - _pointer b0)) (unread b0) /\
  (forall m : nat, (m < Z.to_nat (_pointer b - _pointer b0))%nat ->
     Re.test value (Js.take m (unread b0)) = false) /\
  (newByte = "" -> Js.len (_buffer b0) < _pointer b) /\
  (newByte <> "" -> bytes <> "" -> _pointer b <= Js.len (_buffer b0)).

End Cursor.


Module Raw.

Import Buffered.

(** The answer of raw mode to a submission: [OK], the output, EOT, the
    error text, EOT, and what follows. *)
Definition answer (out err rest : string) : string :=
  "OK" ++ out ++ CHAR_CTRL_D ++ err ++ CHAR_CTRL_D ++ rest.

(** No anchor of a mode occurs in the text. *)
Definition anchorless (text : string) : Prop :=
  Re.test REGEX_PROMPT_RAW_MODE text = false /\
  Re.test REGEX_PROMPT_NORMAL_MODE text = false /\
  Re.test REGEX_PRE_PROMPT text = false.

(** The object after a submission in raw mode, with nothing counted. *)
Definition submitted : REPL :=
  set_pythonCodeRunning true (set_mode (Some MODE_RAW) new_REPL).

End Raw.


Module Output.

Import RawPaste Lines.

(** A line of output that the driver shows: it starts with none of the
    prefixes of an echoed prompt, and holds neither the answer to the
    handshake of raw paste nor the banner of raw mode. *)
Definition shown (line : string) : Prop :=
  Forall (fun prefix => Re.test prefix line = false) IGNORE_OUTPUT_LINE_PREFIXES /\
  Forall (fun sequence => Re.test sequence line = false) CONTROL_SEQUENCES /\
  Re.test (Re.Cat Re.Bol (Re.lit "=== ")) line = false /\
  Re.test REGEX_PROMPT_RAW_MODE line = false.

(** A line that starts with a prefix of an echoed prompt. *)
Definition echoed (line : string) : Prop :=
  existsb (fun prefix => Re.test prefix line) IGNORE_OUTPUT_LINE_PREFIXES = true.

(** The driver in normal mode while code runs, with [head] received and
    not yet read as output. *)
Definition running (head : string) : REPL :=
  set_pythonCodeRunning true (set_serialInputBuffer head new_REPL).

End Output.


(* ================================================================== *)
(** * The file operations ([src/repl.js], class [FileOps]) *)
(* ================================================================== *)

Module FileOps.

Import Async ErrorText RawPaste.

Definition DEBUG : bool := false.
Definition TYPE_FILE : Z := 32768.

(** The fields of [FileOps] beside [_repl]; [_isReadOnly] is [null]
    ([None]) or a boolean. The driver [_repl] is passed along with the
    object. *)
Record FileOps : Type := {
  _isReadOnly : option bool;
  _doCheckReadOnly : bool
}.

(** [constructor(repl, checkReadOnly=true)] *)
Definition new_FileOps (checkReadOnly : bool) : FileOps :=
  {| _isReadOnly := None; _doCheckReadOnly := checkReadOnly |}.

Definition set_isReadOnly (v : option bool) (f : FileOps) : FileOps :=
  {| _isReadOnly := v; _doCheckReadOnly := _doCheckReadOnly f |}.

Definition set_terminalOutput (v : bool) (r : REPL) : REPL :=
  Build_REPL (_pythonCodeRunning r) (_codeOutput r) (_errorOutput r)
    (_serialInputBuffer r) (_titleMode r) (title r) (_inputLineEnding r)
    (_outputLineEnding r) (_tokenQueue r) (_mode r) (_codeCheckPointer r)
    (_promptCheckPointer r) (_ctrlDCount r) v (_partialToken r)
    (transmitted r) (console r).

(** An [async] method of [FileOps]: from the script left, the object and
    its driver to the script left, the object, the driver and how the
    call ended. The bytes that arrive reach the driver only. *)
Definition fileAsync (A : Type) : Type :=
  script REPL -> FileOps -> REPL -> script REPL * FileOps * REPL * completion A.

Definition pure {A : Type} (a : A) : fileAsync A :=
  fun sc f r => (sc, f, r, Return a).

Definition raise {A : Type} (e : string) : fileAsync A :=
  fun sc f r => (sc, f, r, Throw e).

(** An expression that can throw. *)
Definition settled {A : Type} (c : completion A) : fileAsync A :=
  fun sc f r => (sc, f, r, c).

Definition next {A B : Type} (m : fileAsync A) (k : A -> fileAsync B)
  : fileAsync B :=
  fun sc f r =>
    match m sc f r with
    | (sc', f', r', Return a) => k a sc' f' r'
    | (sc', f', r', Throw e) => (sc', f', r', Throw e)
    | (sc', f', r', Pending) => (sc', f', r', Pending)
    end.

(** [await this._repl.m(...)] *)
Definition onRepl {A : Type} (m : async REPL A) : fileAsync A :=
  fun sc f r => let '(sc', r', c) := m sc r in (sc', f, r', c).

(** A synchronous expression on the object, and one on the driver that
    can throw. *)
Definition field {A : Type} (g : FileOps -> A) : fileAsync A :=
  fun sc f r => (sc, f, r, Return (g f)).

Definition ofRepl {A : Type} (g : REPL -> completion A) : fileAsync A :=
  fun sc f r => (sc, f, r, g r).

(** A synchronous statement on the object. *)
Definition update (g : FileOps -> FileOps) : fileAsync unit :=
  fun sc f r => (sc, g f, r, Return tt).

(** [try { m } catch (error) { handler }] *)
Definition attempt {A : Type} (m : fileAsync A) (handler : string -> fileAsync A)
  : fileAsync A :=
  fun sc f r =>
    match m sc f r with
    | (sc', f', r', Throw e) => handler e sc' f' r'
    | other => other
    end.

(** A call that is not awaited: the caller holds the promise and goes on,
    whatever the promise settles to. What the call does before its first
    wait is done by then, and none of the calls left unawaited below
    reaches a wait. *)
Definition unawaited {A : Type} (m : fileAsync A) : fileAsync (completion A) :=
  fun sc f r => let '(sc', f', r', c) := m sc f r in (sc', f', r', Return c).

(** A promise in a condition: an object is truthy. *)
Definition truthyPromise {A : Type} (promise : completion A) : bool := true.

(** [v()] for a [v] that is [null] or a boolean: neither is a function. *)
Definition invoke (v : option bool) : completion bool := Throw "TypeError".

(** A number in a condition, and in a template. The numbers here are
    integers below [10^21], which print in decimal digits. *)
Definition truthyNumber (n : option Z) : bool :=
  match n with
  | Some z => negb (z =? 0)
  | None => false
  end.

Definition decimal (z : Z) : string := NilZero.string_of_int (Z.to_int z).

(** A string or [null] in a concatenation. *)
Definition printed (o : option string) : string :=
  match o with
  | Some s => s
  | None => "null"
  end.

(** An error of [getErrorOutput()] in a condition. *)
Definition truthyError (error : ErrorOutput) : bool :=
  match error with
  | RawError text => truthy text
  | NoError => false
  | Decoded _ => true
  end.

Definition LF : string := String "010" "".

(** The line that sets the modification time. *)
Definition utime (path : string) (modificationTime : Z) : string :=
  "os.utime(" ++ quote ++ path ++ quote ++ ", (os.path.getatime(" ++ quote ++ path
  ++ quote ++ "), " ++ decimal modificationTime ++ "))" ++ LF.

Definition withTime (code path : string) (modificationTime : option Z) : string :=
  if truthyNumber modificationTime
  then code ++ utime path (match modificationTime with Some z => z | None => 0 end)
  else code.

(** What a file read gives: a string, or a [Blob] of bytes. *)
Inductive contents : Type :=
| Text (s : string)
| Blob (bytes : list Z).

Notation "x <~ m ;; k" := (next m (fun x => k))
  (at level 61, m at next level, right associativity).
Notation "m ;;; k" := (next m (fun _ => k))
  (at level 61, right associativity).

(** The program that [_readTextFile] sends. *)
Definition readTextCode (path : string) : string :=
  LF ++ "with open(" ++ quote ++ path ++ quote ++ ", " ++ quote ++ "r" ++ quote
  ++ ") as f:" ++ LF
  ++ "    print(f.read())" ++ LF.

Section Platform.

(** The rounds allowed to the loop that sends the code. *)
Variable fuel : nat.

(** [atob] of the platform, which throws on a text that is not base64. *)
Variable atob : string -> completion string.

(** [isReadOnly()] *)
Definition isReadOnly : fileAsync bool :=
  onRepl (step (set_terminalOutput DEBUG)) ;;;
  let code :=
    LF ++ "import storage" ++ LF
    ++ "print(storage.getmount(" ++ quote ++ "/" ++ quote ++ ").readonly)" ++ LF in
  result <~ onRepl (execRawPasteMode fuel code CODE_EXECUTION_TIMEOUT) ;;
  text <~ settled (defined result) ;;
  let isReadOnly := matchString text "True" in
  onRepl (step (set_terminalOutput true)) ;;;
  pure isReadOnly.

(** [_checkReadOnly()] *)
Definition _checkReadOnly : fileAsync unit :=
  check <~ field _doCheckReadOnly ;;
  if negb check then pure tt
  else
    known <~ field _isReadOnly ;;
    match known with
    | None => v <~ isReadOnly ;; update (set_isReadOnly (Some v))
    | Some _ => pure tt
    end ;;;
    current <~ field _isReadOnly ;;
    readOnly <~ settled (invoke current) ;;
    if readOnly : bool
    then raise "File System is Read Only. Try disabling or ejecting the drive."
    else pure tt.

(** [_checkReplErrors()] *)
Definition _checkReplErrors : fileAsync ErrorOutput :=
  error <~ ofRepl (getErrorOutput false) ;;
  match error with
  | Decoded e =>
      onRepl (step (console_error
        ("Python Error - " ++ printed (type e) ++ ": " ++ printed (message e)))) ;;;
      if match type e, errno e with
         | Some t, Some (Js.Int n) => String.eqb t "OSError" && (n =? 30)
         | _, _ => false
         end
      then
        update (set_isReadOnly (Some true)) ;;;
        _checkReadOnly ;;;
        pure error
      else pure error
  | RawError text =>
      if truthy text
      then
        onRepl (step (console_error "Python Error - undefined: undefined")) ;;;
        pure error
      else pure error
  | NoError => pure error
  end.

(** [_readRawFile(path)] *)
Definition _readRawFile (path : string) : fileAsync (option contents) :=
  attempt
    (let code :=
       LF ++ "import binascii" ++ LF
       ++ "with open(" ++ quote ++ path ++ quote ++ ", " ++ quote ++ "rb" ++ quote
       ++ ") as f:" ++ LF
       ++ "    byte_string = f.read()" ++ LF
       ++ "    print(binascii.b2a_base64(byte_string, False))" ++ LF in
     result <~ onRepl (execRawPasteMode fuel code CODE_EXECUTION_TIMEOUT) ;;
     promise <~ unawaited _checkReplErrors ;;
     if truthyPromise promise then pure None
     else
       text <~ settled (defined result) ;;
       decoded <~ settled (atob (Js.slice text 2 (-3))) ;;
       pure (Some (Blob (map (fun c => Z.of_nat (nat_of_ascii c))
                           (list_ascii_of_string decoded)))))
    (fun _ => pure None).

(** [_readTextFile(path)] *)
Definition _readTextFile (path : string) : fileAsync (option contents) :=
  attempt
    (let code := readTextCode path in
     result <~ onRepl (execRawPasteMode fuel code CODE_EXECUTION_TIMEOUT) ;;
     error <~ _checkReplErrors ;;
     if truthyError error then pure None
     else
       text <~ settled (defined result) ;;
       pure (Some (Text (Js.slice text 0 (-2)))))
    (fun _ => pure None).

(** [readFile(path, raw=false)] *)
Definition readFile (path : string) (raw_ : bool) : fileAsync (option contents) :=
  onRepl (step (set_terminalOutput DEBUG)) ;;;
  result <~ (if raw_ then _readRawFile path else _readTextFile path) ;;
  onRepl (step (set_terminalOutput true)) ;;;
  pure result.

(** [makeDir(path, modificationTime=null)] *)
Definition makeDir (path : string) (modificationTime : option Z) : fileAsync unit :=
  _checkReadOnly ;;;
  onRepl (step (set_terminalOutput DEBUG)) ;;;
  let code := "os.mkdir(" ++ quote ++ path ++ quote ++ ")" ++ LF in
  let code := withTime code path modificationTime in
  onRepl (execRawPasteMode fuel code CODE_EXECUTION_TIMEOUT) ;;;
  unawaited _checkReplErrors ;;;
  onRepl (step (set_terminalOutput true)).

(** [delete(path)] *)
Definition delete (path : string) : fileAsync unit :=
  _checkReadOnly ;;;
  onRepl (step (set_terminalOutput DEBUG)) ;;;
  let code :=
    LF ++ "import os" ++ LF ++ LF
    ++ "stat = os.stat(" ++ quote ++ path ++ quote ++ ")" ++ LF
    ++ "if stat[0] == " ++ decimal TYPE_FILE ++ ":" ++ LF
    ++ "    os.remove(" ++ quote ++ path ++ quote ++ ")" ++ LF
    ++ "else:" ++ LF
    ++ "    os.rmdir(" ++ quote ++ path ++ quote ++ ")" ++ LF in
  onRepl (execRawPasteMode fuel code CODE_EXECUTION_TIMEOUT) ;;;
  unawaited _checkReplErrors ;;;
  onRepl (step (set_terminalOutput true)).

(** [move(oldPath, newPath)] *)
Definition move (oldPath newPath : string) : fileAsync bool :=
  _checkReadOnly ;;;
  onRepl (step (set_terminalOutput DEBUG)) ;;;
  let code :=
    LF ++ "import os" ++ LF
    ++ "os.rename(" ++ quote ++ oldPath ++ quote ++ ", " ++ quote ++ newPath ++ quote
    ++ ")" ++ LF in
  onRepl (execRawPasteMode fuel code CODE_EXECUTION_TIMEOUT) ;;;
  error <~ unawaited _checkReplErrors ;;
  onRepl (step (set_terminalOutput true)) ;;;
  pure (negb (truthyPromise error)).

End Platform.

(** A device that has raw paste and a file that reads [hi]: the prompt,
    the raw banner, the answer to the handshake with a window of 128
    bytes, and the output of the program, which the device got twice,
    between the markers. *)
Definition fileScript : script REPL :=
  [ [receive (LINE_ENDING_CRLF ++ ">>> "); id; id];
    [receive ("raw REPL; CTRL-B to exit" ++ LINE_ENDING_CRLF ++ ">"); id];
    [receive (CHAR_RAW_PASTE_SUPPORTED ++ String "128" (String "000" (String "001" "")))];
    [receive (CHAR_CTRL_D ++ "hi" ++ LINE_ENDING_CRLF ++ "hi" ++ LINE_ENDING_CRLF
              ++ CHAR_CTRL_D ++ CHAR_CTRL_D ++ ">")] ].

(** A platform whose [atob] refuses every text. *)
Definition noAtob (text : string) : completion string := Throw "InvalidCharacterError".

(** How a call ended. *)
Definition outcome {A : Type} (x : script REPL * FileOps * REPL * completion A)
  : completion A := snd x.

(** The call returned. *)
Definition returned {A : Type} (c : completion A) : Prop :=
  exists a, c = Return a.

End FileOps.


(* ================================================================== *)
(** * What the title tells ([src/repl.js], [getVersion], [getIpAddress]) *)
(* ================================================================== *)

Module Title.

Import RawPaste.

(** The number of capturing groups of a pattern; the array of a match has
    one entry more. *)
Fixpoint groupCount (r : Re.regex) : nat :=
  match r with
  | Re.Cat r1 r2 => groupCount r1 + groupCount r2
  | Re.Alt r1 r2 => groupCount r1 + groupCount r2
  | Re.Star _ r1 => groupCount r1
  | Re.Grp _ r1 => S (groupCount r1)
  | _ => 0
  end.

(** [_parseTitleInfo(regex)]; [None] is [null], or the [undefined] of a
    group that took no part in the match. *)
Definition _parseTitleInfo (regex : Re.regex) (r : REPL) : option string :=
  if truthy (title r) then
    match Re.exec regex (title r) 0 with
    | Some matches =>
        if (2 <=? S (groupCount regex))%nat
        then Re.capture 1 (Re.groups matches)
        else None
    | None => None
    end
  else None.

Definition REPL_MARK : string := "| REPL | ".

(** The pattern of [getVersion]: the mark, group 1 of any characters
    (greedy), and the end of the text. *)
Definition versionRegex : Re.regex :=
  Re.Cat (Re.lit REPL_MARK) (Re.Cat (Re.Grp 1 (Re.Star true Re.dot)) Re.Eol).

(** [\d{1,3}]: a digit, and up to two more as long as there are digits. *)
Definition octetRegex : Re.regex :=
  Re.Cat Re.digit (Re.opt (Re.Cat Re.digit (Re.opt Re.digit))).

(** [(?:\d{1,3}\.)] *)
Definition octetDot : Re.regex := Re.Cat octetRegex (Re.chr ".").

(** [(?:\d{1,3}\.){3}\d{1,3}] *)
Definition quadRegex : Re.regex :=
  Re.Cat octetDot (Re.Cat octetDot (Re.Cat octetDot octetRegex)).

(** [/((?:\d{1,3}\.){3}\d{1,3})/] *)
Definition ipRegex : Re.regex := Re.Grp 1 quadRegex.

(** [getVersion()] *)
Definition getVersion (r : REPL) : option string := _parseTitleInfo versionRegex r.

(** [getIpAddress()] *)
Definition getIpAddress (r : REPL) : option string := _parseTitleInfo ipRegex r.

(** ** Words for the properties *)

(** A text without a line terminator. *)
Fixpoint oneLine (s : string) : bool :=
  match s with
  | EmptyString => true
  | String c s' =>
      negb (Ascii.eqb c "010"%char || Ascii.eqb c "013"%char) && oneLine s'
  end.

Fixpoint allDigits (s : string) : bool :=
  match s with
  | EmptyString => true
  | String c s' => Js.isDigit c && allDigits s'
  end.

(** One to three digits, and four such numbers with dots between. *)
Definition octet (a : string) : Prop :=
  (1 <= String.length a <= 3)%nat /\ allDigits a = true.

Definition quad (ip : string) : Prop :=
  exists a b c d : string,
    ip = a ++ "." ++ b ++ "." ++ c ++ "." ++ d /\
    octet a /\ octet b /\ octet c /\ octet d.

(** A pattern of characters, sequences and alternatives alone, and the
    texts it stands for. *)
Fixpoint plain (r : Re.regex) : bool :=
  match r with
  | Re.Chr _ => true
  | Re.Eps => true
  | Re.Cat r1 r2 => plain r1 && plain r2
  | Re.Alt r1 r2 => plain r1 && plain r2
  | _ => false
  end.

Fixpoint denotes (r : Re.regex) (s : string) : Prop :=
  match r with
  | Re.Chr p => exists c, s = String c "" /\ p c = true
  | Re.Eps => s = ""
  | Re.Cat r1 r2 => exists s1 s2, s = s1 ++ s2 /\ denotes r1 s1 /\ denotes r2 s2
  | Re.Alt r1 r2 => denotes r1 s \/ denotes r2 s
  | _ => False
  end.

(** The driver with the title [t]. *)
Definition titled (t : string) : REPL := set_title t new_REPL.

End Title.

(* ================================================================== *)
(** * Properties *)
(* ================================================================== *)

Module JsFacts.

Import Js.

Lemma append_nil_r (s : string) : s ++ "" = s.
Proof. induction s as [|c s IH]; simpl; [reflexivity | now rewrite IH]. Qed.

Lemma append_assoc (s1 s2 s3 : string) : (s1 ++ s2) ++ s3 = s1 ++ (s2 ++ s3).
Proof. induction s1 as [|c s1 IH]; simpl; [reflexivity | now rewrite IH]. Qed.

Lemma length_append (s1 s2 : string) :
  String.length (s1 ++ s2) = (String.length s1 + String.length s2)%nat.
Proof. induction s1 as [|c s1 IH]; simpl; [reflexivity | now rewrite IH]. Qed.

Lemma len_append (s1 s2 : string) : len (s1 ++ s2) = len s1 + len s2.
Proof. unfold len. rewrite length_append. lia. Qed.

Lemma len_nonneg (s : string) : 0 <= len s.
Proof. unfold len. lia. Qed.

Lemma len_cons (c : ascii) (s : string) : len (String c s) = 1 + len s.
Proof. unfold len. simpl String.length. lia. Qed.

Lemma take_drop (n : nat) (s : string) : take n s ++ drop n s = s.
Proof.
  revert s. induction n as [|n IH]; intros [|c s]; simpl; try reflexivity.
  now rewrite IH.
Qed.

Lemma length_take (n : nat) (s : string) :
  String.length (take n s) = Nat.min n (String.length s).
Proof.
  revert s. induction n as [|n IH]; intros [|c s]; simpl; try reflexivity.
  now rewrite IH.
Qed.

Lemma length_drop (n : nat) (s : string) :
  String.length (drop n s) = (String.length s - n)%nat.
Proof.
  revert s. induction n as [|n IH]; intros [|c s]; simpl; try reflexivity.
  now rewrite IH.
Qed.

Lemma take_all (n : nat) (s : string) :
  (String.length s <= n)%nat -> take n s = s.
Proof.
  revert s. induction n as [|n IH]; intros [|c s] H; simpl in *; try reflexivity.
  - lia.
  - f_equal. apply IH. lia.
Qed.

Lemma drop_all (n : nat) (s : string) :
  (String.length s <= n)%nat -> drop n s = "".
Proof.
  revert s. induction n as [|n IH]; intros [|c s] H; simpl in *; try reflexivity.
  - lia.
  - apply IH. lia.
Qed.

Lemma drop_0 (s : string) : drop 0 s = s.
Proof. destruct s; reflexivity. Qed.

Lemma take_append (s1 s2 : string) : take (String.length s1) (s1 ++ s2) = s1.
Proof. induction s1 as [|c s1 IH]; simpl; [now destruct s2 | now rewrite IH]. Qed.

Lemma drop_append (s1 s2 : string) : drop (String.length s1) (s1 ++ s2) = s2.
Proof. induction s1 as [|c s1 IH]; simpl; [now destruct s2 | exact IH]. Qed.

Lemma drop_drop (n m : nat) (s : string) : drop n (drop m s) = drop (m + n) s.
Proof.
  revert s. induction m as [|m IH]; intros s; simpl.
  - now rewrite ?drop_0.
  - destruct s as [|c s]; [now destruct n | apply IH].
Qed.

(** [s.slice(b)] for an index inside the string. *)
Lemma sliceFrom_inside (s : string) (b : Z) :
  0 <= b <= len s -> sliceFrom s b = drop (Z.to_nat b) s.
Proof.
  intros H. unfold sliceFrom, slice, relativeIndex.
  destruct (Z.ltb_spec b 0); [lia|].
  destruct (Z.ltb_spec (len s) 0); [pose proof (len_nonneg s); lia|].
  rewrite (Z.min_l b) by lia. rewrite Z.min_id.
  apply take_all. rewrite length_drop. unfold len in *. lia.
Qed.

Lemma sliceFrom_beyond (s : string) (b : Z) :
  len s <= b -> sliceFrom s b = "".
Proof.
  intros H. pose proof (len_nonneg s).
  unfold sliceFrom, slice, relativeIndex.
  destruct (Z.ltb_spec b 0); [lia|].
  destruct (Z.ltb_spec (len s) 0); [lia|].
  rewrite (Z.min_r b) by lia. rewrite Z.min_id.
  replace (Z.to_nat (Z.max (len s - len s) 0)) with 0%nat by lia.
  reflexivity.
Qed.

(** [s.slice(b, e)] for indices in order inside the string. *)
Lemma slice_inside (s : string) (b e : Z) :
  0 <= b <= e -> e <= len s ->
  slice s b e = take (Z.to_nat (e - b)) (drop (Z.to_nat b) s).
Proof.
  intros H1 H2. unfold slice, relativeIndex.
  destruct (Z.ltb_spec b 0); [lia|].
  destruct (Z.ltb_spec e 0); [lia|].
  rewrite (Z.min_l b), (Z.min_l e) by lia.
  now rewrite Z.max_l by lia.
Qed.

(** [s.slice(b, e)] is never longer than [e - b], nor than what is left
    of [s] from [b]. *)
Lemma slice_nonneg (s : string) (b e : Z) :
  0 <= b -> 0 <= e ->
  slice s b e = take (Z.to_nat (e - b)) (drop (Z.to_nat b) s).
Proof.
  intros Hb He. pose proof (len_nonneg s) as Hl. unfold slice, relativeIndex.
  destruct (Z.ltb_spec b 0); [lia|].
  destruct (Z.ltb_spec e 0); [lia|].
  destruct (Z.le_gt_cases b (len s)) as [Hbl|Hbl].
  - rewrite (Z.min_l b) by lia.
    destruct (Z.le_gt_cases e (len s)) as [Hel|Hel].
    + rewrite (Z.min_l e) by lia.
      destruct (Z.le_gt_cases b e).
      * now rewrite Z.max_l by lia.
      * rewrite Z.max_r by lia. now replace (Z.to_nat (e - b)) with 0%nat by lia.
    + rewrite (Z.min_r e) by lia. rewrite Z.max_l by lia.
      rewrite !take_all; [reflexivity | |]; rewrite length_drop; unfold len in *; lia.
  - rewrite (Z.min_r b) by lia.
    rewrite (drop_all (Z.to_nat b)) by (unfold len in *; lia).
    rewrite (drop_all (Z.to_nat (len s))) by (unfold len in *; lia).
    now destruct (Z.to_nat _), (Z.to_nat _).
Qed.

Lemma len_take (n : nat) (s : string) : len (take n s) = Z.min (Z.of_nat n) (len s).
Proof. unfold len. rewrite length_take. lia. Qed.

Lemma len_drop (n : nat) (s : string) : len (drop n s) = Z.max (len s - Z.of_nat n) 0.
Proof. unfold len. rewrite length_drop. lia. Qed.

End JsFacts.

Module ReFacts.

Import Js Re.

(** A run of literal characters matches exactly when it is a prefix of
    the input, and takes as many characters as it has. *)
Lemma rmatch_lit {A : Type} (l : string) (pos : nat) (rest : string)
  (caps : captures) (k : nat -> string -> captures -> option A) :
  rmatch (lit l) pos rest caps k =
  if startsWith l rest
  then k (pos + String.length l)%nat (drop (String.length l) rest) caps
  else None.
Proof.
  revert pos rest. induction l as [|c l IH]; intros pos rest; simpl.
  - rewrite Nat.add_0_r. destruct rest; reflexivity.
  - destruct rest as [|x rest]; [reflexivity|].
    destruct (Ascii.eqb c x); simpl; [|reflexivity].
    rewrite IH. now replace (S pos + String.length l)%nat
      with (pos + S (String.length l))%nat by lia.
Qed.

Lemma rmatch_litI {A : Type} (l : string) (pos : nat) (rest : string)
  (caps : captures) (k : nat -> string -> captures -> option A) :
  allCaseless l ->
  rmatch (litI l) pos rest caps k = rmatch (lit l) pos rest caps k.
Proof.
  revert pos rest. induction l as [|c l IH]; intros pos rest Hl; simpl.
  - reflexivity.
  - destruct Hl as [Hc Hl]. destruct rest as [|x rest]; [reflexivity|].
    rewrite Hc. destruct (Ascii.eqb c x); [now apply IH | reflexivity].
Qed.

Ltac caseless_tac :=
  let x := fresh "x" in
  intros x; destruct x as [[] [] [] [] [] [] [] []]; reflexivity.

Lemma caseless_esc : caseless "027". Proof. caseless_tac. Qed.
Lemma caseless_eot : caseless "004". Proof. caseless_tac. Qed.
Lemma caseless_rbracket : caseless "]". Proof. caseless_tac. Qed.
Lemma caseless_zero : caseless "0". Proof. caseless_tac. Qed.
Lemma caseless_semicolon : caseless ";". Proof. caseless_tac. Qed.
Lemma caseless_backslash : caseless "\". Proof. caseless_tac. Qed.

(** [s.match(c)] on a string of one character [b], for the regex of the
    one character [c]. *)
Lemma test_char (c b : ascii) :
  test (lit (String c "")) (String b "") = Ascii.eqb c b.
Proof.
  unfold test, exec, search, matchAt. simpl.
  destruct (Ascii.eqb c b); reflexivity.
Qed.

Lemma test_char_empty (c : ascii) : test (lit (String c "")) "" = false.
Proof. reflexivity. Qed.

(** A match at [pos] starts at [pos]. *)
Lemma matchAt_index (r : regex) (pos : nat) (rest : string) (m : found) :
  matchAt r pos rest = Some m -> index m = pos.
Proof.
  unfold matchAt. destruct (rmatch _ _ _ _ _) as [[e c]|]; [|discriminate].
  now intros [= <-].
Qed.

Lemma matchAt_lit (l : string) (pos : nat) (rest : string) :
  matchAt (lit l) pos rest =
  if startsWith l rest then Some (mkFound pos (pos + String.length l) []) else None.
Proof.
  unfold matchAt. rewrite rmatch_lit. now destruct (startsWith l rest).
Qed.

(** What [search] finds, and what it passes over. *)
Lemma search_Some (r : regex) (pos : nat) (rest : string) (m : found) :
  search r pos rest = Some m ->
  exists d : nat,
    (d <= String.length rest)%nat /\ index m = (pos + d)%nat /\
    matchAt r (pos + d) (drop d rest) = Some m /\
    forall j : nat, (j < d)%nat -> matchAt r (pos + j) (drop j rest) = None.
Proof.
  revert pos. induction rest as [|c rest IH]; intros pos H; simpl in H.
  - destruct (matchAt r pos "") as [m'|] eqn:E; [|discriminate].
    injection H as <-. exists 0%nat. rewrite Nat.add_0_r. simpl.
    repeat split; try lia; auto. now apply matchAt_index in E.
  - destruct (matchAt r pos (String c rest)) as [m'|] eqn:E.
    + injection H as <-. exists 0%nat. rewrite Nat.add_0_r. simpl.
      repeat split; try lia; auto. now apply matchAt_index in E.
    + apply IH in H. destruct H as (d & Hd & Hi & Hm & Hn).
      exists (S d). simpl. replace (pos + S d)%nat with (S pos + d)%nat by lia.
      repeat split; try lia; auto.
      intros [|j] Hj; simpl.
      * now rewrite Nat.add_0_r.
      * replace (pos + S j)%nat with (S pos + j)%nat by lia. apply Hn. lia.
Qed.

Lemma search_None (r : regex) (pos : nat) (rest : string) :
  search r pos rest = None ->
  forall j : nat, (j <= String.length rest)%nat ->
    matchAt r (pos + j) (drop j rest) = None.
Proof.
  revert pos. induction rest as [|c rest IH]; intros pos H j Hj; simpl in H, Hj.
  - destruct (matchAt r pos "") eqn:E; [discriminate|].
    replace j with 0%nat by lia. now rewrite Nat.add_0_r.
  - destruct (matchAt r pos (String c rest)) eqn:E; [discriminate|].
    destruct j as [|j]; simpl.
    + now rewrite Nat.add_0_r.
    + replace (pos + S j)%nat with (S pos + j)%nat by lia. apply IH; [exact H | lia].
Qed.

Lemma exec_Some (r : regex) (s : string) (from : nat) (m : found) :
  exec r s from = Some m ->
  (from <= index m)%nat /\ occursAt r s (index m) /\
  forall j : nat, (from <= j < index m)%nat -> ~ occursAt r s j.
Proof.
  unfold exec. destruct (Nat.ltb_spec (String.length s) from) as [|Hle]; [discriminate|].
  intros H. apply search_Some in H. destruct H as (d & Hd & Hi & Hm & Hn).
  rewrite JsFacts.length_drop in Hd. rewrite JsFacts.drop_drop in Hm.
  rewrite Hi. split; [lia|]. split.
  - split; [lia|]. now rewrite Hm.
  - intros j Hj [_ Hocc]. apply Hocc.
    specialize (Hn (j - from)%nat). rewrite JsFacts.drop_drop in Hn.
    replace (from + (j - from))%nat with j in Hn by lia. apply Hn. lia.
Qed.

Lemma exec_None (r : regex) (s : string) (from : nat) :
  exec r s from = None ->
  forall j : nat, (from <= j)%nat -> ~ occursAt r s j.
Proof.
  unfold exec. intros H j Hj [Hlen Hocc].
  destruct (Nat.ltb_spec (String.length s) from) as [|Hle]; [lia|].
  apply Hocc. pose proof (search_None _ _ _ H (j - from)%nat) as Hn.
  rewrite JsFacts.length_drop, JsFacts.drop_drop in Hn.
  replace (from + (j - from))%nat with j in Hn by lia. apply Hn. lia.
Qed.

End ReFacts.

Module AsyncFacts.

Import Async.

Section Inversion.

Context {St A B : Type}.

(** A sequence returns only if its first part returned. *)
Lemma andThen_Return (m : async St A) (f : A -> async St B)
  (sc sc' : script St) (s s' : St) (b : B) :
  andThen m f sc s = (sc', s', Return b) ->
  exists a sc1 s1, m sc s = (sc1, s1, Return a) /\ f a sc1 s1 = (sc', s', Return b).
Proof.
  unfold andThen. destruct (m sc s) as [[sc1 s1] [a|e|]]; intros H.
  - now exists a, sc1, s1.
  - discriminate.
  - discriminate.
Qed.

(** A throw of the first part is the throw of the sequence. *)
Lemma andThen_Throw (m : async St A) (f : A -> async St B)
  (sc sc' : script St) (s s' : St) (e : string) :
  m sc s = (sc', s', Throw e) -> andThen m f sc s = (sc', s', Throw e).
Proof. unfold andThen. now intros ->. Qed.

End Inversion.

Section Polling.

Context {St : Type}.

(** A wait whose condition holds whatever arrives ends at its deadline. *)
Lemma poll_deadline (P : St -> Prop) (cond : St -> bool) (body : St -> St)
  (sleeps : list (St -> St)) (s : St) :
  (forall x, P x -> cond x = true) ->
  (forall x, P x -> P (body x)) ->
  Forall (fun arrive => forall x, P x -> P (arrive x)) sleeps ->
  P s ->
  P (fst (poll cond body sleeps s)) /\ snd (poll cond body sleeps s) = false.
Proof.
  intros Hc Hb Hs. revert s. induction Hs as [|arrive sleeps Ha Hs IH]; intros s HP; simpl.
  - rewrite (Hc s HP). auto.
  - rewrite (Hc s HP). apply IH. apply Ha, Hb, HP.
Qed.

End Polling.

End AsyncFacts.

Module RawPasteFacts.

Import Js Re Async ErrorText RawPaste JsFacts ReFacts AsyncFacts.

(** ** The demultiplexer *)

Lemma matchString_char (b c : ascii) :
  matchString (String b "") (String c "") = Ascii.eqb c b.
Proof. apply test_char. Qed.

Lemma matchString_marker (b : ascii) :
  matchString (String b "") CHAR_CTRL_D = Ascii.eqb "004" b.
Proof. apply test_char. Qed.

Lemma includes_char_cons (c b : ascii) (s : string) :
  includes (String c "") (String b s) = false ->
  Ascii.eqb c b = false /\ includes (String c "") s = false.
Proof.
  simpl. destruct (Ascii.eqb c b); simpl; [discriminate | auto].
Qed.

(** While one marker has been counted, the bytes before the next marker go
    to the output. *)
Lemma checkPromptBytes_output (out rest : string) (r : REPL) :
  _ctrlDCount r = 1 ->
  includes CHAR_CTRL_D out = false ->
  checkPromptBytes (out ++ rest) r =
  checkPromptBytes rest (set_codeOutput (_codeOutput r ++ out) r).
Proof.
  revert r. induction out as [|b out IH]; intros r Hc Hout.
  - destruct r; simpl in *. now rewrite append_nil_r.
  - apply includes_char_cons in Hout. destruct Hout as [Hb Hout].
    cbn [String.append checkPromptBytes].
    rewrite matchString_marker, Hb, Hc. cbn [Z.eqb Pos.eqb].
    rewrite IH by (simpl; auto). destruct r; simpl. now rewrite append_assoc.
Qed.

(** While two markers have been counted, they go to the error text. *)
Lemma checkPromptBytes_error (err rest : string) (r : REPL) :
  _ctrlDCount r = 2 ->
  includes CHAR_CTRL_D err = false ->
  checkPromptBytes (err ++ rest) r =
  checkPromptBytes rest (set_errorOutput (_errorOutput r ++ err) r).
Proof.
  revert r. induction err as [|b err IH]; intros r Hc Herr.
  - destruct r; simpl in *. now rewrite append_nil_r.
  - apply includes_char_cons in Herr. destruct Herr as [Hb Herr].
    cbn [String.append checkPromptBytes].
    rewrite matchString_marker, Hb, Hc. cbn [Z.eqb Pos.eqb].
    rewrite IH by (simpl; auto). destruct r; simpl. now rewrite append_assoc.
Qed.

(** A marker is counted. *)
Lemma checkPromptBytes_marker (rest : string) (r : REPL) :
  checkPromptBytes (CHAR_CTRL_D ++ rest) r =
  checkPromptBytes rest (set_ctrlDCount (_ctrlDCount r + 1) r).
Proof.
  change (CHAR_CTRL_D ++ rest) with (String "004" rest).
  cbn [checkPromptBytes]. now rewrite matchString_marker.
Qed.

(** After the third marker nothing is captured any more, and the flag can
    only fall. *)
Lemma checkPromptBytes_done (rest : string) (r : REPL) :
  2 < _ctrlDCount r ->
  let r' := checkPromptBytes rest r in
  _codeOutput r' = _codeOutput r /\ _errorOutput r' = _errorOutput r /\
  _ctrlDCount r <= _ctrlDCount r' /\
  (_pythonCodeRunning r = false -> _pythonCodeRunning r' = false).
Proof.
  revert r. induction rest as [|b rest IH]; intros r Hc; simpl.
  - repeat split; auto; lia.
  - rewrite matchString_marker.
    destruct (Ascii.eqb "004" b).
    + specialize (IH (set_ctrlDCount (_ctrlDCount r + 1) r)). simpl in IH.
      destruct IH as (H1 & H2 & H3 & H4); [lia|]. repeat split; auto; try lia.
    + destruct (Z.eqb_spec (_ctrlDCount r) 1); [lia|].
      destruct (Z.eqb_spec (_ctrlDCount r) 2); [lia|].
      destruct (Z.gtb_spec (_ctrlDCount r) 2); [|lia].
      specialize (IH (set_pythonCodeRunning false r)). simpl in IH.
      destruct IH as (H1 & H2 & H3 & H4); [lia|]. repeat split; auto.
Qed.

Lemma checkPromptBytes_done_byte (b : ascii) (rest : string) (r : REPL) :
  2 < _ctrlDCount r -> b <> "004"%char ->
  _pythonCodeRunning (checkPromptBytes (String b rest) r) = false.
Proof.
  intros Hc Hb. simpl. rewrite matchString_marker.
  destruct (Ascii.eqb_spec "004" b) as [E|_]; [now subst|].
  destruct (Z.eqb_spec (_ctrlDCount r) 1); [lia|].
  destruct (Z.eqb_spec (_ctrlDCount r) 2); [lia|].
  destruct (Z.gtb_spec (_ctrlDCount r) 2); [|lia].
  now apply (checkPromptBytes_done rest (set_pythonCodeRunning false r)).
Qed.

(** C1, as amended. After a submission is finalized, for a stream of the
    device marker, output, marker, error text, marker and whatever
    follows, where output and error text hold no marker, [checkPrompt]
    captures exactly the output and exactly the error text. A marker only
    counts: when the stream ends with the third marker the count is 3 and
    the running flag is still set. The flag falls with the first byte
    after the third marker that is not a marker. *)
Theorem C1_demultiplexer (out err rest : string) (r : REPL) :
  finalized (CHAR_CTRL_D ++ out ++ CHAR_CTRL_D ++ err ++ CHAR_CTRL_D ++ rest) r ->
  includes CHAR_CTRL_D out = false ->
  includes CHAR_CTRL_D err = false ->
  let r' := checkPrompt r in
  _codeOutput r' = out /\ _errorOutput r' = err /\
  (rest = "" -> _ctrlDCount r' = 3 /\ _pythonCodeRunning r' = true) /\
  (forall b rest', rest = String b rest' -> b <> "004"%char ->
     _pythonCodeRunning r' = false).
Proof.
  intros (Hm & Hc & Hrun & Hout & Herr & Hs) Ho He. unfold checkPrompt.
  rewrite Hm. cbn [mode_eqb]. rewrite Hs.
  rewrite checkPromptBytes_marker.
  rewrite checkPromptBytes_output by (simpl; auto; lia).
  rewrite checkPromptBytes_marker.
  rewrite checkPromptBytes_error by (simpl; auto; lia).
  rewrite checkPromptBytes_marker.
  match goal with |- context [checkPromptBytes rest ?s] => set (r3 := s) end.
  assert (H3 : _ctrlDCount r3 = 3) by (subst r3; simpl; lia).
  assert (Ho3 : _codeOutput r3 = out) by (subst r3; simpl; now rewrite Hout).
  assert (He3 : _errorOutput r3 = err) by (subst r3; simpl; now rewrite Herr).
  assert (Hr3 : _pythonCodeRunning r3 = true) by (subst r3; simpl; exact Hrun).
  destruct (checkPromptBytes_done rest r3) as (H1 & H2 & _ & _); [lia|].
  simpl. rewrite H1, H2, Ho3, He3.
  split; [reflexivity|]. split; [reflexivity|]. split.
  - intros ->. simpl. split; [exact H3 | exact Hr3].
  - intros b rest' -> Hb. apply checkPromptBytes_done_byte; [lia | exact Hb].
Qed.

(** C1 as stated fails: after marker, [hello], marker, marker have been
    processed, the count is 3 and the running flag is still set. *)
Lemma C1_running_after_third_marker :
  _codeOutput (checkPrompt helloState) = "hello" /\
  _errorOutput (checkPrompt helloState) = "" /\
  _ctrlDCount (checkPrompt helloState) = 3 /\
  _pythonCodeRunning (checkPrompt helloState) = true.
Proof. repeat split; reflexivity. Qed.

(** C1, as amended, on marker, [hello], marker, marker. *)
Lemma C1_demultiplexer_hello :
  _codeOutput (checkPrompt helloState) = "hello" /\
  _errorOutput (checkPrompt helloState) = "" /\
  ("" = "" -> _ctrlDCount (checkPrompt helloState) = 3 /\
              _pythonCodeRunning (checkPrompt helloState) = true) /\
  (forall b rest', "" = String b rest' -> b <> "004"%char ->
     _pythonCodeRunning (checkPrompt helloState) = false).
Proof.
  apply (C1_demultiplexer "hello" "" "" helloState).
  - repeat split; reflexivity.
  - reflexivity.
  - reflexivity.
Defined.

(** ** Compaction *)




(** ** What a submission returns *)

Lemma step_Return (f : REPL -> REPL) (sc sc' : script REPL) (r r' : REPL) (u : unit) :
  step f sc r = (sc', r', Return u) -> sc' = sc /\ r' = f r.
Proof. unfold step. now intros [= <- <-]. Qed.

Lemma read_Return {A : Type} (f : REPL -> A) (sc sc' : script REPL) (r r' : REPL) (a : A) :
  read f sc r = (sc', r', Return a) -> sc' = sc /\ r' = r /\ a = f r.
Proof. unfold read. now intros [= <- <- <-]. Qed.

Lemma ret_Return {A : Type} (x a : A) (sc sc' : script REPL) (r r' : REPL) :
  ret x sc r = (sc', r', Return a) -> sc' = sc /\ r' = r /\ a = x.
Proof. unfold ret. now intros [= <- <- <-]. Qed.

(** The string [execRawPasteMode] returns is cut from the output captured
    in the object it leaves. *)
Lemma execRawPasteMode_returns (fuel : nat) (code : string) (codeTimeoutMs : Z)
  (sc sc' : script REPL) (r r' : REPL) (result : string) :
  execRawPasteMode fuel code codeTimeoutMs sc r = (sc', r', Return (Some result)) ->
  result = sliceFrom (_codeOutput r') (ceilHalf (len (_codeOutput r'))).
Proof.
  unfold execRawPasteMode. intros H.
  apply andThen_Return in H. destruct H as (success & sc1 & r1 & _ & H).
  destruct success as [[|]|].
  2, 3: apply andThen_Return in H; destruct H as (? & ? & ? & _ & H);
        apply ret_Return in H; destruct H as (_ & _ & H); discriminate.
  do 13 (apply andThen_Return in H;
         let a := fresh "a" in let sc := fresh "sc" in let r := fresh "r" in
         destruct H as (a & sc & r & _ & H)).
  apply andThen_Return in H. destruct H as (out & scr & rr & Hread & H).
  apply read_Return in Hread. destruct Hread as (_ & -> & ->).
  apply ret_Return in H. destruct H as (_ & -> & [= ->]). reflexivity.
Qed.

(** Half of a string, from the middle on. *)
Lemma back_half (out : string) :
  let result := sliceFrom out (ceilHalf (len out)) in
  out = take (Z.to_nat (ceilHalf (len out))) out ++ result /\
  len result = len out / 2 /\
  (result = out <-> out = "").
Proof.
  pose proof (len_nonneg out) as Hl. unfold ceilHalf.
  assert (Hh : 0 <= (len out + 1) / 2 <= len out) by (Z.div_mod_to_equations; lia).
  cbv zeta. rewrite sliceFrom_inside by exact Hh.
  split; [now rewrite take_drop|]. split.
  - rewrite len_drop. rewrite Z2Nat.id by lia. Z.div_mod_to_equations; lia.
  - split.
    + intros E. apply (f_equal len) in E. rewrite len_drop, Z2Nat.id in E by lia.
      assert (len out = 0) by (Z.div_mod_to_equations; lia).
      destruct out; [reflexivity | rewrite len_cons in *; pose proof (len_nonneg out); lia].
    + intros ->. reflexivity.
Qed.

(** C10. Whenever [execRawPasteMode], and so [runCode], returns a string,
    this string is the part of the captured output from index
    [ceil(length / 2)] on: the output is its first half followed by the
    returned string, which has [floor(length / 2)] characters and is the
    whole output only when the output is empty. [getCodeOutput] still
    gives the whole output. *)
Theorem C10_back_half_returned (fuel : nat) (code : string) (codeTimeoutMs : Z)
  (sc sc' : script REPL) (r r' : REPL) (result : string) :
  runCode fuel code codeTimeoutMs sc r = (sc', r', Return (Some result)) \/
  execRawPasteMode fuel code codeTimeoutMs sc r = (sc', r', Return (Some result)) ->
  result = sliceFrom (getCodeOutput r') (ceilHalf (len (getCodeOutput r'))) /\
  getCodeOutput r' = take (Z.to_nat (ceilHalf (len (getCodeOutput r')))) (getCodeOutput r') ++ result /\
  len result = len (getCodeOutput r') / 2 /\
  (result = getCodeOutput r' <-> getCodeOutput r' = "").
Proof.
  intros H. unfold getCodeOutput.
  assert (E : result = sliceFrom (_codeOutput r') (ceilHalf (len (_codeOutput r')))).
  { destruct H as [H|H].
    - unfold runCode in H. apply andThen_Return in H.
      destruct H as (u & sc1 & r1 & _ & H). now apply execRawPasteMode_returns in H.
    - now apply execRawPasteMode_returns in H. }
  split; [exact E|]. rewrite E. apply back_half.
Qed.

Abbreviation printRun := (runCode 100 "print(1+1)" 15000 printScript new_REPL).

Lemma printRun_returns : snd printRun = Return (Some ("2" ++ LINE_ENDING_CRLF)).
Proof. reflexivity. Qed.

Lemma printRun_output :
  getCodeOutput (snd (fst printRun)) = "2" ++ LINE_ENDING_CRLF ++ "2" ++ LINE_ENDING_CRLF.
Proof. reflexivity. Qed.

(** C10 on a run of [runCode("print(1+1)")]. *)
Lemma C10_back_half_of_print :
  "2" ++ LINE_ENDING_CRLF =
    sliceFrom (getCodeOutput (snd (fst printRun)))
      (ceilHalf (len (getCodeOutput (snd (fst printRun))))).
Proof.
  refine (proj1 (C10_back_half_returned 100 "print(1+1)" 15000 printScript
           (fst (fst printRun)) new_REPL (snd (fst printRun)) ("2" ++ LINE_ENDING_CRLF) _)).
  left. rewrite <- printRun_returns. now destruct printRun as [[sc r] c].
Defined.

(** ** Partial tokens *)

(** C6, the code at chunks that end inside a title marker. A chunk that
    ends with ESC, or with ESC ] 0, is queued whole as one data token, goes
    to the buffer, and nothing is carried: [_hasPartialToken] looks for
    the four characters backslash, x, 1, b. A chunk that ends with these
    characters is what it holds back. *)
Theorem C6_escape_tail_is_emitted :
  receiveTokens ("abc" ++ String "027" "") new_REPL
    = ("abc" ++ String "027" "", ["abc" ++ String "027" ""], None) /\
  receiveTokens ("abc" ++ String "027" "]0") new_REPL
    = ("abc" ++ String "027" "]0", ["abc" ++ String "027" "]0"], None) /\
  _serialInputBuffer (receive ("abc" ++ String "027" "]0") new_REPL)
    = "abc" ++ String "027" "]0" /\
  _partialToken (receive ("abc" ++ String "027" "]0") new_REPL) = None /\
  receiveTokens "abc\x1b]0" new_REPL = ("abc\x1b]0", [], Some "abc\x1b]0").
Proof. repeat split; reflexivity. Qed.

End RawPasteFacts.

Module SendFacts.

Import Js Re Async RawPaste JsFacts ReFacts.

(** ** The windowed send *)

Lemma sendWindows_end (fuel : nat) (code : string) (w p remaining : Z) (r : REPL) :
  len code <= p -> sendWindows (S fuel) code w p remaining r = Some r.
Proof.
  intros H. simpl. destruct (Z.ltb_spec p (len code)); [lia | reflexivity].
Qed.

Lemma len_chunk (code : string) (p w : Z) :
  0 <= p -> 0 < w -> len (slice code p (p + w)) = Z.min w (Z.max (len code - p) 0).
Proof.
  intros Hp Hw. rewrite slice_nonneg by lia.
  rewrite len_take, len_drop. lia.
Qed.

Lemma chunk_rest (code : string) (p w : Z) :
  0 <= p -> 0 < w ->
  slice code p (p + w) ++ drop (Z.to_nat (p + w)) code = drop (Z.to_nat p) code.
Proof.
  intros Hp Hw. rewrite slice_nonneg by lia.
  replace (Z.to_nat (p + w)) with (Z.to_nat p + Z.to_nat w)%nat by lia.
  rewrite <- drop_drop. replace (p + w - p) with w by lia. apply take_drop.
Qed.

Lemma sendWindows_refilled (w : Z) (code : string) :
  0 < w ->
  forall (fuel : nat) (p : Z) (r : REPL),
    0 <= p -> len code - p < Z.of_nat fuel -> (0 < fuel)%nat ->
    refilled ((len code - p) / w) r ->
    exists r' chunks,
      sendWindows fuel code w p w r = Some r' /\
      transmitted r' = (transmitted r ++ chunks)%list /\
      concatAll chunks = drop (Z.to_nat p) code /\
      (forall i chunk, nth_error chunks i = Some chunk ->
         len chunk = Z.min w (len code - p - Z.of_nat i * w) /\ 0 < len chunk) /\
      _promptCheckPointer r' = _promptCheckPointer r + Z.max ((len code - p) / w) 0 /\
      _serialInputBuffer r' = _serialInputBuffer r.
Proof.
  intros Hw. induction fuel as [|fuel IH]; intros p r Hp Hfuel Hpos Href; [lia|].
  destruct (Z.le_gt_cases (len code) p) as [Hend|Hmore].
  - exists r, []. rewrite sendWindows_end by lia. rewrite app_nil_r.
    repeat split; auto.
    + simpl. symmetry. apply drop_all. unfold len in *. lia.
    + destruct i; discriminate.
    + destruct i; discriminate.
    + assert ((len code - p) / w <= 0) by (apply Z.div_le_upper_bound; nia). lia.
  - cbn [sendWindows]. destruct (Z.ltb_spec p (len code)); [|lia].
    pose proof (len_chunk code p w Hp Hw) as Hlen.
    set (chunk := slice code p (p + w)) in *.
    destruct (Z.le_gt_cases w (len code - p)) as [Hfull|Hshort].
    + (* a full window: the instruction byte is read *)
      rewrite Hlen, Z.min_l by lia.
      destruct (Z.leb_spec (w - w) 0); [|lia].
      unfold _readSerialBytes.
      assert (Hq : 1 <= (len code - p) / w) by (apply Z.div_le_lower_bound; lia).
      pose proof (Href 0 ltac:(lia)) as Hfirst. rewrite Z.add_0_r in Hfirst.
      cbn [serialTransmit _serialInputBuffer _promptCheckPointer set_transmitted].
      rewrite Hfirst. change (matchString CHAR_CTRL_A CHAR_CTRL_A) with true. cbv iota.
      match goal with |- context [sendWindows fuel code w (p + w) w ?s] => set (r2 := s) end.
      assert (Hdiv : (len code - (p + w)) / w = (len code - p) / w - 1).
      { replace (len code - (p + w)) with (len code - p + (-1) * w) by lia.
        rewrite Z.div_add by lia. lia. }
      destruct (fuel) as [|fuel'] eqn:Ef.
      { (* no fuel left: only possible when the text is exhausted *) lia. }
      rewrite <- Ef in *.
      destruct (IH (p + w) r2) as (r' & chunks & Hs & Ht & Hc & Hn & Hptr & Hbuf);
        try lia.
      { intros j Hj. subst r2. cbn [_serialInputBuffer _promptCheckPointer
          set_promptCheckPointer set_transmitted].
        replace (_promptCheckPointer r + 1 + j) with (_promptCheckPointer r + (j + 1)) by lia.
        apply Href. lia. }
      exists r', (chunk :: chunks). split; [exact Hs|]. split.
      { rewrite Ht. subst r2.
        cbn [transmitted set_promptCheckPointer set_transmitted serialTransmit].
        now rewrite <- app_assoc. }
      split.
      { cbn [concatAll fold_right]. fold (concatAll chunks). rewrite Hc.
        subst chunk. apply chunk_rest; lia. }
      split.
      { intros [|i] c Hi; cbn [nth_error] in Hi.
        - injection Hi as <-. rewrite Hlen. lia.
        - apply Hn in Hi. lia. }
      split.
      { rewrite Hptr. subst r2. cbn [_promptCheckPointer set_promptCheckPointer set_transmitted].
        rewrite Hdiv. lia. }
      { rewrite Hbuf. reflexivity. }
    + (* the last, shorter window: no instruction byte is read *)
      rewrite Hlen, Z.min_r by lia. rewrite Z.max_l by lia.
      destruct (Z.leb_spec (w - (len code - p)) 0); [lia|].
      destruct fuel as [|fuel']; [lia|].
      rewrite sendWindows_end by lia.
      exists (serialTransmit chunk r), [chunk]. split; [reflexivity|].
      split; [reflexivity|]. split.
      { cbn [concatAll fold_right]. rewrite append_nil_r. subst chunk.
        rewrite <- (chunk_rest code p w) by lia.
        rewrite (drop_all (Z.to_nat (p + w))) by (unfold len in *; lia).
        now rewrite append_nil_r. }
      split.
      { intros [|[|i]] c Hi; cbn [nth_error] in Hi; try discriminate.
        injection Hi as <-. rewrite Hlen. lia. }
      split.
      { cbn [_promptCheckPointer serialTransmit set_transmitted].
        rewrite Z.div_small by lia. lia. }
      { reflexivity. }
Qed.

(** An abort byte ends the loop at once. *)
Lemma sendWindows_abort (w : Z) (code : string) (fuel : nat) (r : REPL) :
  0 < w -> w <= len code ->
  slice (_serialInputBuffer r) (_promptCheckPointer r) (_promptCheckPointer r + 1)
    = CHAR_CTRL_D ->
  sendWindows (S fuel) code w 0 w r =
  Some (set_promptCheckPointer (_promptCheckPointer r + 1)
          (serialTransmit (take (Z.to_nat w) code) r)).
Proof.
  intros Hw Hfull Habort. cbn [sendWindows].
  pose proof (len_nonneg code).
  destruct (Z.ltb_spec 0 (len code)); [|lia].
  pose proof (len_chunk code 0 w ltac:(lia) Hw) as Hlen.
  rewrite Hlen, Z.min_l by lia.
  destruct (Z.leb_spec (w - w) 0); [|lia].
  unfold _readSerialBytes.
  cbn [serialTransmit _serialInputBuffer _promptCheckPointer set_transmitted].
  rewrite Habort.
  change (matchString CHAR_CTRL_D CHAR_CTRL_A) with false.
  change (matchString CHAR_CTRL_D CHAR_CTRL_D) with true. cbv iota.
  rewrite slice_nonneg by lia. rewrite drop_0. now replace (0 + w - 0) with w by lia.
Qed.

Lemma map_len_three (chunks : list string) :
  (forall i chunk, nth_error chunks i = Some chunk ->
     len chunk = Z.min 4 (10 - Z.of_nat i * 4) /\ 0 < len chunk) ->
  len (concatAll chunks) = 10 ->
  map len chunks = [4; 4; 2].
Proof.
  intros Hn Hc.
  destruct chunks as [|a [|b [|c [|d chunks]]]]; cbn [concatAll fold_right] in Hc;
    rewrite ?len_append in Hc; change (len "") with 0 in Hc.
  - lia.
  - pose proof (Hn 0%nat a eq_refl). lia.
  - pose proof (Hn 0%nat a eq_refl). pose proof (Hn 1%nat b eq_refl). lia.
  - pose proof (Hn 0%nat a eq_refl) as [Ha _]. pose proof (Hn 1%nat b eq_refl) as [Hb _].
    pose proof (Hn 2%nat c eq_refl) as [Hc' _]. simpl. rewrite Ha, Hb, Hc'. reflexivity.
  - pose proof (Hn 3%nat d eq_refl). lia.
Qed.

(** The loop of the windowed send taken by itself, for a window size
    [w > 0] and enough rounds, begun with a full window on a buffer that
    holds the answers of the device already: when each used-up window is
    answered by a refill byte, the loop transmits the text in chunks of
    [min(w, characters left)] characters, the chunks make up the text,
    none is longer than [w], and one instruction byte is read for every
    full window (for [w = 4] and 10 characters the chunks have 4, 4 and 2
    characters). When the first full window is answered by an abort byte,
    that window is all that is sent. *)
Theorem sendWindows_chunks (w : Z) (code : string) (fuel : nat) (r : REPL) :
  0 < w -> len code < Z.of_nat fuel ->
  (refilled (len code / w) r ->
   exists r' chunks,
     sendWindows fuel code w 0 w r = Some r' /\
     transmitted r' = (transmitted r ++ chunks)%list /\
     concatAll chunks = code /\
     (forall i chunk, nth_error chunks i = Some chunk ->
        len chunk = Z.min w (len code - Z.of_nat i * w) /\ 0 < len chunk <= w) /\
     _promptCheckPointer r' = _promptCheckPointer r + len code / w /\
     (w = 4 -> len code = 10 -> map len chunks = [4; 4; 2])) /\
  (w <= len code ->
   slice (_serialInputBuffer r) (_promptCheckPointer r) (_promptCheckPointer r + 1)
     = CHAR_CTRL_D ->
   exists r',
     sendWindows fuel code w 0 w r = Some r' /\
     transmitted r' = (transmitted r ++ [take (Z.to_nat w) code])%list /\
     _promptCheckPointer r' = _promptCheckPointer r + 1).
Proof.
  intros Hw Hfuel. pose proof (len_nonneg code) as Hl. split.
  - intros Href.
    destruct (sendWindows_refilled w code Hw fuel 0 r) as
      (r' & chunks & Hs & Ht & Hc & Hn & Hp & _); try lia.
    { now rewrite Z.sub_0_r. }
    rewrite Z.sub_0_r in Hp. change (Z.to_nat 0) with 0%nat in Hc. rewrite drop_0 in Hc.
    exists r', chunks. split; [exact Hs|]. split; [exact Ht|]. split; [exact Hc|].
    assert (Hn' : forall i chunk, nth_error chunks i = Some chunk ->
              len chunk = Z.min w (len code - Z.of_nat i * w) /\ 0 < len chunk <= w).
    { intros i chunk Hi. apply Hn in Hi. rewrite Z.sub_0_r in Hi. lia. }
    split; [exact Hn'|]. split.
    + rewrite Hp. assert (0 <= len code / w) by (apply Z.div_pos; lia). lia.
    + intros -> H10. apply map_len_three; [|now rewrite Hc].
      intros i chunk Hi. apply Hn' in Hi. rewrite H10 in Hi. lia.
  - intros Hfull Habort. destruct fuel as [|fuel]; [lia|].
    rewrite (sendWindows_abort w code fuel r Hw Hfull Habort).
    eexists. split; [reflexivity|]. split; reflexivity.
Qed.

Lemma twoRefills_sends :
  option_map transmitted (sendWindows 11 tenCharacters 4 0 4 twoRefills)
    = Some ["0123"; "4567"; "89"].
Proof. reflexivity. Qed.

(** Ten characters, a window of 4 and two refill bytes. *)
Lemma sendWindows_chunks_4_10 :
  exists r' chunks,
    sendWindows 11 tenCharacters 4 0 4 twoRefills = Some r' /\
    transmitted r' = (transmitted twoRefills ++ chunks)%list /\
    concatAll chunks = tenCharacters /\
    (forall i chunk, nth_error chunks i = Some chunk ->
       len chunk = Z.min 4 (len tenCharacters - Z.of_nat i * 4) /\ 0 < len chunk <= 4) /\
    _promptCheckPointer r' = _promptCheckPointer twoRefills + len tenCharacters / 4 /\
    (4 = 4 -> len tenCharacters = 10 -> map len chunks = [4; 4; 2]).
Proof.
  apply (sendWindows_chunks 4 tenCharacters 11 twoRefills).
  - lia.
  - reflexivity.
  - intros j Hj. change (len tenCharacters / 4) with 2 in Hj.
    assert (j = 0 \/ j = 1) as [-> | ->] by lia; reflexivity.
Defined.

(** C2 fails on the driver: [execRawPasteMode] transmits the whole text
    at once before its windowed loop begins, so more than a window goes
    to the device before any refill. On a new driver, with a device that
    shows the prompt and the raw banner and answers the handshake with a
    window of 4, the ten characters are transmitted whole and then whole
    again (after CTRL-C twice, CTRL-B CTRL-D CTRL-B, CTRL-A and the
    handshake), for the window is read where the prompt pointer stands,
    in the text of the prompt, and comes out as 15934. On a driver in raw
    mode with an empty buffer, where the window is read as 4 and the two
    refill bytes are there, the sizes transmitted after the handshake are
    10, 4, 4 and 2. Both runs end with CTRL-D and CTRL-B. *)
Lemma C2_whole_text_is_sent_first :
  transmitted (snd (fst (execRawPasteMode 11 tenCharacters CODE_EXECUTION_TIMEOUT
                           windowScript new_REPL)))
  = [CHAR_CTRL_C; CHAR_CTRL_C; CHAR_CTRL_B ++ CHAR_CTRL_D ++ CHAR_CTRL_B; CHAR_CTRL_A;
     CHAR_CTRL_E ++ "A" ++ CHAR_CTRL_A;
     tenCharacters; tenCharacters; CHAR_CTRL_D; CHAR_CTRL_B] /\
  windowSize ">>" = Some 15934 /\
  transmitted (snd (fst (execRawPasteMode 11 tenCharacters CODE_EXECUTION_TIMEOUT
                           refillScript (set_mode MODE_RAW new_REPL))))
  = [CHAR_CTRL_E ++ "A" ++ CHAR_CTRL_A;
     tenCharacters; "0123"; "4567"; "89"; CHAR_CTRL_D; CHAR_CTRL_B].
Proof. repeat split; vm_compute; reflexivity. Qed.

End SendFacts.


Module TokenFacts.

Import Js Re Async RawPaste JsFacts ReFacts.

(** ** The tokenizer *)

Lemma startsWith_length (p s : string) :
  startsWith p s = true -> (String.length p <= String.length s)%nat.
Proof.
  revert s. induction p as [|a p IH]; intros s H.
  - simpl. lia.
  - destruct s as [|b s]; simpl in H; [discriminate|].
    apply andb_true_iff in H. destruct H as [_ H]. apply IH in H. simpl. lia.
Qed.

Lemma startsWith_take (p s : string) :
  startsWith p s = true -> take (String.length p) s = p.
Proof.
  revert s. induction p as [|a p IH]; intros s H.
  - reflexivity.
  - destruct s as [|b s]; simpl in H; [discriminate|].
    apply andb_true_iff in H. destruct H as [Hab H].
    apply Ascii.eqb_eq in Hab. subst b. simpl. now rewrite IH.
Qed.

Lemma allCaseless_title_start : allCaseless CHAR_TITLE_START.
Proof.
  repeat split; auto using caseless_esc, caseless_rbracket, caseless_zero,
    caseless_semicolon.
Qed.

Lemma allCaseless_title_end : allCaseless CHAR_TITLE_END.
Proof. repeat split; auto using caseless_esc, caseless_backslash. Qed.

Lemma allCaseless_ctrl_d : allCaseless CHAR_CTRL_D.
Proof. repeat split; auto using caseless_eot. Qed.

(** What [tokenRegex] matches at an offset: the first of the three markers
    that the input starts with there. *)
Lemma matchAt_tokenRegex (pos : nat) (rest : string) :
  matchAt tokenRegex pos rest =
  if startsWith CHAR_TITLE_START rest
  then Some (mkFound pos (pos + 4) [(1%nat, CHAR_TITLE_START)])
  else if startsWith CHAR_TITLE_END rest
  then Some (mkFound pos (pos + 2) [(1%nat, CHAR_TITLE_END)])
  else if startsWith CHAR_CTRL_D rest
  then Some (mkFound pos (pos + 1) [(1%nat, CHAR_CTRL_D)])
  else None.
Proof.
  unfold matchAt, tokenRegex. cbn [rmatch].
  rewrite (rmatch_litI CHAR_TITLE_START) by exact allCaseless_title_start.
  rewrite (rmatch_litI CHAR_TITLE_END) by exact allCaseless_title_end.
  rewrite (rmatch_litI CHAR_CTRL_D) by exact allCaseless_ctrl_d.
  rewrite !rmatch_lit.
  destruct (startsWith CHAR_TITLE_START rest) eqn:E1.
  { replace (pos + String.length CHAR_TITLE_START - pos)%nat
      with (String.length CHAR_TITLE_START) by lia.
    now rewrite (startsWith_take _ _ E1). }
  destruct (startsWith CHAR_TITLE_END rest) eqn:E2.
  { replace (pos + String.length CHAR_TITLE_END - pos)%nat
      with (String.length CHAR_TITLE_END) by lia.
    now rewrite (startsWith_take _ _ E2). }
  destruct (startsWith CHAR_CTRL_D rest) eqn:E3.
  { replace (pos + String.length CHAR_CTRL_D - pos)%nat
      with (String.length CHAR_CTRL_D) by lia.
    now rewrite (startsWith_take _ _ E3). }
  reflexivity.
Qed.

Lemma delimiter_tokenRegex : delimiter tokenRegex.
Proof.
  intros pos rest m. rewrite matchAt_tokenRegex.
  destruct (startsWith CHAR_TITLE_START rest) eqn:E1.
  { intros [= <-]. exists 4%nat. pose proof (startsWith_length _ _ E1) as Hlen.
    change (String.length CHAR_TITLE_START) with 4%nat in Hlen.
    pose proof (startsWith_take _ _ E1) as Ht.
    change (String.length CHAR_TITLE_START) with 4%nat in Ht.
    cbn [lastIndex groups capture Nat.eqb]. rewrite Ht. repeat split; auto; lia. }
  destruct (startsWith CHAR_TITLE_END rest) eqn:E2.
  { intros [= <-]. exists 2%nat. pose proof (startsWith_length _ _ E2) as Hlen.
    change (String.length CHAR_TITLE_END) with 2%nat in Hlen.
    pose proof (startsWith_take _ _ E2) as Ht.
    change (String.length CHAR_TITLE_END) with 2%nat in Ht.
    cbn [lastIndex groups capture Nat.eqb]. rewrite Ht. repeat split; auto; lia. }
  destruct (startsWith CHAR_CTRL_D rest) eqn:E3.
  { intros [= <-]. exists 1%nat. pose proof (startsWith_length _ _ E3) as Hlen.
    change (String.length CHAR_CTRL_D) with 1%nat in Hlen.
    pose proof (startsWith_take _ _ E3) as Ht.
    change (String.length CHAR_CTRL_D) with 1%nat in Ht.
    cbn [lastIndex groups capture Nat.eqb]. rewrite Ht. repeat split; auto; lia. }
  discriminate.
Qed.

Lemma concatAll_app (l1 l2 : list string) :
  concatAll (l1 ++ l2) = concatAll l1 ++ concatAll l2.
Proof.
  induction l1 as [|x l1 IH]; simpl; [reflexivity|].
  fold (concatAll (l1 ++ l2)). fold (concatAll l1). now rewrite IH, append_assoc.
Qed.

Lemma concatAll_cons (x : string) (l : list string) :
  concatAll (x :: l) = x ++ concatAll l.
Proof. reflexivity. Qed.

(** Splitting at a delimiter loses nothing. *)
Lemma splitLoop_concat (r : regex) :
  delimiter r ->
  forall fuel cur pos rest,
    concatAll (splitLoop r fuel cur pos rest) = cur ++ rest.
Proof.
  intros Hr. induction fuel as [|fuel IH]; intros cur pos rest.
  - simpl. now rewrite append_nil_r.
  - cbn [splitLoop]. destruct rest as [|c rest].
    + simpl. now rewrite append_nil_r.
    + destruct (matchAt r pos (String c rest)) as [m|] eqn:E.
      * destruct (Hr _ _ _ E) as (n & Hn & Hl & Hg).
        destruct (Nat.eqb_spec (lastIndex m) pos); [lia|]. cbn [andb].
        rewrite Hg, Hl. rewrite concatAll_cons, concatAll_app, IH.
        replace (pos + n - pos)%nat with n by lia.
        cbn [concatAll fold_right]. rewrite append_nil_r.
        cbn [String.append]. now rewrite take_drop.
      * rewrite IH. rewrite append_assoc. reflexivity.
Qed.

Lemma split_concat (r : regex) (s : string) :
  delimiter r -> concatAll (split r s) = s.
Proof.
  intros Hr. unfold split. destruct s as [|c s].
  - destruct (matchAt r 0 "") as [m|] eqn:E; [|reflexivity].
    destruct (Hr _ _ _ E) as (n & Hn & _). simpl in Hn. lia.
  - now rewrite splitLoop_concat.
Qed.

(** [_tokenize(string).join("") === string] *)
Lemma _tokenize_concat (s : string) : concatAll (_tokenize s) = s.
Proof. apply split_concat, delimiter_tokenRegex. Qed.

(** ** The receive path *)

Lemma inputs_checkPromptBytes (bytes : string) (r : REPL) :
  inputs (checkPromptBytes bytes r) = inputs r.
Proof.
  revert r. induction bytes as [|b bytes IH]; intros r; [reflexivity|].
  cbn [checkPromptBytes].
  repeat match goal with
         | |- context [if ?c then _ else _] => destruct c
         end; rewrite ?IH; reflexivity.
Qed.

Lemma inputs_checkPrompt (r : REPL) : inputs (checkPrompt r) = inputs r.
Proof.
  unfold checkPrompt. destruct (mode_eqb (_mode r) MODE_RAWPASTE); [|reflexivity].
  now rewrite inputs_checkPromptBytes.
Qed.

Lemma inputs_getSerialCodeOutput (r : REPL) :
  inputs (fst (_getSerialCodeOutput r)) = inputs r.
Proof.
  unfold _getSerialCodeOutput.
  destruct (includes (_inputLineEnding r) _); reflexivity.
Qed.

Lemma inputs_readCodeLines (fuel : nat) (codelines : list string) (r : REPL) :
  inputs (fst (readCodeLines fuel codelines r)) = inputs r.
Proof.
  revert codelines r. induction fuel as [|fuel IH]; intros codelines r; [reflexivity|].
  cbn [readCodeLines]. pose proof (inputs_getSerialCodeOutput r) as H.
  destruct (_getSerialCodeOutput r) as [r1 codeline]. cbn [fst] in H.
  destruct (truthy codeline); [now rewrite IH | exact H].
Qed.

Lemma inputs_addCodeLine (r : REPL) (codeline : string) :
  inputs (addCodeLine r codeline) = inputs r.
Proof.
  unfold addCodeLine.
  repeat match goal with
         | |- context [if ?c then _ else _] => destruct c
         end; reflexivity.
Qed.

Lemma inputs_addCodeLines (codelines : list string) (r : REPL) :
  inputs (fold_left addCodeLine codelines r) = inputs r.
Proof.
  revert r. induction codelines as [|c codelines IH]; intros r; [reflexivity|].
  simpl. now rewrite IH, inputs_addCodeLine.
Qed.

(** A token goes to the end of the buffer, whatever else it does. *)
Lemma inputs_processToken (r : REPL) (token : string) :
  inputs (_processToken r token)
  = (_partialToken r, _tokenQueue r, _serialInputBuffer r ++ token).
Proof.
  unfold _processToken.
  match goal with
  | |- context [set_serialInputBuffer (_serialInputBuffer ?x ++ token) ?x] =>
      set (r1 := x);
      assert (H1 : inputs r1 = inputs r)
        by (subst r1;
            repeat match goal with
                   | |- context [if ?c then _ else _] => destruct c
                   end; reflexivity)
  end.
  set (r2 := set_serialInputBuffer (_serialInputBuffer r1 ++ token) r1).
  assert (H2 : inputs r2 = (_partialToken r, _tokenQueue r, _serialInputBuffer r ++ token)).
  { subst r2. unfold inputs in *. cbn [_partialToken _tokenQueue _serialInputBuffer
      set_serialInputBuffer]. now injection H1 as -> -> ->. }
  clearbody r2. clear H1 r1. rewrite <- H2.
  destruct (_pythonCodeRunning r2).
  - pose proof (inputs_checkPrompt r2) as Hc.
    destruct (negb (mode_eqb (_mode (checkPrompt r2)) MODE_RAWPASTE)).
    + match goal with
      | |- context [readCodeLines ?f ?l ?x] =>
          pose proof (inputs_readCodeLines f l x) as Hr;
          destruct (readCodeLines f l x) as [r3 codelines]
      end.
      cbn [fst] in Hr.
      match goal with |- context [if ?c then _ else _] => destruct c end;
        rewrite ?inputs_addCodeLines; congruence.
    + match goal with |- context [if ?c then _ else _] => destruct c end;
        rewrite ?inputs_addCodeLines; congruence.
  - match goal with |- context [if ?c then _ else _] => destruct c end; reflexivity.
Qed.

Lemma inputs_processTokens (tokens : list string) (r : REPL) :
  inputs (fold_left _processToken tokens r)
  = (_partialToken r, _tokenQueue r, _serialInputBuffer r ++ concatAll tokens).
Proof.
  revert r. induction tokens as [|t tokens IH]; intros r.
  - simpl. unfold inputs. now rewrite append_nil_r.
  - cbn [fold_left]. rewrite IH.
    pose proof (inputs_processToken r t) as H. unfold inputs in H.
    injection H as -> -> ->. now rewrite concatAll_cons, append_assoc.
Qed.

(** One call of [onSerialReceive]: what it carries and what it appends. *)
Lemma inputs_receive (edata : string) (r : REPL) :
  inputs (receive edata r)
  = (snd (receiveTokens edata r), [],
     _serialInputBuffer r
     ++ concatAll (_tokenQueue r ++ snd (fst (receiveTokens edata r)))).
Proof.
  unfold receive, onSerialReceive.
  destruct (receiveTokens edata r) as [[data tokens] partial]. cbn [fst snd].
  unfold _processQueuedTokens. rewrite inputs_processTokens. reflexivity.
Qed.

Lemma concatAll_removelast (l : list string) :
  l <> [] -> concatAll (removelast l) ++ last l "" = concatAll l.
Proof.
  intros H. rewrite (app_removelast_last "" H) at 3.
  rewrite concatAll_app. cbn [concatAll fold_right]. now rewrite append_nil_r.
Qed.

(** The tokens of one call and the token it carries are the token it was
    handed and its data. *)
Lemma receiveTokens_concat (edata : string) (r : REPL) :
  let '(_, tokens, partial) := receiveTokens edata r in
  concatAll tokens ++ partialText partial = carried r ++ edata.
Proof.
  unfold receiveTokens, carried.
  set (start := match _partialToken r with
                | Some p => if truthy p then (p ++ edata, None) else (edata, Some p)
                | None => (edata, None)
                end).
  assert (Hs : fst start = partialText (_partialToken r) ++ edata /\
               partialText (snd start) = "").
  { subst start. destruct (_partialToken r) as [p|]; [|now split].
    unfold truthy. destruct (String.eqb_spec p ""); [subst p|]; now split. }
  destruct start as [data partial]. cbn [fst snd] in Hs. destruct Hs as [Hd Hp].
  fold (partialText (_partialToken r)). rewrite <- Hd.
  destruct ((0 <? Z.of_nat (List.length (_tokenize data)))
            && _hasPartialToken (last (_tokenize data) "")) eqn:E.
  - cbn [partialText]. rewrite concatAll_removelast; [apply _tokenize_concat|].
    intros Hnil. rewrite Hnil in E. discriminate.
  - rewrite Hp, append_nil_r. apply _tokenize_concat.
Qed.

Lemma receiveAll_round_trip (chunks : list string) (r : REPL) :
  concatAll (fst (receiveAll chunks r)) ++ carried (snd (receiveAll chunks r))
    = carried r ++ concatAll chunks /\
  (_tokenQueue r = [] ->
   _serialInputBuffer (snd (receiveAll chunks r))
     = _serialInputBuffer r ++ concatAll (fst (receiveAll chunks r))).
Proof.
  revert r. induction chunks as [|edata chunks IH]; intros r.
  - cbn [receiveAll fst snd concatAll fold_right]. now rewrite !append_nil_r.
  - cbn [receiveAll].
    pose proof (receiveTokens_concat edata r) as Ht.
    pose proof (inputs_receive edata r) as Hi.
    destruct (receiveTokens edata r) as [[data tokens] partial].
    cbn [fst snd] in Hi. unfold inputs in Hi.
    destruct (IH (receive edata r)) as [IH1 IH2].
    destruct (receiveAll chunks (receive edata r)) as [tokens' r'].
    cbn [fst snd] in *. injection Hi as Hp Hq Hb.
    unfold carried in IH1 at 2. rewrite Hp in IH1. fold (partialText partial) in IH1.
    split.
    + rewrite concatAll_app, concatAll_cons, append_assoc, IH1.
      rewrite <- !append_assoc, Ht. reflexivity.
    + intros Hempty. rewrite (IH2 Hq), Hb, Hempty. cbn [app].
      now rewrite concatAll_app, append_assoc.
Qed.

(** C7. However a stream is cut into chunks, the tokens that the calls of
    [onSerialReceive] queue, put together, followed by the partial token
    carried at the end, are the partial token carried at the start
    followed by the chunks. With an empty queue at the start, the same
    holds for what reaches the input buffer. *)
Theorem C7_tokenizer_round_trip (chunks : list string) (r : REPL) :
  concatAll (fst (receiveAll chunks r)) ++ carried (snd (receiveAll chunks r))
    = carried r ++ concatAll chunks /\
  (_tokenQueue r = [] ->
   _serialInputBuffer (snd (receiveAll chunks r)) ++ carried (snd (receiveAll chunks r))
     = _serialInputBuffer r ++ carried r ++ concatAll chunks).
Proof.
  destruct (receiveAll_round_trip chunks r) as [H1 H2]. split; [exact H1|].
  intros Hq. rewrite (H2 Hq), append_assoc, H1. reflexivity.
Qed.

(** C7 on a title that arrives in three chunks: all of it reaches the
    buffer. *)
Lemma C7_round_trip_title :
  _serialInputBuffer (snd (receiveAll titleChunks new_REPL))
  ++ carried (snd (receiveAll titleChunks new_REPL))
  = _serialInputBuffer new_REPL ++ carried new_REPL ++ concatAll titleChunks.
Proof.
  apply (proj2 (C7_tokenizer_round_trip titleChunks new_REPL)). reflexivity.
Defined.

End TokenFacts.

Module BufferedFacts.

Import Js Re Async ErrorText Buffered JsFacts ReFacts AsyncFacts.

(** ** The cursor *)

Lemma readExactly_pointer (byteCount : Z) (b : InputBuffer) :
  _pointer (fst (readExactly byteCount b)) = _pointer b + byteCount.
Proof. reflexivity. Qed.

Lemma readExactly_buffer (byteCount : Z) (b : InputBuffer) :
  _buffer (fst (readExactly byteCount b)) = _buffer b.
Proof. reflexivity. Qed.

Lemma readExactly_length (byteCount : Z) (b : InputBuffer) :
  0 <= _pointer b -> 0 <= byteCount ->
  len (snd (readExactly byteCount b))
  = Z.min byteCount (Z.max (len (_buffer b) - _pointer b) 0).
Proof.
  intros Hp Hn. unfold readExactly. cbn [snd].
  rewrite slice_nonneg by lia. rewrite len_take, len_drop. lia.
Qed.

(** One character is read only from inside the buffer. *)
Lemma read_one (b : InputBuffer) :
  0 <= _pointer b ->
  (snd (readExactly 1 b) = "" /\ len (_buffer b) <= _pointer b) \/
  (snd (readExactly 1 b) <> "" /\ _pointer b < len (_buffer b)).
Proof.
  intros Hp. pose proof (readExactly_length 1 b Hp ltac:(lia)) as H.
  destruct (snd (readExactly 1 b)) as [|c s] eqn:E.
  - left. split; [reflexivity|]. change (len "") with 0 in H. lia.
  - right. split; [discriminate|]. rewrite len_cons in H. pose proof (len_nonneg s). lia.
Qed.

Lemma append_empty (s t : string) : s ++ t = "" -> s = "" /\ t = "".
Proof. destruct s; simpl; [auto | discriminate]. Qed.

Lemma len_zero (s : string) : len s = 0 -> s = "".
Proof. destruct s; [reflexivity|]. rewrite len_cons. pose proof (len_nonneg s). lia. Qed.

Section ReadUntil.

Variable value : regex.
Variable buffer : string.
Variable start : Z.
Hypothesis start_nonneg : 0 <= start.

Lemma readUntilLoop_reading (fuel : nat) (bytes newByte : string) (b : InputBuffer) :
  reading buffer start bytes newByte b ->
  forall b' newByte',
    readUntilLoop fuel value bytes newByte b = Some (b', newByte') ->
    exists bytes',
      reading buffer start bytes' newByte' b' /\
      (newByte' <> "" -> test value bytes' = true).
Proof.
  revert bytes newByte b. induction fuel as [|fuel IH];
    intros bytes newByte b Hr b' newByte' H; [discriminate|].
  cbn [readUntilLoop] in H.
  destruct (negb (test value bytes) && (0 <? len newByte)) eqn:Econd.
  - apply andb_true_iff in Econd. destruct Econd as [_ Hnb].
    destruct Hr as (Hbuf & Hptr & Hcase).
    assert (Hp : 0 <= _pointer b) by lia.
    pose proof (read_one b Hp) as Hone.
    destruct (readExactly 1 b) as [b1 newByte1] eqn:E1.
    apply (IH _ _ _) in H; [exact H|].
    assert (Hb1 : _buffer b1 = buffer /\ _pointer b1 = _pointer b + 1).
    { pose proof (readExactly_buffer 1 b) as X. pose proof (readExactly_pointer 1 b) as Y.
      rewrite E1 in X, Y. cbn [fst] in X, Y. split; congruence. }
    destruct Hb1 as [Hbuf1 Hptr1]. cbn [snd] in Hone.
    split; [exact Hbuf1|]. split; [lia|].
    destruct Hone as [[-> Hend] | [Hne Hin]].
    + rewrite append_nil_r. destruct Hcase as [[Hb _] | [Hb Hc]].
      * left. split; [exact Hb | intros X; now contradiction X].
      * right. split; [exact Hb | now left].
    + left. split.
      * intros X. apply append_empty in X. now destruct X.
      * intros _. rewrite Hptr1, <- Hbuf. lia.
  - injection H as <- <-. exists bytes. split; [exact Hr|].
    intros Hne. apply andb_false_iff in Econd. destruct Econd as [Hm | Hl].
    + now apply negb_false_iff in Hm.
    + destruct newByte; [now contradiction Hne|].
      rewrite len_cons in Hl. pose proof (len_nonneg newByte).
      destruct (Z.ltb_spec 0 (1 + len newByte)); [discriminate | lia].
Qed.

(** The loop comes to its end: after the character at the end of the
    buffer nothing is read, and a round that reads nothing is the last. *)
Lemma readUntilLoop_ends (fuel : nat) (bytes newByte : string) (b : InputBuffer) :
  0 <= _pointer b ->
  (newByte = "" /\ (0 < fuel)%nat) \/
  Z.max (len (_buffer b) - _pointer b) 0 + 2 <= Z.of_nat fuel ->
  readUntilLoop fuel value bytes newByte b <> None.
Proof.
  revert bytes newByte b. induction fuel as [|fuel IH]; intros bytes newByte b Hp Hf.
  { destruct Hf as [[_ Hf] | Hf]; lia. }
  cbn [readUntilLoop].
  destruct (negb (test value bytes) && (0 <? len newByte)) eqn:Econd; [|discriminate].
  apply andb_true_iff in Econd. destruct Econd as [_ Hnb].
  destruct Hf as [[-> _] | Hf]; [discriminate|].
  pose proof (read_one b Hp) as Hone.
  pose proof (readExactly_buffer 1 b) as X. pose proof (readExactly_pointer 1 b) as Y.
  destruct (readExactly 1 b) as [b1 newByte1]. cbn [fst snd] in *.
  apply IH; [lia|].
  destruct Hone as [[-> Hend] | [Hne Hin]].
  - left. split; [reflexivity | lia].
  - right. rewrite X, Y. lia.
Qed.

End ReadUntil.

(** [readUntil] returns; when it found nothing the cursor is where it was,
    and when it found the pattern the cursor is further on, inside the
    buffer. *)
Lemma readUntil_spec (value : regex) (b : InputBuffer) :
  inside b -> test value "" = false ->
  exists b' found,
    readUntil value b = Some (b', found) /\
    _buffer b' = _buffer b /\
    (found = false -> _pointer b' = _pointer b) /\
    (found = true -> _pointer b < _pointer b' <= len (_buffer b)).
Proof.
  intros [Hp Hl] Hv. unfold readUntil.
  pose proof (read_one b Hp) as Hone.
  pose proof (readExactly_buffer 1 b) as X. pose proof (readExactly_pointer 1 b) as Y.
  destruct (readExactly 1 b) as [b1 bytes]. cbn [fst snd] in *.
  set (fuel := S (S (Z.to_nat (len (_buffer b) - _pointer b)))).
  pose proof (readUntilLoop_ends value fuel bytes " " b1) as Hends.
  destruct (readUntilLoop fuel value bytes " " b1) as [[b2 newByte]|] eqn:E.
  2: { exfalso. apply Hends; [lia | | reflexivity]. right. subst fuel. rewrite X, Y. lia. }
  assert (Hr : reading (_buffer b) (_pointer b) bytes " " b1).
  { split; [exact X|]. split; [lia|].
    destruct Hone as [[-> Hend] | [Hne Hin]].
    - right. split; [reflexivity | right; lia].
    - left. split; [exact Hne | intros _; lia]. }
  destruct (readUntilLoop_reading value (_buffer b) (_pointer b) Hp fuel _ _ _ Hr _ _ E)
    as (bytes' & (Hbuf & Hptr & Hcase) & Hfound).
  destruct (Z.eqb_spec (len newByte) 0) as [Hz|Hnz].
  - eexists _, false. split; [reflexivity|]. split; [exact Hbuf|]. split; [reflexivity|].
    discriminate.
  - eexists _, true. split; [reflexivity|]. split; [exact Hbuf|]. split; [discriminate|].
    intros _. assert (Hne : newByte <> "") by (intros ->; now apply Hnz).
    split; [lia|]. destruct Hcase as [[_ Hin] | [Hb _]].
    + now apply Hin.
    + subst bytes'. rewrite (Hfound Hne) in Hv. discriminate.
Qed.

Lemma movePointer_spec (offset : Z) (b : InputBuffer) :
  inside b ->
  _buffer (movePointer offset b) = _buffer b /\
  _pointer b <= _pointer (movePointer offset b) <= len (_buffer b).
Proof.
  intros [Hp Hl]. unfold movePointer.
  destruct (Z.ltb_spec offset (_pointer b)); cbv iota; [split; [reflexivity | lia]|].
  destruct (Z.gtb_spec offset (len (_buffer b))); cbn [_buffer _pointer set_pointer];
    split; try reflexivity; lia.
Qed.





(** C4 fails on the code: [readExactly] adds the count asked for to the
    cursor, not the number of characters it returns, as
    [getRemainingBuffer] does. [readExactly(5)] on a buffer of two
    characters returns the two and leaves the cursor at 5, past the end;
    a [movePointer(7)], which is written to move the cursor forward only
    and up to the end, then moves it back to 2. *)
Lemma C4_cursor_passes_the_end :
  snd (readExactly 5 twoCharacters) = "ab" /\
  _pointer (fst (readExactly 5 twoCharacters)) = 5 /\
  len (_buffer (fst (readExactly 5 twoCharacters))) = 2 /\
  _pointer (movePointer 7 (fst (readExactly 5 twoCharacters))) = 2 /\
  _pointer (fst (getRemainingBuffer twoCharacters)) = 2.
Proof. repeat split; reflexivity. Qed.

End BufferedFacts.

Module ModeFacts.

Import Js Re Async ErrorText Buffered JsFacts ReFacts AsyncFacts.

(** ** The last occurrence of an anchor *)

Lemma findLastLoop_spec (a : regex) (s : string) (fuel : nat) (from : nat) (p : Z) :
  (String.length s + 1 < fuel + from)%nat ->
  (p = -1 /\ from = 0%nat) \/
  (0 <= p /\ from = S (Z.to_nat p) /\ occursAt a s (Z.to_nat p)) ->
  lastOccurrence a s (findLastLoop fuel a s from p).
Proof.
  revert from p. induction fuel as [|fuel IH]; intros from p Hfuel Hinv.
  - exfalso. destruct Hinv as [[_ ->] | (Hp & -> & [Hle _])]; simpl in Hfuel; lia.
  - cbn [findLastLoop]. destruct (exec a s from) as [m|] eqn:E.
    + apply exec_Some in E. destruct E as (Hfrom & Hocc & _).
      apply IH.
      * lia.
      * right. rewrite Nat2Z.id. split; [lia|]. split; [reflexivity | exact Hocc].
    + pose proof (exec_None _ _ _ E) as Hnone.
      destruct Hinv as [[-> ->] | (Hp & -> & Hocc)].
      * left. split; [reflexivity|]. intros i. apply Hnone. lia.
      * right. split; [exact Hp|]. split; [exact Hocc|]. intros i Hi. apply Hnone. lia.
Qed.

(** [_findLastRegexPosition] finds the last occurrence. *)
Lemma _findLastRegexPosition_spec (a : regex) (s : string) :
  lastOccurrence a s (_findLastRegexPosition a s).
Proof.
  unfold _findLastRegexPosition. apply findLastLoop_spec; [lia | now left].
Qed.

Lemma lastOccurrence_range (a : regex) (s : string) (p : Z) :
  lastOccurrence a s p -> -1 <= p.
Proof. intros [[-> _] | [H _]]; lia. Qed.

(** ** The three anchors start with different characters *)

Lemma startsWith_head (c : ascii) (l rest : string) :
  startsWith (String c l) rest = true -> exists rest', rest = String c rest'.
Proof.
  destruct rest as [|x rest]; simpl; [discriminate|].
  intros H. apply andb_true_iff in H. destruct H as [H _].
  apply Ascii.eqb_eq in H. subst x. now exists rest.
Qed.

Lemma occursAt_lit_head (c : ascii) (l s : string) (i : nat) :
  occursAt (lit (String c l)) s i -> startsAt c s i.
Proof.
  intros [_ H]. rewrite matchAt_lit in H.
  destruct (startsWith (String c l) (drop i s)) eqn:E; [|now contradiction H].
  now apply startsWith_head in E.
Qed.

Lemma occursAt_raw (s : string) (i : nat) :
  occursAt REGEX_PROMPT_RAW_MODE s i -> startsAt "r" s i.
Proof. apply occursAt_lit_head. Qed.

Lemma occursAt_normal (s : string) (i : nat) :
  occursAt REGEX_PROMPT_NORMAL_MODE s i -> startsAt ">" s i.
Proof. apply occursAt_lit_head. Qed.

Lemma occursAt_pre (s : string) (i : nat) :
  occursAt REGEX_PRE_PROMPT s i -> startsAt "P" s i.
Proof.
  intros [_ H]. unfold matchAt, REGEX_PRE_PROMPT in H. cbn [rmatch] in H.
  rewrite rmatch_lit in H.
  destruct (startsWith "Press any key to enter the REPL" (drop i s)) eqn:E.
  - now apply startsWith_head in E.
  - now contradiction H.
Qed.

Lemma startsAt_same (c d : ascii) (s : string) (i : nat) :
  startsAt c s i -> startsAt d s i -> c = d.
Proof. intros [r1 H1] [r2 H2]. congruence. Qed.

(** Two anchors that are not the same never have their last occurrence at
    one offset. *)
Lemma lastOccurrence_apart (a1 a2 : regex) (c1 c2 : ascii) (s : string) (p1 p2 : Z) :
  (forall i, occursAt a1 s i -> startsAt c1 s i) ->
  (forall i, occursAt a2 s i -> startsAt c2 s i) ->
  c1 <> c2 ->
  lastOccurrence a1 s p1 -> lastOccurrence a2 s p2 ->
  0 <= p1 \/ 0 <= p2 -> p1 <> p2.
Proof.
  intros H1 H2 Hc [[-> _] | (Hp1 & Ho1 & _)] [[-> _] | (Hp2 & Ho2 & _)] Hpos; try lia.
  intros <-. apply Hc. eapply startsAt_same; eauto.
Qed.

Section Detect.

Variable r : REPL.

Let buffer : string := get (_serialInputBuffer r).
Let lastRawPosition : Z := _findLastRegexPosition REGEX_PROMPT_RAW_MODE buffer.
Let lastNormalPosition : Z := _findLastRegexPosition REGEX_PROMPT_NORMAL_MODE buffer.
Let lastPrePromptPosition : Z := _findLastRegexPosition REGEX_PRE_PROMPT buffer.

Lemma raw_normal_apart :
  0 <= lastRawPosition \/ 0 <= lastNormalPosition ->
  lastRawPosition <> lastNormalPosition.
Proof.
  apply (lastOccurrence_apart REGEX_PROMPT_RAW_MODE REGEX_PROMPT_NORMAL_MODE "r" ">" buffer);
    auto using occursAt_raw, occursAt_normal, _findLastRegexPosition_spec.
  discriminate.
Qed.

Lemma raw_pre_apart :
  0 <= lastRawPosition \/ 0 <= lastPrePromptPosition ->
  lastRawPosition <> lastPrePromptPosition.
Proof.
  apply (lastOccurrence_apart REGEX_PROMPT_RAW_MODE REGEX_PRE_PROMPT "r" "P" buffer);
    auto using occursAt_raw, occursAt_pre, _findLastRegexPosition_spec.
  discriminate.
Qed.

Lemma normal_pre_apart :
  0 <= lastNormalPosition \/ 0 <= lastPrePromptPosition ->
  lastNormalPosition <> lastPrePromptPosition.
Proof.
  apply (lastOccurrence_apart REGEX_PROMPT_NORMAL_MODE REGEX_PRE_PROMPT ">" "P" buffer);
    auto using occursAt_normal, occursAt_pre, _findLastRegexPosition_spec.
  discriminate.
Qed.

(** The mode [_detectCurrentMode] leaves, by the three comparisons it
    makes. *)
Lemma _detectCurrentMode_mode :
  _mode (_detectCurrentMode r) =
  if (lastPrePromptPosition >? lastNormalPosition)
     && (lastPrePromptPosition >? lastRawPosition)
  then Some MODE_PRE_PROMPT
  else if lastRawPosition >? lastNormalPosition then Some MODE_RAW
  else if lastNormalPosition >? lastRawPosition then Some MODE_NORMAL
  else _mode r.
Proof.
  unfold _detectCurrentMode.
  fold buffer. fold lastRawPosition lastNormalPosition lastPrePromptPosition.
  destruct ((lastPrePromptPosition >? lastNormalPosition)
            && (lastPrePromptPosition >? lastRawPosition)); [reflexivity|].
  destruct (lastRawPosition >? lastNormalPosition); [reflexivity|].
  destruct (lastNormalPosition >? lastRawPosition); [reflexivity|].
  destruct (_mode r) eqn:E; cbn; now rewrite ?E.
Qed.

End Detect.

(** C3. [_detectCurrentMode] takes, for each of the three anchors, the
    offset of its last occurrence in the whole buffer. When at least one
    anchor occurs, the mode it leaves is that of the anchor whose last
    occurrence is the latest, and no two anchors tie. So when the raw
    banner and the normal prompt both occur and the pre-prompt banner is
    not later than both, the mode is Raw or Normal as the one or the other
    occurs later. *)
Theorem C3_latest_anchor_wins (r : REPL) :
  let buffer := get (_serialInputBuffer r) in
  let raw := _findLastRegexPosition REGEX_PROMPT_RAW_MODE buffer in
  let normal := _findLastRegexPosition REGEX_PROMPT_NORMAL_MODE buffer in
  let pre := _findLastRegexPosition REGEX_PRE_PROMPT buffer in
  (lastOccurrence REGEX_PROMPT_RAW_MODE buffer raw /\
   lastOccurrence REGEX_PROMPT_NORMAL_MODE buffer normal /\
   lastOccurrence REGEX_PRE_PROMPT buffer pre) /\
  (0 <= raw \/ 0 <= normal \/ 0 <= pre ->
   (_mode (_detectCurrentMode r) = Some MODE_RAW /\ normal < raw /\ pre < raw) \/
   (_mode (_detectCurrentMode r) = Some MODE_NORMAL /\ raw < normal /\ pre < normal) \/
   (_mode (_detectCurrentMode r) = Some MODE_PRE_PROMPT /\ raw < pre /\ normal < pre)) /\
  (0 <= raw -> 0 <= normal -> pre < Z.max raw normal ->
   raw <> normal /\
   _mode (_detectCurrentMode r) = Some (if normal <? raw then MODE_RAW else MODE_NORMAL)).
Proof.
  intros buffer raw normal pre.
  pose proof (_findLastRegexPosition_spec REGEX_PROMPT_RAW_MODE buffer) as Sraw.
  pose proof (_findLastRegexPosition_spec REGEX_PROMPT_NORMAL_MODE buffer) as Snormal.
  pose proof (_findLastRegexPosition_spec REGEX_PRE_PROMPT buffer) as Spre.
  fold raw in Sraw. fold normal in Snormal. fold pre in Spre.
  pose proof (lastOccurrence_range _ _ _ Sraw) as Rraw.
  pose proof (lastOccurrence_range _ _ _ Snormal) as Rnormal.
  pose proof (lastOccurrence_range _ _ _ Spre) as Rpre.
  pose proof (raw_normal_apart r) as Arn. pose proof (raw_pre_apart r) as Arp.
  pose proof (normal_pre_apart r) as Anp. cbv zeta in Arn, Arp, Anp.
  fold buffer in Arn, Arp, Anp. fold raw in Arn, Arp. fold normal in Arn, Anp.
  fold pre in Arp, Anp.
  pose proof (_detectCurrentMode_mode r) as Hmode. cbv zeta in Hmode.
  fold buffer in Hmode. fold raw normal pre in Hmode.
  split; [now repeat split|]. split.
  - intros Hsome. rewrite Hmode.
    destruct (Z.gtb_spec pre normal), (Z.gtb_spec pre raw), (Z.gtb_spec raw normal),
      (Z.gtb_spec normal raw); cbn [andb];
      first [ exfalso; lia
            | left; split; [reflexivity | lia]
            | right; left; split; [reflexivity | lia]
            | right; right; split; [reflexivity | lia] ].
  - intros Hraw Hnormal Hpre. split; [apply Arn; lia|]. rewrite Hmode.
    assert (raw <> normal) by (apply Arn; lia).
    destruct (Z.gtb_spec pre normal), (Z.gtb_spec pre raw), (Z.gtb_spec raw normal),
      (Z.gtb_spec normal raw), (Z.ltb_spec normal raw); cbn [andb];
      first [ exfalso; lia | reflexivity ].
Qed.

Lemma rawAfterNormal_positions :
  _findLastRegexPosition REGEX_PROMPT_RAW_MODE (get (_serialInputBuffer rawAfterNormal)) = 6 /\
  _findLastRegexPosition REGEX_PROMPT_NORMAL_MODE (get (_serialInputBuffer rawAfterNormal)) = 0 /\
  _findLastRegexPosition REGEX_PRE_PROMPT (get (_serialInputBuffer rawAfterNormal)) = -1.
Proof. repeat split; reflexivity. Qed.

(** C3 on a buffer with the normal prompt and then the raw banner. *)
Lemma C3_raw_after_normal :
  _mode (_detectCurrentMode rawAfterNormal) = Some MODE_RAW.
Proof.
  destruct (C3_latest_anchor_wins rawAfterNormal) as (_ & _ & H).
  destruct rawAfterNormal_positions as (Hraw & Hnormal & Hpre).
  rewrite Hraw, Hnormal, Hpre in H.
  exact (proj2 (H ltac:(lia) ltac:(lia) ltac:(lia))).
Defined.

Lemma normalAfterRaw_mode :
  _mode (_detectCurrentMode normalAfterRaw) = Some MODE_NORMAL.
Proof. reflexivity. Qed.

(** ** A wait that times out *)

Lemma silent_detectCurrentMode (r : REPL) : silent r -> silent (_detectCurrentMode r).
Proof.
  intros (Hb & Hm & Hc). unfold _detectCurrentMode, get. rewrite Hb.
  change (_findLastRegexPosition REGEX_PROMPT_RAW_MODE "") with (-1).
  change (_findLastRegexPosition REGEX_PROMPT_NORMAL_MODE "") with (-1).
  change (_findLastRegexPosition REGEX_PRE_PROMPT "") with (-1).
  change (-1 >? -1) with false. cbn [andb]. cbv iota. rewrite Hm.
  repeat split; assumption.
Qed.

Lemma silent_serialTransmit (msg : string) (r : REPL) :
  silent r -> silent (serialTransmit msg r).
Proof. intros H. exact H. Qed.

(** [_waitForModeChange] of the cursor variant logs and returns when the
    deadline passes. *)
Lemma _waitForModeChange_returns (target : mode) (keySequence : option string)
  (n : nat) (r : REPL) :
  silent r ->
  let '(sc, r', c) := _waitForModeChange target keySequence [repeat id n] r in
  c = Return tt /\ console r' = ["Awaiting mode change timed out."].
Proof.
  intros Hs. unfold _waitForModeChange, tryCatch, _timeout. cbn [hd tl].
  match goal with
  | |- context [poll ?c ?b ?s r] =>
      destruct (poll_deadline silent c b s r) as [Hs' Hd]
  end.
  - intros x (_ & Hm & _). now rewrite Hm.
  - intros x Hx. apply silent_detectCurrentMode.
    destruct keySequence as [keys|]; [destruct (truthy keys)|]; auto.
  - apply Forall_forall. intros arrive Hin. apply repeat_spec in Hin. now subst.
  - exact Hs.
  - match goal with
    | |- context [poll ?c ?b ?s r] => destruct (poll c b s r) as [r' finished]
    end.
    cbn [fst snd] in *. subst finished. cbn [step]. destruct Hs' as (_ & _ & Hc).
    split; [reflexivity|]. unfold console_log. cbn [console set_console]. now rewrite Hc.
Qed.

End ModeFacts.


Module DriverFacts.

Import Js Re Async ErrorText JsFacts ReFacts AsyncFacts.

(** ** The error decoder *)

(** C8, as amended. With the line ending of the device, carriage return
    and line feed, between and after the three lines of the traceback,
    [getErrorOutput] of either driver returns the record with file
    [main.py], line 7, type [OSError], errno 30 and message
    [Read-only filesystem]; with no error text it returns [null]. *)
Theorem C8_error_decoding (r : RawPaste.REPL) (b : Buffered.REPL) :
  RawPaste._inputLineEnding r = RawPaste.LINE_ENDING_CRLF ->
  Buffered._inputLineEnding b = Buffered.LINE_ENDING_CRLF ->
  RawPaste.getErrorOutput false
    (RawPaste.set_errorOutput (tracebackText RawPaste.LINE_ENDING_CRLF) r)
    = Return (Decoded (readOnlyError (tracebackText RawPaste.LINE_ENDING_CRLF))) /\
  RawPaste.getErrorOutput false (RawPaste.set_errorOutput "" r) = Return NoError /\
  Buffered.getErrorOutput false
    (Buffered.set_errorOutput (tracebackText Buffered.LINE_ENDING_CRLF) b)
    = Return (Decoded (readOnlyError (tracebackText Buffered.LINE_ENDING_CRLF))) /\
  Buffered.getErrorOutput false (Buffered.set_errorOutput "" b) = Return NoError.
Proof.
  intros Hr Hb. split; [|split; [reflexivity|split; [|reflexivity]]].
  - unfold RawPaste.getErrorOutput.
    cbn [RawPaste._errorOutput RawPaste._inputLineEnding RawPaste.set_errorOutput].
    rewrite Hr. reflexivity.
  - unfold Buffered.getErrorOutput, Buffered._decodeError.
    cbn [Buffered._errorOutput Buffered._inputLineEnding Buffered.set_errorOutput].
    rewrite Hb. reflexivity.
Qed.

(** C8, as amended, on two new objects. *)
Lemma C8_error_decoding_new_REPL :
  RawPaste.getErrorOutput false
    (RawPaste.set_errorOutput (tracebackText RawPaste.LINE_ENDING_CRLF) RawPaste.new_REPL)
    = Return (Decoded (readOnlyError (tracebackText RawPaste.LINE_ENDING_CRLF))) /\
  Buffered.getErrorOutput false
    (Buffered.set_errorOutput (tracebackText Buffered.LINE_ENDING_CRLF) Buffered.new_REPL)
    = Return (Decoded (readOnlyError (tracebackText Buffered.LINE_ENDING_CRLF))).
Proof.
  destruct (C8_error_decoding RawPaste.new_REPL Buffered.new_REPL eq_refl eq_refl)
    as (H1 & _ & H2 & _).
  split; [exact H1 | exact H2].
Defined.

(** C8 as stated fails: with line feeds alone the text is one line for the
    driver, which asks for the second line and throws. *)
Lemma C8_line_feed_text_throws :
  Js.split (tracebackText RawPaste.LINE_ENDING_LF)
    (RawPaste._inputLineEnding RawPaste.new_REPL)
    = [tracebackText RawPaste.LINE_ENDING_LF] /\
  RawPaste.getErrorOutput false
    (RawPaste.set_errorOutput (tracebackText RawPaste.LINE_ENDING_LF) RawPaste.new_REPL)
    = Throw "TypeError" /\
  Buffered.getErrorOutput false
    (Buffered.set_errorOutput (tracebackText Buffered.LINE_ENDING_LF) Buffered.new_REPL)
    = Throw "TypeError".
Proof. repeat split; reflexivity. Qed.

(** ** Waits that time out *)

Lemma Forall_repeat {A : Type} (P : A -> Prop) (x : A) (n : nat) :
  P x -> Forall P (repeat x n).
Proof. intros H. induction n; simpl; constructor; auto. Qed.

(** While the device is silent, the wait of [src/repl.js] for the raw
    banner finds none, and its raw-paste handshake gets no answer. *)
Lemma raw_paste_waits_throw (n : nat) :
  RawPaste._waitForModeChange RawPaste.MODE_RAW [repeat id n] RawPaste.new_REPL
    = ([], RawPaste.new_REPL, Throw "Timed Out") /\
  RawPaste.enterRawPasteMode [repeat id n]
    (RawPaste.set_mode RawPaste.MODE_RAW RawPaste.new_REPL)
    = ([],
       RawPaste.serialTransmit
         (RawPaste.CHAR_CTRL_E ++ "A" ++ RawPaste.CHAR_CTRL_A)
         (RawPaste.set_mode RawPaste.MODE_RAW RawPaste.new_REPL),
       Throw "Timed Out").
Proof.
  split.
  - unfold RawPaste._waitForModeChange, _timeout. cbn [hd tl].
    assert (H : poll (fun r => negb (RawPaste.mode_eqb (RawPaste._mode r) RawPaste.MODE_RAW))
                  RawPaste._checkForModeChange (repeat id n) RawPaste.new_REPL
                = (RawPaste.new_REPL, false)).
    { induction n as [|n IH]; [reflexivity|]. simpl repeat. cbn [poll].
      change (negb (RawPaste.mode_eqb (RawPaste._mode RawPaste.new_REPL) RawPaste.MODE_RAW))
        with true. cbv iota. exact IH. }
    now rewrite H.
  - set (r0 := RawPaste.serialTransmit
                 (RawPaste.CHAR_CTRL_E ++ "A" ++ RawPaste.CHAR_CTRL_A)
                 (RawPaste.set_mode RawPaste.MODE_RAW RawPaste.new_REPL)).
    assert (H : poll (fun r => len (RawPaste._serialInputBuffer r) <? 0 + 2) id
                  (repeat id n) r0 = (r0, false)).
    { induction n as [|n IH]; [reflexivity|]. simpl repeat. cbn [poll].
      change (len (RawPaste._serialInputBuffer r0) <? 0 + 2) with true. cbv iota.
      exact IH. }
    unfold RawPaste.enterRawPasteMode, RawPaste.enterRawMode, andThen, read, ret, step,
      _timeout.
    cbn [hd tl RawPaste._mode RawPaste.set_mode RawPaste.mode_eqb].
    cbn [RawPaste._serialInputBuffer RawPaste.set_mode RawPaste.new_REPL].
    change (len "") with 0. fold r0. now rewrite H.
Qed.

(** C9, the code at a silent device. In [src/repl.js] the wait for the raw
    banner and the wait for the answer to the raw-paste handshake end in a
    throw of [Timed Out], with nothing logged, and the throw comes out of
    [runCode]. In the cursor variant the wait for a mode logs and
    returns. *)
Theorem C9_timeout_is_thrown (n : nat) :
  snd (RawPaste._waitForModeChange RawPaste.MODE_RAW [repeat id n] RawPaste.new_REPL)
    = Throw "Timed Out" /\
  RawPaste.console
    (snd (fst (RawPaste._waitForModeChange RawPaste.MODE_RAW [repeat id n]
                 RawPaste.new_REPL))) = [] /\
  snd (RawPaste.enterRawPasteMode [repeat id n]
         (RawPaste.set_mode RawPaste.MODE_RAW RawPaste.new_REPL))
    = Throw "Timed Out" /\
  RawPaste.console
    (snd (fst (RawPaste.enterRawPasteMode [repeat id n]
                 (RawPaste.set_mode RawPaste.MODE_RAW RawPaste.new_REPL)))) = [] /\
  snd (RawPaste.runCode 10 "print(1+1)" 15000
         [repeat id 3; repeat id 3; repeat id 3] RawPaste.new_REPL)
    = Throw "Timed Out" /\
  snd (Buffered._waitForModeChange Buffered.MODE_RAW (Some Buffered.CHAR_CTRL_A)
         [repeat id n] Buffered.new_REPL) = Return tt /\
  Buffered.console
    (snd (fst (Buffered._waitForModeChange Buffered.MODE_RAW (Some Buffered.CHAR_CTRL_A)
                 [repeat id n] Buffered.new_REPL)))
    = ["Awaiting mode change timed out."].
Proof.
  destruct (raw_paste_waits_throw n) as [H1 H2]. rewrite H1, H2.
  repeat (split; [reflexivity|]).
  pose proof (ModeFacts._waitForModeChange_returns Buffered.MODE_RAW
                (Some Buffered.CHAR_CTRL_A) n Buffered.new_REPL) as H.
  destruct (Buffered._waitForModeChange _ _ _ _) as [[sc r'] c].
  apply H. repeat split; reflexivity.
Qed.

End DriverFacts.


Module SerialBytesFacts.

Import Js Re Async RawPaste Terms JsFacts.

(** [_clearSerialBytes] at an offset that is not past a pointer loses none
    of the bytes that pointer has still to read: with its default offset
    the bytes [checkPrompt] has not read are the whole buffer afterwards. *)
Theorem clearSerialBytes_keeps_unread (offset : option Z) (r : REPL) :
  0 <= clearOffset offset r ->
  let r' := _clearSerialBytes offset r in
  (clearOffset offset r <= _promptCheckPointer r -> unreadPrompt r' = unreadPrompt r) /\
  (clearOffset offset r <= _codeCheckPointer r -> unreadCode r' = unreadCode r) /\
  (offset = None -> _serialInputBuffer r' = unreadPrompt r).
Proof.
  intros Ho. cbn zeta.
  assert (K : forall p, clearOffset offset r <= p ->
            sliceFrom (_serialInputBuffer (_clearSerialBytes offset r))
              (p - Z.min (clearOffset offset r) (len (_serialInputBuffer r)))
            = sliceFrom (_serialInputBuffer r) p).
  { intros p Hp. pose proof (len_nonneg (_serialInputBuffer r)) as Hl.
    assert (B : _serialInputBuffer (_clearSerialBytes offset r)
                = drop (Z.to_nat (Z.min (clearOffset offset r) (len (_serialInputBuffer r))))
                    (_serialInputBuffer r)).
    { unfold _clearSerialBytes, clearOffset in *.
      cbn [_serialInputBuffer set_serialInputBuffer set_promptCheckPointer
           set_codeCheckPointer].
      destruct offset as [o|].
      - destruct (Z.gtb_spec o (len (_serialInputBuffer r))).
        + rewrite sliceFrom_inside by lia. f_equal. lia.
        + rewrite sliceFrom_inside by lia. f_equal. lia.
      - destruct (Z.gtb_spec (_promptCheckPointer r) (len (_serialInputBuffer r))).
        + rewrite sliceFrom_inside by lia. f_equal. lia.
        + rewrite sliceFrom_inside by lia. f_equal. lia. }
    rewrite B.
    destruct (Z.le_gt_cases p (len (_serialInputBuffer r))) as [Hin|Hout].
    - rewrite (sliceFrom_inside (_serialInputBuffer r) p) by lia.
      rewrite sliceFrom_inside by (rewrite len_drop; lia).
      rewrite drop_drop. f_equal. lia.
    - rewrite (sliceFrom_beyond (_serialInputBuffer r) p) by lia.
      apply sliceFrom_beyond. rewrite len_drop. lia. }
  assert (P : _promptCheckPointer (_clearSerialBytes offset r)
              = _promptCheckPointer r
                - Z.min (clearOffset offset r) (len (_serialInputBuffer r))
              /\ _codeCheckPointer (_clearSerialBytes offset r)
              = _codeCheckPointer r
                - Z.min (clearOffset offset r) (len (_serialInputBuffer r))).
  { unfold _clearSerialBytes, clearOffset.
    cbn [_promptCheckPointer _codeCheckPointer _serialInputBuffer set_serialInputBuffer
         set_promptCheckPointer set_codeCheckPointer].
    destruct offset as [o|].
    - destruct (Z.gtb_spec o (len (_serialInputBuffer r))); split; lia.
    - destruct (Z.gtb_spec (_promptCheckPointer r) (len (_serialInputBuffer r)));
        split; lia. }
  destruct P as [Pp Pc]. split; [|split].
  - intros Hp. unfold unreadPrompt. rewrite Pp. now apply K.
  - intros Hc. unfold unreadCode. rewrite Pc. now apply K.
  - intros ->. unfold unreadPrompt, _clearSerialBytes.
    cbn [_serialInputBuffer set_serialInputBuffer set_promptCheckPointer
         set_codeCheckPointer].
    cbn [clearOffset] in Ho.
    destruct (Z.gtb_spec (_promptCheckPointer r) (len (_serialInputBuffer r))) as [Hgt|Hle].
    + rewrite (sliceFrom_beyond _ (_promptCheckPointer r)) by lia.
      apply sliceFrom_beyond. lia.
    + reflexivity.
Qed.

(** Compaction of six characters of which four were read. *)
Lemma clearSerialBytes_keeps_ef :
  unreadPrompt (_clearSerialBytes None compactionState) = unreadPrompt compactionState /\
  _serialInputBuffer (_clearSerialBytes None compactionState) = "ef".
Proof.
  pose proof (clearSerialBytes_keeps_unread None compactionState) as H.
  cbn zeta in H. destruct H as (H1 & _ & H3); [cbn; lia|].
  split; [apply H1; cbn; lia | now rewrite H3].
Defined.

End SerialBytesFacts.

Module PromptFacts.

Import Js Re Async RawPaste Terms JsFacts RawPasteFacts TokenFacts.

Lemma REPL_fields (a b : REPL) :
  demux a = demux b ->
  inputs a = inputs b ->
  outside a = outside b ->
  _titleMode a = _titleMode b -> title a = title b -> _mode a = _mode b ->
  _codeCheckPointer a = _codeCheckPointer b ->
  _promptCheckPointer a = _promptCheckPointer b ->
  a = b.
Proof.
  destruct a, b. unfold demux, inputs, outside. cbn.
  intros H1 H2 H3 -> -> -> -> ->.
  inversion H1; inversion H2; inversion H3; subst. reflexivity.
Qed.

Lemma busy_demux (a b : REPL) : demux a = demux b -> busy a -> busy b.
Proof. unfold demux, busy. intros H. inversion H as [[H1 H2 H3 H4]]. now rewrite H3, H4. Qed.

(** One byte of the marker loop while a submission is under way: the
    branch that ends the loop at a prompt is not taken. *)
Lemma checkPromptBytes_step (b : ascii) (bytes : string) (r : REPL) :
  busy r ->
  checkPromptBytes (String b bytes) r
    = checkPromptBytes bytes (checkPromptBytes (String b "") r) /\
  busy (checkPromptBytes (String b "") r) /\
  _mode (checkPromptBytes (String b "") r) = _mode r /\
  outside (checkPromptBytes (String b "") r) = outside r /\
  _titleMode (checkPromptBytes (String b "") r) = _titleMode r /\
  title (checkPromptBytes (String b "") r) = title r /\
  _codeCheckPointer (checkPromptBytes (String b "") r) = _codeCheckPointer r /\
  _promptCheckPointer (checkPromptBytes (String b "") r) = _promptCheckPointer r /\
  forall r2, demux r2 = demux r ->
    demux (checkPromptBytes (String b "") r2) = demux (checkPromptBytes (String b "") r).
Proof.
  intros Hb.
  assert (D : forall r2, demux r2 = demux r ->
            _ctrlDCount r2 = _ctrlDCount r /\ _pythonCodeRunning r2 = _pythonCodeRunning r
            /\ _codeOutput r2 = _codeOutput r /\ _errorOutput r2 = _errorOutput r).
  { intros r2 H. unfold demux in H. inversion H. auto. }
  cbn [checkPromptBytes]. rewrite matchString_marker.
  destruct (Ascii.eqb "004" b).
  { split; [reflexivity|]. split; [destruct Hb as [Hb|Hb]; [now left | right; cbn; lia]|]. repeat split.
    intros r2 H. destruct (D r2 H) as (E1 & E2 & E3 & E4). unfold demux. cbn. congruence. }
  destruct (Z.eqb_spec (_ctrlDCount r) 1) as [E1|N1].
  { split; [reflexivity|]. split; [right; cbn; lia|]. repeat split.
    intros r2 H. destruct (D r2 H) as (F1 & F2 & F3 & F4). rewrite F1, E1. cbn.
    unfold demux. cbn. congruence. }
  destruct (Z.eqb_spec (_ctrlDCount r) 2) as [E2|N2].
  { split; [reflexivity|]. split; [right; cbn; lia|]. repeat split.
    intros r2 H. destruct (D r2 H) as (F1 & F2 & F3 & F4). rewrite F1, E2. cbn.
    unfold demux. cbn. congruence. }
  destruct (Z.gtb_spec (_ctrlDCount r) 2) as [G|NG].
  { split; [reflexivity|]. split; [right; cbn; lia|]. repeat split.
    intros r2 H. destruct (D r2 H) as (F1 & F2 & F3 & F4). rewrite F1.
    destruct (Z.eqb_spec (_ctrlDCount r) 1); [lia|].
    destruct (Z.eqb_spec (_ctrlDCount r) 2); [lia|].
    destruct (Z.gtb_spec (_ctrlDCount r) 2); [|lia].
    unfold demux. cbn. congruence. }
  destruct Hb as [Hrun|Hc]; [|lia]. rewrite Hrun. cbn [negb andb].
  split; [reflexivity|]. split; [now left|]. repeat split.
  intros r2 H. destruct (D r2 H) as (F1 & F2 & F3 & F4). rewrite F1, F2, Hrun.
  destruct (Z.eqb_spec (_ctrlDCount r) 1); [lia|].
  destruct (Z.eqb_spec (_ctrlDCount r) 2); [lia|].
  destruct (Z.gtb_spec (_ctrlDCount r) 2); [lia|].
  cbn [negb andb]. exact H.
Qed.

(** The marker loop while a submission is under way: it leaves the mode,
    the pointers and the title alone, stays under way, and what it writes
    depends on the four fields only. *)
Lemma checkPromptBytes_frame (bytes : string) (r : REPL) :
  busy r ->
  busy (checkPromptBytes bytes r) /\
  _mode (checkPromptBytes bytes r) = _mode r /\
  outside (checkPromptBytes bytes r) = outside r /\
  _titleMode (checkPromptBytes bytes r) = _titleMode r /\
  title (checkPromptBytes bytes r) = title r /\
  _codeCheckPointer (checkPromptBytes bytes r) = _codeCheckPointer r /\
  _promptCheckPointer (checkPromptBytes bytes r) = _promptCheckPointer r /\
  forall r2, demux r2 = demux r ->
    demux (checkPromptBytes bytes r2) = demux (checkPromptBytes bytes r).
Proof.
  revert r. induction bytes as [|b bytes IH]; intros r Hb.
  - repeat split; auto.
  - destruct (checkPromptBytes_step b bytes r Hb)
      as (E & Hb1 & M1 & O1 & T1 & U1 & C1 & P1 & D1).
    destruct (IH _ Hb1) as (Hb2 & M2 & O2 & T2 & U2 & C2 & P2 & D2).
    rewrite E. repeat split; try congruence.
    intros r2 H.
    destruct (checkPromptBytes_step b bytes r2 (busy_demux _ _ (eq_sym H) Hb)) as [E' _].
    rewrite E'. apply D2, D1, H.
Qed.

(** The marker loop reads the bytes one after the other: it does to
    [a ++ b] what it does to [a] and then to [b]. *)
Lemma checkPromptBytes_app (a b : string) (r : REPL) :
  busy r ->
  checkPromptBytes (a ++ b) r = checkPromptBytes b (checkPromptBytes a r).
Proof.
  revert r. induction a as [|c a IH]; intros r Hb; [reflexivity|].
  change (String c a ++ b) with (String c (a ++ b)).
  destruct (checkPromptBytes_step c (a ++ b) r Hb) as (E1 & Hb1 & _).
  destruct (checkPromptBytes_step c a r Hb) as (E2 & _).
  rewrite E1, E2. now apply IH.
Qed.

(** In raw-paste mode, while a submission is under way, [checkPrompt]
    does not depend on how the bytes of the device are cut into receive
    events: bytes [a] and then bytes [b], each followed by [checkPrompt],
    leave the object that [a ++ b] followed by one [checkPrompt] leaves,
    and the mode stays raw paste. *)
Theorem checkPrompt_chunks (a b : string) (r : REPL) :
  _mode r = MODE_RAWPASTE -> busy r ->
  0 <= _promptCheckPointer r <= len (_serialInputBuffer r) ->
  checkPrompt (arrived b (checkPrompt (arrived a r))) = checkPrompt (arrived (a ++ b) r) /\
  _mode (checkPrompt (arrived (a ++ b) r)) = MODE_RAWPASTE /\
  _promptCheckPointer (checkPrompt (arrived (a ++ b) r))
    = len (_serialInputBuffer r ++ a ++ b).
Proof.
  intros Hm Hb Hp.
  set (u := drop (Z.to_nat (_promptCheckPointer r)) (_serialInputBuffer r)).
  assert (Hu : len u = len (_serialInputBuffer r) - _promptCheckPointer r).
  { unfold u. rewrite len_drop. lia. }
  assert (S1 : forall x, sliceFrom (_serialInputBuffer r ++ x) (_promptCheckPointer r)
                         = u ++ x).
  { intros x. rewrite sliceFrom_inside by (rewrite len_append; pose proof (len_nonneg x); lia).
    unfold u. rewrite <- (take_drop (Z.to_nat (_promptCheckPointer r)) (_serialInputBuffer r))
      at 1.
    rewrite append_assoc.
    replace (Z.to_nat (_promptCheckPointer r))
      with (String.length (take (Z.to_nat (_promptCheckPointer r)) (_serialInputBuffer r)))
      at 1 by (rewrite length_take; unfold len in Hp; lia).
    apply drop_append. }
  (* the one call *)
  assert (R : checkPrompt (arrived (a ++ b) r)
              = checkPromptBytes (u ++ a ++ b)
                  (set_promptCheckPointer (len (_serialInputBuffer r ++ a ++ b))
                     (arrived (a ++ b) r))).
  { unfold checkPrompt, arrived.
    cbn [_mode _serialInputBuffer _promptCheckPointer set_serialInputBuffer]. rewrite Hm.
    cbn [mode_eqb]. rewrite S1.
    do 2 f_equal. rewrite !len_append. lia. }
  (* the first of the two calls *)
  set (r1 := checkPrompt (arrived a r)).
  assert (R1 : r1 = checkPromptBytes (u ++ a)
                      (set_promptCheckPointer (len (_serialInputBuffer r ++ a))
                         (arrived a r))).
  { unfold r1, checkPrompt, arrived.
    cbn [_mode _serialInputBuffer _promptCheckPointer set_serialInputBuffer]. rewrite Hm.
    cbn [mode_eqb]. rewrite S1.
    do 2 f_equal. rewrite !len_append. lia. }
  assert (B0 : forall x p, busy (set_promptCheckPointer p (arrived x r))).
  { intros x p. exact Hb. }
  destruct (checkPromptBytes_frame (u ++ a) _ (B0 a (len (_serialInputBuffer r ++ a))))
    as (Hb1 & M1 & O1 & T1 & U1 & C1 & P1 & D1).
  rewrite <- R1 in Hb1, M1, O1, T1, U1, C1, P1.
  pose proof (inputs_checkPromptBytes (u ++ a)
                (set_promptCheckPointer (len (_serialInputBuffer r ++ a)) (arrived a r))) as I1.
  rewrite <- R1 in I1.
  unfold arrived in M1, O1, T1, U1, C1, P1, I1.
  cbn [_mode outside _titleMode title _codeCheckPointer _promptCheckPointer inputs
       transmitted console _inputLineEnding _outputLineEnding terminalOutput
       _partialToken _tokenQueue _serialInputBuffer
       set_promptCheckPointer set_serialInputBuffer] in M1, O1, T1, U1, C1, P1, I1.
  fold (outside r) in O1.
  assert (Buf1 : _serialInputBuffer r1 = _serialInputBuffer r ++ a).
  { unfold inputs in I1. inversion I1. reflexivity. }
  (* the second *)
  assert (R2 : checkPrompt (arrived b r1)
               = checkPromptBytes b
                   (set_promptCheckPointer (len (_serialInputBuffer r ++ a ++ b))
                      (arrived b r1))).
  { unfold checkPrompt at 1. unfold arrived.
    cbn [_mode _serialInputBuffer _promptCheckPointer set_serialInputBuffer].
    rewrite M1, Hm. cbn [mode_eqb]. rewrite P1, Buf1.
    assert (S2 : sliceFrom ((_serialInputBuffer r ++ a) ++ b)
                   (len (_serialInputBuffer r ++ a)) = b).
    { rewrite sliceFrom_inside
        by (rewrite !len_append; pose proof (len_nonneg b);
            pose proof (len_nonneg (_serialInputBuffer r)); pose proof (len_nonneg a); lia).
      unfold len. rewrite Nat2Z.id. apply drop_append. }
    rewrite S2. do 2 f_equal. rewrite !len_append. lia. }
  destruct (checkPromptBytes_frame (u ++ a ++ b) _
              (B0 (a ++ b) (len (_serialInputBuffer r ++ a ++ b))))
    as (HbR & MR & OR & TR & UR & CR & PR & DR).
  assert (Hb2 : busy (set_promptCheckPointer (len (_serialInputBuffer r ++ a ++ b))
                        (arrived b r1))) by exact Hb1.
  destruct (checkPromptBytes_frame b _ Hb2) as (HbL & ML & OL & TL & UL & CL & PL & DL).
  split; [|split].
  - rewrite R2, R. apply REPL_fields.
    + replace (u ++ a ++ b) with ((u ++ a) ++ b) by apply append_assoc.
      rewrite (checkPromptBytes_app (u ++ a) b) by apply B0.
      symmetry. apply DL.
      transitivity (demux r1); [|reflexivity].
      rewrite R1.
      destruct (checkPromptBytes_frame (u ++ a) _
                  (B0 (a ++ b) (len (_serialInputBuffer r ++ a ++ b)))) as (_ & _ & _ & _ & _ & _ & _ & DA).
      symmetry. apply DA. reflexivity.
    + rewrite !inputs_checkPromptBytes. unfold inputs.
      cbn [_partialToken _tokenQueue _serialInputBuffer set_promptCheckPointer arrived
           set_serialInputBuffer].
      rewrite Buf1, append_assoc. unfold inputs in I1. inversion I1 as [[I2 I3 I4]].
      rewrite I2, I3. reflexivity.
    + rewrite OL, OR. exact O1.
    + rewrite TL, TR. exact T1.
    + rewrite UL, UR. exact U1.
    + rewrite ML, MR. exact M1.
    + rewrite CL, CR. exact C1.
    + rewrite PL, PR. reflexivity.
  - rewrite R, MR. exact Hm.
  - rewrite R, PR. reflexivity.
Qed.

(** The finalized object with its bytes cut after the output. *)
Lemma checkPrompt_chunks_hello :
  checkPrompt (arrived (CHAR_CTRL_D ++ CHAR_CTRL_D)
                 (checkPrompt (arrived (CHAR_CTRL_D ++ "hello")
                    (set_pythonCodeRunning true (set_mode MODE_RAWPASTE new_REPL)))))
  = checkPrompt helloState.
Proof.
  apply (proj1 (checkPrompt_chunks (CHAR_CTRL_D ++ "hello") (CHAR_CTRL_D ++ CHAR_CTRL_D)
                  (set_pythonCodeRunning true (set_mode MODE_RAWPASTE new_REPL))
                  eq_refl (or_introl eq_refl) ltac:(cbn; lia))).
Defined.

End PromptFacts.


Module ReceiveFacts.

Import Js Re Async RawPaste Terms Tokens JsFacts ReFacts RawPasteFacts TokenFacts.

(** ** What the receive path leaves alone *)

Section Frame.

Variable T : Type.
Variable obs : REPL -> T.

Hypothesis obs_ctrlDCount : forall v r, obs (set_ctrlDCount v r) = obs r.
Hypothesis obs_codeOutput : forall v r, obs (set_codeOutput v r) = obs r.
Hypothesis obs_errorOutput : forall v r, obs (set_errorOutput v r) = obs r.
Hypothesis obs_pythonCodeRunning : forall v r, obs (set_pythonCodeRunning v r) = obs r.
Hypothesis obs_mode : forall v r, obs (set_mode v r) = obs r.
Hypothesis obs_promptCheckPointer : forall v r, obs (set_promptCheckPointer v r) = obs r.
Hypothesis obs_codeCheckPointer : forall v r, obs (set_codeCheckPointer v r) = obs r.
Hypothesis obs_serialInputBuffer : forall v r, obs (set_serialInputBuffer v r) = obs r.

Lemma obs_checkPromptBytes (bytes : string) (r : REPL) :
  obs (checkPromptBytes bytes r) = obs r.
Proof.
  revert r. induction bytes as [|b bytes IH]; intros r; [reflexivity|].
  cbn [checkPromptBytes].
  repeat match goal with
         | |- context [if ?c then _ else _] => destruct c
         end; rewrite ?IH; auto.
Qed.

Lemma obs_checkPrompt (r : REPL) : obs (checkPrompt r) = obs r.
Proof.
  unfold checkPrompt. destruct (mode_eqb (_mode r) MODE_RAWPASTE); [|reflexivity].
  now rewrite obs_checkPromptBytes.
Qed.

Lemma obs_getSerialCodeOutput (r : REPL) : obs (fst (_getSerialCodeOutput r)) = obs r.
Proof.
  unfold _getSerialCodeOutput.
  destruct (includes (_inputLineEnding r) _); cbn [fst]; auto.
Qed.

Lemma obs_readCodeLines (fuel : nat) (codelines : list string) (r : REPL) :
  obs (fst (readCodeLines fuel codelines r)) = obs r.
Proof.
  revert codelines r. induction fuel as [|fuel IH]; intros codelines r; [reflexivity|].
  cbn [readCodeLines]. pose proof (obs_getSerialCodeOutput r) as H.
  destruct (_getSerialCodeOutput r) as [r1 codeline]. cbn [fst] in H.
  destruct (truthy codeline); [now rewrite IH | exact H].
Qed.

Lemma obs_addCodeLines (codelines : list string) (r : REPL) :
  obs (fold_left addCodeLine codelines r) = obs r.
Proof.
  revert r. induction codelines as [|c codelines IH]; intros r; [reflexivity|].
  cbn [fold_left]. rewrite IH. unfold addCodeLine.
  repeat match goal with
         | |- context [if ?c then _ else _] => destruct c
         end; auto.
Qed.

(** After its first statement, [_processToken] writes the eight fields
    above only. *)
Lemma obs_processToken (r : REPL) (token : string) :
  obs (_processToken r token) = obs (titleToken r token).
Proof.
  unfold _processToken. fold (titleToken r token).
  set (r1 := titleToken r token).
  set (r2 := set_serialInputBuffer (_serialInputBuffer r1 ++ token) r1).
  assert (H2 : obs r2 = obs r1) by apply obs_serialInputBuffer.
  clearbody r2. rewrite <- H2. clear H2. clearbody r1.
  destruct (_pythonCodeRunning r2).
  - pose proof (obs_checkPrompt r2) as Hc.
    destruct (negb (mode_eqb (_mode (checkPrompt r2)) MODE_RAWPASTE)).
    + match goal with
      | |- context [readCodeLines ?f ?l ?x] =>
          pose proof (obs_readCodeLines f l x) as Hr;
          destruct (readCodeLines f l x) as [r3 codelines]
      end.
      cbn [fst] in Hr.
      match goal with |- context [if ?c then _ else _] => destruct c end;
        rewrite ?obs_addCodeLines; congruence.
    + match goal with |- context [if ?c then _ else _] => destruct c end;
        rewrite ?obs_addCodeLines; congruence.
  - match goal with |- context [if ?c then _ else _] => destruct c end; reflexivity.
Qed.

End Frame.

Lemma outside_processTokens (tokens : list string) (r : REPL) :
  outside (fold_left _processToken tokens r) = outside r.
Proof.
  revert r. induction tokens as [|t tokens IH]; intros r; [reflexivity|].
  cbn [fold_left]. rewrite IH.
  rewrite (obs_processToken _ outside) by reflexivity.
  unfold titleToken.
  repeat match goal with
         | |- context [if ?c then _ else _] => destruct c
         end; reflexivity.
Qed.

Lemma receive_data (edata : string) (r : REPL) :
  fst (fst (receiveTokens edata r)) = carried r ++ edata.
Proof.
  unfold receiveTokens, carried.
  destruct (_partialToken r) as [p|].
  - unfold truthy. destruct (String.eqb_spec p "") as [->|N]; cbn [negb].
    + now destruct (_ && _).
    + now destruct (_ && _).
  - now destruct (_ && _).
Qed.

Lemma receive_outside (edata : string) (r : REPL) :
  outside (receive edata r) = outside r.
Proof.
  unfold receive, onSerialReceive.
  destruct (receiveTokens edata r) as [[data tokens] partial]. cbn [fst snd].
  unfold _processQueuedTokens. now rewrite outside_processTokens.
Qed.

(** [onSerialReceive] transmits nothing, logs nothing, and leaves the line
    endings and the terminal switch as they are. What it returns for the
    terminal is the data with the partial token it had kept in front, or
    the empty string when terminal output is off. *)
Theorem receive_passive (edata : string) (r : REPL) :
  outside (receive edata r) = outside r /\
  snd (onSerialReceive edata r)
    = (if terminalOutput r then carried r ++ edata else "").
Proof.
  pose proof (receive_outside edata r) as O. split; [exact O|].
  pose proof (receive_data edata r) as D.
  unfold outside in O. injection O as _ _ _ _ Ht.
  unfold receive, onSerialReceive in *.
  destruct (receiveTokens edata r) as [[data tokens] partial]. cbn [fst snd] in *.
  rewrite Ht, D. reflexivity.
Qed.

(** ** The tokenizer *)

Lemma includes_false (d t : string) :
  includes d t = false <->
  forall j : nat, (j <= String.length t)%nat -> startsWith d (drop j t) = false.
Proof.
  induction t as [|c t IH].
  - cbn [includes]. rewrite orb_false_r. split.
    + intros H j _. now destruct j.
    + intros H. apply (H 0%nat). simpl. lia.
  - cbn [includes]. rewrite orb_false_iff, IH. split.
    + intros [H0 H] [|j] Hj; [exact H0|]. simpl. apply H. simpl in Hj. lia.
    + intros H. split.
      * apply (H 0%nat). simpl. lia.
      * intros j Hj. apply (H (S j)). simpl. lia.
Qed.

Lemma startsWith_app (d a y : string) :
  startsWith d a = true -> startsWith d (a ++ y) = true.
Proof.
  revert a. induction d as [|c d IH]; intros a H; [reflexivity|].
  destruct a as [|b a]; [discriminate|]. simpl in *.
  apply andb_true_iff in H. destruct H as [-> H]. now rewrite IH.
Qed.

Lemma drop_app_le (j : nat) (a y : string) :
  (j <= String.length a)%nat -> drop j (a ++ y) = drop j a ++ y.
Proof.
  revert a. induction j as [|j IH]; intros a H; [reflexivity|].
  destruct a as [|c a]; simpl in *; [lia|]. apply IH. lia.
Qed.

(** No marker starts at the head of [rest]. *)
Lemma matchAt_tokenRegex_None (pos : nat) (rest : string) :
  matchAt tokenRegex pos rest = None <->
  startsWith CHAR_TITLE_START rest = false /\
  startsWith CHAR_TITLE_END rest = false /\
  startsWith CHAR_CTRL_D rest = false.
Proof.
  rewrite matchAt_tokenRegex.
  destruct (startsWith CHAR_TITLE_START rest);
    destruct (startsWith CHAR_TITLE_END rest);
    destruct (startsWith CHAR_CTRL_D rest); split; try discriminate; auto;
    intros (A & B & C); discriminate.
Qed.

Lemma matchAt_tokenRegex_pos (pos pos' : nat) (rest : string) :
  matchAt tokenRegex pos rest = None -> matchAt tokenRegex pos' rest = None.
Proof. rewrite !matchAt_tokenRegex_None. auto. Qed.

(** A marker at the head of the input is the match there. *)
Lemma matchAt_marker (M b : string) (pos : nat) :
  isMarker M ->
  matchAt tokenRegex pos (M ++ b)
    = Some (mkFound pos (pos + String.length M) [(1%nat, M)]).
Proof.
  intros [-> | [-> | ->]]; rewrite matchAt_tokenRegex; reflexivity.
Qed.

(** The rounds and the offset do not matter once there are enough
    rounds. *)
Lemma splitLoop_fuel (f1 : nat) :
  forall (f2 : nat) (cur : string) (p1 p2 : nat) (rest : string),
    (String.length rest < f1)%nat -> (String.length rest < f2)%nat ->
    splitLoop tokenRegex f1 cur p1 rest = splitLoop tokenRegex f2 cur p2 rest.
Proof.
  induction f1 as [|f1 IH]; intros f2 cur p1 p2 rest H1 H2; [lia|].
  destruct f2 as [|f2]; [lia|].
  cbn [splitLoop]. destruct rest as [|c rest]; [reflexivity|].
  rewrite !matchAt_tokenRegex.
  destruct (startsWith CHAR_TITLE_START (String c rest)) eqn:E1.
  { cbn [lastIndex groups capture Nat.eqb].
    destruct (Nat.eqb_spec (p1 + 4) p1); [lia|].
    destruct (Nat.eqb_spec (p2 + 4) p2); [lia|]. cbn [andb].
    replace (p1 + 4 - p1)%nat with 4%nat by lia.
    replace (p2 + 4 - p2)%nat with 4%nat by lia.
    do 2 f_equal. apply IH; rewrite length_drop; simpl in *; lia. }
  destruct (startsWith CHAR_TITLE_END (String c rest)) eqn:E2.
  { cbn [lastIndex groups capture Nat.eqb].
    destruct (Nat.eqb_spec (p1 + 2) p1); [lia|].
    destruct (Nat.eqb_spec (p2 + 2) p2); [lia|]. cbn [andb].
    replace (p1 + 2 - p1)%nat with 2%nat by lia.
    replace (p2 + 2 - p2)%nat with 2%nat by lia.
    do 2 f_equal. apply IH; rewrite length_drop; simpl in *; lia. }
  destruct (startsWith CHAR_CTRL_D (String c rest)) eqn:E3.
  { cbn [lastIndex groups capture Nat.eqb].
    destruct (Nat.eqb_spec (p1 + 1) p1); [lia|].
    destruct (Nat.eqb_spec (p2 + 1) p2); [lia|]. cbn [andb].
    replace (p1 + 1 - p1)%nat with 1%nat by lia.
    replace (p2 + 1 - p2)%nat with 1%nat by lia.
    do 2 f_equal. apply IH; rewrite length_drop; simpl in *; lia. }
  apply IH; simpl in *; lia.
Qed.

Lemma tokenize_pieces (s : string) : _tokenize s = pieces "" s.
Proof.
  unfold _tokenize, split, pieces. destruct s as [|c s].
  - rewrite matchAt_tokenRegex. reflexivity.
  - apply splitLoop_fuel; simpl; lia.
Qed.

Lemma pieces_nil (cur : string) : pieces cur "" = [cur].
Proof. reflexivity. Qed.

Lemma marker_length (M : string) : isMarker M -> (0 < String.length M)%nat.
Proof. intros [-> | [-> | ->]]; simpl; lia. Qed.

Lemma pieces_marker (M b cur : string) :
  isMarker M -> pieces cur (M ++ b) = cur :: M :: pieces "" b.
Proof.
  intros HM. unfold pieces at 1. pose proof (marker_length M HM) as HL.
  destruct M as [|c M']; [simpl in HL; lia|].
  change (String c M' ++ b) with (String c (M' ++ b)). cbn [splitLoop].
  change (String c (M' ++ b)) with (String c M' ++ b).
  set (M := String c M') in *.
  rewrite (matchAt_marker M b 0 HM). cbn [lastIndex groups capture Nat.eqb].
  destruct (Nat.eqb_spec (0 + String.length M) 0); [lia|]. cbn [andb app].
  replace (0 + String.length M - 0)%nat with (String.length M) by lia.
  rewrite drop_append. do 2 f_equal. unfold pieces.
  apply splitLoop_fuel; rewrite ?length_append; lia.
Qed.

Lemma pieces_char (c : ascii) (rest cur : string) :
  matchAt tokenRegex 0 (String c rest) = None ->
  pieces cur (String c rest) = pieces (cur ++ String c "") rest.
Proof.
  intros H. unfold pieces at 1. cbn [splitLoop]. rewrite H. unfold pieces.
  apply splitLoop_fuel; simpl; lia.
Qed.

(** The input starts with a marker, or with a character that goes to the
    piece being read. *)
Lemma head_cases (rest : string) :
  (exists M b, isMarker M /\ rest = M ++ b) \/ matchAt tokenRegex 0 rest = None.
Proof.
  destruct (matchAt tokenRegex 0 rest) as [m|] eqn:E; [left | now right].
  rewrite matchAt_tokenRegex in E.
  destruct (startsWith CHAR_TITLE_START rest) eqn:E1.
  { exists CHAR_TITLE_START, (drop 4 rest). split; [now left|].
    rewrite <- (take_drop 4 rest) at 1. f_equal. exact (startsWith_take _ _ E1). }
  destruct (startsWith CHAR_TITLE_END rest) eqn:E2.
  { exists CHAR_TITLE_END, (drop 2 rest). split; [right; now left|].
    rewrite <- (take_drop 2 rest) at 1. f_equal. exact (startsWith_take _ _ E2). }
  destruct (startsWith CHAR_CTRL_D rest) eqn:E3.
  { exists CHAR_CTRL_D, (drop 1 rest). split; [right; now right|].
    rewrite <- (take_drop 1 rest) at 1. f_equal. exact (startsWith_take _ _ E3). }
  discriminate.
Qed.

Lemma isData_intro (t : string) :
  (forall j : nat, (j <= String.length t)%nat -> matchAt tokenRegex 0 (drop j t) = None) ->
  isData t.
Proof.
  intros H. unfold isData. rewrite !includes_false.
  repeat split; intros j Hj; specialize (H j Hj);
    apply matchAt_tokenRegex_None in H; tauto.
Qed.

Lemma no_marker_prefix (a y : string) (j : nat) :
  (j <= String.length a)%nat ->
  matchAt tokenRegex 0 (drop j (a ++ y)) = None ->
  matchAt tokenRegex 0 (drop j a) = None.
Proof.
  intros Hj H. rewrite drop_app_le in H by exact Hj.
  apply matchAt_tokenRegex_None in H. destruct H as (A & B & C).
  apply matchAt_tokenRegex_None. repeat split.
  - destruct (startsWith CHAR_TITLE_START (drop j a)) eqn:E; [|reflexivity].
    now rewrite (startsWith_app _ _ y E) in A.
  - destruct (startsWith CHAR_TITLE_END (drop j a)) eqn:E; [|reflexivity].
    now rewrite (startsWith_app _ _ y E) in B.
  - destruct (startsWith CHAR_CTRL_D (drop j a)) eqn:E; [|reflexivity].
    now rewrite (startsWith_app _ _ y E) in C.
Qed.

Lemma piece_isData (cur rest : string) :
  (forall j : nat, (j < String.length cur)%nat ->
     matchAt tokenRegex 0 (drop j (cur ++ rest)) = None) ->
  isData cur.
Proof.
  intros H. apply isData_intro. intros j Hj.
  destruct (Nat.eq_dec j (String.length cur)) as [->|N].
  - rewrite drop_all by lia. rewrite matchAt_tokenRegex. reflexivity.
  - apply (no_marker_prefix cur rest); [lia|]. apply H. lia.
Qed.

Lemma pieces_alternate (n : nat) :
  forall rest cur : string,
    (String.length rest <= n)%nat ->
    (forall j : nat, (j < String.length cur)%nat ->
       matchAt tokenRegex 0 (drop j (cur ++ rest)) = None) ->
    alternate (pieces cur rest).
Proof.
  induction n as [|n IH]; intros rest cur Hn Hcur.
  - destruct rest; [|simpl in Hn; lia]. rewrite pieces_nil. cbn [alternate].
    split; [|exact I]. now apply (piece_isData cur "").
  - destruct rest as [|c rest].
    { rewrite pieces_nil. cbn [alternate]. split; [|exact I].
      now apply (piece_isData cur ""). }
    destruct (head_cases (String c rest)) as [(M & b & HM & E)|E].
    + rewrite E, pieces_marker by exact HM. cbn [alternate].
      split; [|split; [exact HM|]].
      * apply (piece_isData cur (String c rest)). exact Hcur.
      * apply IH.
        -- pose proof (marker_length M HM).
           assert (String.length (String c rest) = String.length (M ++ b)) by now rewrite E.
           rewrite length_append in *. simpl in *. lia.
        -- simpl. intros j Hj. lia.
    + rewrite pieces_char by exact E. apply IH; [simpl in Hn; lia|].
      intros j Hj. rewrite append_assoc. cbn [String.append].
      rewrite length_append in Hj. simpl in Hj.
      destruct (Nat.eq_dec j (String.length cur)) as [->|N].
      * rewrite drop_append. exact E.
      * apply Hcur. lia.
Qed.

(** [_tokenize] cuts its input at every marker: it returns data, marker,
    data, ..., data, where no marker occurs in a data token and every
    marker token is one of ESC ] 0 ;, ESC \ and EOT; the tokens put
    together are the input. *)
Theorem tokenize_alternate (s : string) :
  alternate (_tokenize s) /\ concatAll (_tokenize s) = s.
Proof.
  split; [|apply _tokenize_concat].
  rewrite tokenize_pieces. apply (pieces_alternate (String.length s)); [lia|].
  simpl. intros j Hj. lia.
Qed.

(** ** Titles *)

(** A marker is not matched across the place where another marker
    starts: the markers begin with ESC or EOT and go on with neither. *)
Lemma no_marker_before_marker (c : ascii) (a M b : string) :
  isMarker M ->
  matchAt tokenRegex 0 (String c a) = None ->
  matchAt tokenRegex 0 (String c a ++ M ++ b) = None.
Proof.
  intros HM H. rewrite matchAt_tokenRegex_None in *. destruct H as (A & B & C).
  assert (K : forall d, startsWith d (String c a) = false ->
                d = CHAR_TITLE_START \/ d = CHAR_TITLE_END \/ d = CHAR_CTRL_D ->
                startsWith d (String c a ++ M ++ b) = false).
  { intros d Hd Hcase.
    destruct HM as [-> | [-> | ->]]; destruct Hcase as [-> | [-> | ->]];
      destruct a as [|c2 [|c3 [|c4 a]]]; cbn in Hd |- *;
      repeat match goal with
             | |- context [Ascii.eqb ?x ?y] => destruct (Ascii.eqb x y)
             end; cbn in Hd |- *; congruence. }
  repeat split; apply K; auto.
Qed.

(** The tokens of an input with a marker in it are the tokens of what is
    before the marker, the marker, and the tokens of what is after it. *)
Lemma pieces_app_marker (M b : string) :
  isMarker M ->
  forall (n : nat) (a cur : string),
    (String.length a <= n)%nat ->
    pieces cur (a ++ M ++ b) = (pieces cur a ++ M :: pieces "" b)%list.
Proof.
  intros HM. induction n as [|n IH]; intros a cur Hn.
  - destruct a; [|simpl in Hn; lia]. cbn [String.append]. now rewrite pieces_marker.
  - destruct a as [|c a]; [cbn [String.append]; now rewrite pieces_marker|].
    destruct (head_cases (String c a)) as [(M' & a' & HM' & E)|E].
    + rewrite E, append_assoc.
      rewrite (pieces_marker M' (a' ++ M ++ b)), (pieces_marker M' a') by exact HM'.
      rewrite IH; [reflexivity|].
      pose proof (marker_length M' HM').
      assert (String.length (String c a) = String.length (M' ++ a')) by now rewrite E.
      rewrite length_append in *. simpl in *. lia.
    + rewrite (pieces_char c a) by exact E.
      change (String c a ++ M ++ b) with (String c (a ++ M ++ b)).
      rewrite pieces_char by (apply (no_marker_before_marker c a M b HM E)).
      apply IH. simpl in Hn. lia.
Qed.

Lemma tokenize_app_marker (a M b : string) :
  isMarker M ->
  _tokenize (a ++ M ++ b) = (_tokenize a ++ M :: _tokenize b)%list.
Proof.
  intros HM. rewrite !tokenize_pieces. now apply (pieces_app_marker M b HM (String.length a)).
Qed.

Lemma splitLoop_not_nil (r : regex) (fuel : nat) :
  forall (cur : string) (pos : nat) (rest : string), splitLoop r fuel cur pos rest <> [].
Proof.
  induction fuel as [|fuel IH]; intros cur pos rest; [discriminate|].
  cbn [splitLoop]. destruct rest as [|c rest]; [discriminate|].
  destruct (matchAt r pos (String c rest)) as [m|]; [|apply IH].
  destruct (_ && _); [apply IH | discriminate].
Qed.

Lemma tokenize_not_nil (s : string) : _tokenize s <> [].
Proof. rewrite tokenize_pieces. apply splitLoop_not_nil. Qed.

Lemma includes_char_app (c : ascii) (a b : string) :
  includes (String c "") (a ++ b)
    = includes (String c "") a || includes (String c "") b.
Proof.
  induction a as [|x a IH].
  - destruct b; reflexivity.
  - cbn [String.append includes startsWith]. rewrite IH.
    now rewrite !andb_true_r, orb_assoc.
Qed.

Lemma includes_char_concatAll (c : ascii) (l : list string) :
  includes (String c "") (concatAll l) = false ->
  forall t, In t l -> includes (String c "") t = false.
Proof.
  induction l as [|x l IH]; intros H t Ht; [destruct Ht|].
  rewrite concatAll_cons, includes_char_app in H. apply orb_false_iff in H.
  destruct H as [Hx Hl]. destruct Ht as [<-|Ht]; [exact Hx | now apply IH].
Qed.

(** The tokens of a text without ESC are none of the title markers. *)
Lemma tokens_without_ESC (x t : string) :
  includes ESC x = false -> In t (_tokenize x) ->
  t <> CHAR_TITLE_START /\ t <> CHAR_TITLE_END.
Proof.
  intros Hx Ht.
  assert (H : includes ESC t = false).
  { apply (includes_char_concatAll "027" (_tokenize x)); [|exact Ht].
    now rewrite _tokenize_concat. }
  split; intros ->; discriminate H.
Qed.

Lemma title_processToken (r : REPL) (token : string) :
  (_titleMode (_processToken r token), title (_processToken r token))
  = if String.eqb token CHAR_TITLE_START then (true, "")
    else if String.eqb token CHAR_TITLE_END then (false, title r)
    else if _titleMode r then (true, title r ++ token)
    else (false, title r).
Proof.
  rewrite (obs_processToken _ (fun r => (_titleMode r, title r))) by reflexivity.
  unfold titleToken.
  destruct (String.eqb token CHAR_TITLE_START); [reflexivity|].
  destruct (String.eqb token CHAR_TITLE_END); [reflexivity|].
  destruct (_titleMode r) eqn:E; cbn; now rewrite ?E.
Qed.

(** Between the markers of a title, every token goes to the title. *)
Lemma title_tokens_on (tokens : list string) :
  (forall t, In t tokens -> t <> CHAR_TITLE_START /\ t <> CHAR_TITLE_END) ->
  forall r, _titleMode r = true ->
    _titleMode (fold_left _processToken tokens r) = true /\
    title (fold_left _processToken tokens r) = title r ++ concatAll tokens.
Proof.
  induction tokens as [|t tokens IH]; intros H r Hr.
  - cbn. now rewrite append_nil_r.
  - cbn [fold_left]. destruct (H t (or_introl eq_refl)) as [N1 N2].
    pose proof (title_processToken r t) as P.
    destruct (String.eqb_spec t CHAR_TITLE_START); [contradiction|].
    destruct (String.eqb_spec t CHAR_TITLE_END); [contradiction|].
    rewrite Hr in P. injection P as P1 P2.
    destruct (IH (fun t' Ht' => H t' (or_intror Ht')) _ P1) as [I1 I2].
    split; [exact I1|]. rewrite I2, P2, concatAll_cons. apply append_assoc.
Qed.

(** Outside a title, tokens that do not start one leave the title. *)
Lemma title_tokens_off (tokens : list string) :
  (forall t, In t tokens -> t <> CHAR_TITLE_START) ->
  forall r, _titleMode r = false ->
    _titleMode (fold_left _processToken tokens r) = false /\
    title (fold_left _processToken tokens r) = title r.
Proof.
  induction tokens as [|t tokens IH]; intros H r Hr; [now split|].
  cbn [fold_left]. pose proof (H t (or_introl eq_refl)) as N1.
  pose proof (title_processToken r t) as P.
  destruct (String.eqb_spec t CHAR_TITLE_START); [contradiction|].
  rewrite Hr in P.
  assert (P' : _titleMode (_processToken r t) = false /\ title (_processToken r t) = title r)
    by (destruct (String.eqb t CHAR_TITLE_END); injection P as P1 P2; auto).
  destruct P' as [P1 P2].
  destruct (IH (fun t' Ht' => H t' (or_intror Ht')) _ P1) as [I1 I2].
  split; [exact I1 | congruence].
Qed.

(** A title that arrives whole in one receive event, between its two
    markers, is the title afterwards, whatever came before it in the
    event, in the queue or in the partial token kept: the text between the
    markers and what follows the title hold no ESC. *)
Theorem title_received (before text after : string) (r : REPL) :
  includes ESC text = false ->
  includes ESC after = false ->
  let r' := receive (before ++ CHAR_TITLE_START ++ text ++ CHAR_TITLE_END ++ after) r in
  title r' = text /\ _titleMode r' = false.
Proof.
  intros Ht Ha. cbn zeta.
  set (edata := before ++ CHAR_TITLE_START ++ text ++ CHAR_TITLE_END ++ after).
  assert (HS : isMarker CHAR_TITLE_START) by now left.
  assert (HE : isMarker CHAR_TITLE_END) by (right; now left).
  (* the tokens of the event *)
  assert (Tk : exists L1 L3,
             snd (fst (receiveTokens edata r))
             = (L1 ++ CHAR_TITLE_START :: _tokenize text ++ CHAR_TITLE_END :: L3)%list
             /\ forall t, In t L3 -> t <> CHAR_TITLE_START).
  { assert (Tk0 : forall p,
              _tokenize (p ++ edata)
              = (_tokenize (p ++ before) ++ CHAR_TITLE_START :: _tokenize text
                 ++ CHAR_TITLE_END :: _tokenize after)%list).
    { intros p. unfold edata. rewrite <- append_assoc.
      rewrite (tokenize_app_marker _ _ _ HS). rewrite (tokenize_app_marker _ _ _ HE).
      reflexivity. }
    assert (Cut : forall p,
              (p ++ edata = p ++ edata) ->
              exists L1 L3,
                (if (0 <? Z.of_nat (List.length (_tokenize (p ++ edata))))
                    && _hasPartialToken (last (_tokenize (p ++ edata)) "")
                 then removelast (_tokenize (p ++ edata))
                 else _tokenize (p ++ edata))
                = (L1 ++ CHAR_TITLE_START :: _tokenize text ++ CHAR_TITLE_END :: L3)%list
                /\ forall t, In t L3 -> t <> CHAR_TITLE_START).
    { intros p _. rewrite (Tk0 p).
      destruct (_ && _).
      - exists (_tokenize (p ++ before)), (removelast (_tokenize after)). split.
        + rewrite removelast_app by discriminate.
          change (CHAR_TITLE_START :: _tokenize text ++ CHAR_TITLE_END :: _tokenize after)%list
            with ([CHAR_TITLE_START] ++ _tokenize text ++ [CHAR_TITLE_END] ++ _tokenize after)%list.
          rewrite removelast_app by (intros E; apply app_eq_nil in E; destruct E as [_ E];
                                     discriminate E).
          rewrite removelast_app by discriminate.
          rewrite removelast_app by apply tokenize_not_nil.
          reflexivity.
        + intros t Hin.
          assert (In t (_tokenize after)).
          { pose proof (tokenize_not_nil after) as NN.
            rewrite (app_removelast_last "" NN). apply in_or_app. now left. }
          now apply (tokens_without_ESC after).
      - exists (_tokenize (p ++ before)), (_tokenize after). split; [reflexivity|].
        intros t Hin. now apply (tokens_without_ESC after). }
    unfold receiveTokens. destruct (_partialToken r) as [p|].
    - destruct (truthy p).
      + destruct (Cut p eq_refl) as (L1 & L3 & E & H3). exists L1, L3.
        split; [|exact H3]. rewrite <- E. now destruct (_ && _).
      + destruct (Cut "" eq_refl) as (L1 & L3 & E & H3). exists L1, L3.
        split; [|exact H3]. rewrite <- E. cbn [String.append]. now destruct (_ && _).
    - destruct (Cut "" eq_refl) as (L1 & L3 & E & H3). exists L1, L3.
      split; [|exact H3]. rewrite <- E. cbn [String.append]. now destruct (_ && _). }
  destruct Tk as (L1 & L3 & Tk & H3).
  unfold receive, onSerialReceive.
  destruct (receiveTokens edata r) as [[data tokens] partial]. cbn [fst snd] in Tk |- *.
  unfold _processQueuedTokens.
  cbn [_tokenQueue set_tokenQueue set_partialToken]. subst tokens.
  rewrite !fold_left_app. cbn [fold_left]. rewrite !fold_left_app. cbn [fold_left].
  match goal with
  | |- context [_processToken ?x CHAR_TITLE_START] => set (r0 := x)
  end.
  pose proof (title_processToken r0 CHAR_TITLE_START) as P0.
  rewrite String.eqb_refl in P0. injection P0 as M0 T0.
  destruct (title_tokens_on (_tokenize text) (fun t => tokens_without_ESC text t Ht) _ M0) as [M1 T1].
  rewrite T0, _tokenize_concat in T1. cbn [String.append] in T1.
  match goal with
  | |- context [_processToken ?x CHAR_TITLE_END] => set (r1 := x) in *
  end.
  pose proof (title_processToken r1 CHAR_TITLE_END) as P2.
  change (String.eqb CHAR_TITLE_END CHAR_TITLE_START) with false in P2.
  rewrite String.eqb_refl in P2. injection P2 as M2 T2.
  destruct (title_tokens_off L3 H3 _ M2) as [M3 T3].
  split; [congruence | exact M3].
Qed.

(** The status bar of a board, after a line of output and before the
    prompt. *)
Lemma title_received_status :
  title (receive ("ok" ++ CHAR_TITLE_START ++ "Done | REPL | 9.0.0" ++ CHAR_TITLE_END
                  ++ ">>> ") new_REPL)
    = "Done | REPL | 9.0.0".
Proof.
  apply (proj1 (title_received "ok" "Done | REPL | 9.0.0" ">>> " new_REPL eq_refl eq_refl)).
Defined.

End ReceiveFacts.


Module PasteFacts.

Import Js Re Async RawPaste Terms Tokens Scripts JsFacts ReFacts AsyncFacts RawPasteFacts
  TokenFacts ReceiveFacts.

(** ** What a submission transmits *)

Lemma take_add (n m : nat) (s : string) :
  take (n + m) s = take n s ++ take m (drop n s).
Proof.
  revert s. induction n as [|n IH]; intros s; [reflexivity|].
  destruct s as [|c s]; [now destruct m|]. simpl. now rewrite IH.
Qed.

Lemma windowSize_nonneg (bytes : string) (w : Z) : windowSize bytes = Some w -> 0 <= w.
Proof.
  unfold windowSize. destruct (charCodeAt bytes 0) as [b0|] eqn:E0; [|discriminate].
  set (b1 := match charCodeAt bytes 1 with Some b => b | None => 0 end).
  intros H. assert (E : w = b0 + Z.shiftl b1 8) by congruence. clear H.
  assert (H0 : 0 <= b0).
  { unfold charCodeAt in E0. destruct (String.get 0 bytes); [|discriminate].
    assert (b0 = Z.of_nat (nat_of_ascii a)) by congruence. lia. }
  assert (H1 : 0 <= b1).
  { subst b1. unfold charCodeAt. destruct (String.get 1 bytes); lia. }
  rewrite E, Z.shiftl_mul_pow2 by lia. nia.
Qed.

(** The chunks of the loop are cut from the text one after the other:
    with [codePointer] characters sent before, what was sent is a prefix
    of the text at every round. *)
Lemma sendWindows_prefix (code : string) (w : Z) :
  0 <= w ->
  forall (fuel : nat) (p remaining : Z) (r r' : REPL),
    0 <= p -> 0 <= remaining ->
    sendWindows fuel code w p remaining r = Some r' ->
    exists (chunks : list string) (p' : Z),
      0 <= p' /\
      transmitted r' = (transmitted r ++ chunks)%list /\
      take (Z.to_nat p) code ++ concatAll chunks = take (Z.to_nat p') code.
Proof.
  intros Hw. induction fuel as [|fuel IH]; intros p remaining r r' Hp Hrem H; [discriminate|].
  cbn [sendWindows] in H.
  destruct (Z.ltb_spec p (len code)) as [Hlt|Hge].
  2: { injection H as <-. exists [], p. split; [exact Hp|]. split.
       - now rewrite app_nil_r.
       - cbn. now rewrite append_nil_r. }
  set (chunk := slice code p (p + remaining)) in *.
  assert (Hchunk : take (Z.to_nat p) code ++ chunk = take (Z.to_nat (p + remaining)) code).
  { unfold chunk. rewrite slice_nonneg by lia.
    replace (p + remaining - p) with remaining by lia.
    replace (Z.to_nat (p + remaining)) with (Z.to_nat p + Z.to_nat remaining)%nat by lia.
    now rewrite take_add. }
  assert (Hlen : len chunk <= remaining).
  { unfold chunk. rewrite slice_nonneg by lia. rewrite len_take. lia. }
  assert (Step : forall rem2 r2,
            0 <= rem2 ->
            transmitted r2 = (transmitted r ++ [chunk])%list ->
            sendWindows fuel code w (p + remaining) rem2 r2 = Some r' ->
            exists chunks p',
              0 <= p' /\ transmitted r' = (transmitted r ++ chunks)%list /\
              take (Z.to_nat p) code ++ concatAll chunks = take (Z.to_nat p') code).
  { intros rem2 r2 H2 Ht Hs.
    destruct (IH (p + remaining) rem2 r2 r' ltac:(lia) H2 Hs) as (chunks & p' & Hp' & Ht' & Hc).
    exists (chunk :: chunks), p'. split; [exact Hp'|]. split.
    - rewrite Ht', Ht, <- app_assoc. reflexivity.
    - rewrite concatAll_cons, <- append_assoc, Hchunk. exact Hc. }
  destruct (Z.leb_spec (remaining - len chunk) 0) as [Hz|Hnz].
  - cbn [_readSerialBytes] in H.
    destruct (matchString _ CHAR_CTRL_A).
    + eapply (Step w); [exact Hw | | exact H]. reflexivity.
    + destruct (matchString _ CHAR_CTRL_D).
      * injection H as <-. exists [chunk], (p + remaining). split; [lia|]. split.
        -- reflexivity.
        -- cbn. rewrite append_nil_r. exact Hchunk.
      * eapply (Step (remaining - len chunk)); [lia | | exact H]. reflexivity.
  - eapply (Step (remaining - len chunk)); [lia | | exact H]. reflexivity.
Qed.

Lemma poll_transmitted (cond : REPL -> bool) (sleeps : list (REPL -> REPL)) :
  Forall quiet sleeps ->
  forall r, transmitted (fst (poll cond id sleeps r)) = transmitted r.
Proof.
  induction 1 as [|arrive sleeps Ha Hs IH]; intros r; cbn [poll].
  - now destruct (cond r).
  - destruct (cond r); [|reflexivity]. rewrite IH. apply Ha.
Qed.

Lemma waitForCodeExecution_transmitted (codeTimeoutMs : Z) (sc : script REPL) (r : REPL) :
  Forall quiet (hd [] sc) ->
  transmitted (snd (fst (_waitForCodeExecution codeTimeoutMs sc r))) = transmitted r.
Proof.
  intros Hq. unfold _waitForCodeExecution, tryCatch, _timeout, forever, step.
  pose proof (poll_transmitted _pythonCodeRunning (hd [] sc) Hq r) as P.
  destruct (negb (codeTimeoutMs =? 0));
    destruct (poll _pythonCodeRunning id (hd [] sc) r) as [r1 [|]]; cbn in *; exact P.
Qed.

Lemma waitForCodeExecution_script (codeTimeoutMs : Z) (sc : script REPL) (r : REPL) :
  fst (fst (_waitForCodeExecution codeTimeoutMs sc r)) = tl sc.
Proof.
  unfold _waitForCodeExecution, tryCatch, _timeout, forever, step.
  destruct (negb (codeTimeoutMs =? 0));
    destruct (poll _pythonCodeRunning id (hd [] sc) r) as [r1 [|]]; reflexivity.
Qed.

(** On a call that begins with no loop of [interruptCode] running and
    leaves none behind (the prompt came, or the driver was in raw mode):
    whenever [execRawPasteMode] returns a string, the handshake had
    succeeded, and from then on the driver transmitted the whole text at
    once, then the chunks of the windowed loop, which make up a prefix of
    the same text, then EOT, and after the wait CTRL-B: the text goes to
    the device twice. *)
Theorem execRawPasteMode_transmits (fuel : nat) (code : string) (codeTimeoutMs : Z)
  (sc sc' : script REPL) (r r' : REPL) (result : string) :
  promptCame sc r ->
  execRawPasteMode fuel code codeTimeoutMs sc r = (sc', r', Return (Some result)) ->
  exists (sc1 : script REPL) (r1 : REPL) (chunks : list string) (rest : string),
    enterRawPasteMode sc r = (sc1, r1, Return (Some true)) /\
    code = concatAll chunks ++ rest /\
    (Forall quiet (hd [] sc1) ->
     transmitted r'
     = (transmitted r1 ++ code :: chunks ++ [CHAR_CTRL_D; CHAR_CTRL_B])%list).
Proof.
  unfold execRawPasteMode. intros _ H.
  apply andThen_Return in H. destruct H as (success & sc1 & r1 & He & H).
  destruct success as [[|]|].
  2, 3: apply andThen_Return in H; destruct H as (? & ? & ? & _ & H);
        apply ret_Return in H; destruct H as (_ & _ & H); discriminate.
  exists sc1, r1.
  unfold andThen at 1 in H. unfold step at 1 in H.
  unfold andThen at 1 in H. unfold call at 1 in H.
  set (ra := serialTransmit code r1) in *.
  destruct (_readSerialBytes 2 None ra) as [rb bytes] eqn:Eb.
  unfold andThen at 1 in H. unfold call at 1 in H.
  destruct (_readSerialBytes 1 None rb) as [rc skipped] eqn:Ec.
  unfold andThen at 1 in H. unfold step at 1 in H.
  set (rd := _clearSerialBytes None rc) in *.
  assert (Td : transmitted rd = (transmitted r1 ++ [code])%list).
  { unfold _readSerialBytes in Eb, Ec. injection Eb as <- _. injection Ec as <- _.
    reflexivity. }
  clearbody rd. clear Eb Ec.
  apply andThen_Return in H. destruct H as (u & sc2 & r2 & Hsend & H).
  assert (Send : exists chunks rest,
             sc2 = sc1 /\ code = concatAll chunks ++ rest /\
             transmitted r2 = (transmitted rd ++ chunks)%list).
  { unfold sendCode in Hsend. destruct (windowSize bytes) as [w|] eqn:Ew.
    - destruct (sendWindows fuel code w 0 w rd) as [rs|] eqn:Es; [|discriminate].
      injection Hsend as <- <- _.
      pose proof (windowSize_nonneg _ _ Ew) as Hw.
      destruct (sendWindows_prefix code w Hw fuel 0 w rd rs ltac:(lia) Hw Es)
        as (chunks & p' & Hp' & Ht & Hc).
      exists chunks, (drop (Z.to_nat p') code). split; [reflexivity|]. split.
      + cbn [Z.to_nat take String.append] in Hc. rewrite Hc. symmetry. apply take_drop.
      + exact Ht.
    - destruct (0 <? len code); injection Hsend as <- <- _.
      + exists [""], code. repeat split.
      + exists [], code. repeat split. now rewrite app_nil_r. }
  destruct Send as (chunks & rest & -> & Hcode & T2).
  exists chunks, rest. split; [exact He|]. split; [exact Hcode|]. intros Hq.
  unfold andThen at 1 in H. unfold step at 1 in H.
  unfold andThen at 1 in H. unfold step at 1 in H.
  unfold andThen at 1 in H. unfold step at 1 in H.
  unfold andThen at 1 in H. unfold step at 1 in H.
  unfold andThen at 1 in H. unfold step at 1 in H.
  match type of H with
  | ?f sc1 ?x = _ => set (re := x) in *
  end.
  assert (Te : transmitted re = (transmitted r2 ++ [CHAR_CTRL_D])%list) by reflexivity.
  clearbody re.
  pose proof (waitForCodeExecution_transmitted codeTimeoutMs sc1 re Hq) as Tw.
  apply andThen_Return in H. destruct H as (u2 & sc3 & r3 & Hwait & H).
  rewrite Hwait in Tw. cbn [fst snd] in Tw.
  unfold andThen at 1 in H. unfold step at 1 in H.
  unfold andThen at 1 in H. unfold step at 1 in H.
  unfold andThen at 1 in H. unfold read at 1 in H.
  unfold ret in H. injection H as _ <- _.
  unfold exitRawMode, serialTransmit.
  cbn [transmitted set_mode set_transmitted].
  change (transmitted (_clearSerialBytes None r3)) with (transmitted r3).
  rewrite Tw, Te, T2, Td. rewrite <- !app_assoc. reflexivity.
Qed.

Abbreviation pasteRun :=
  (execRawPasteMode 100 ("print(1+1)" ++ LINE_ENDING_LF) 15000 pasteScript new_REPL).

Lemma pasteRun_returns : snd pasteRun = Return (Some LINE_ENDING_LF).
Proof. reflexivity. Qed.

(** The run on the device with raw paste, which shows the prompt. *)
Lemma execRawPasteMode_transmits_print :
  exists (sc1 : script REPL) (r1 : REPL) (chunks : list string) (rest : string),
    enterRawPasteMode pasteScript new_REPL = (sc1, r1, Return (Some true)) /\
    "print(1+1)" ++ LINE_ENDING_LF = concatAll chunks ++ rest /\
    (Forall quiet (hd [] sc1) ->
     transmitted (snd (fst pasteRun))
     = (transmitted r1 ++ ("print(1+1)" ++ LINE_ENDING_LF)%string :: chunks
        ++ [CHAR_CTRL_D; CHAR_CTRL_B])%list).
Proof.
  refine (execRawPasteMode_transmits 100 ("print(1+1)" ++ LINE_ENDING_LF) 15000 pasteScript
            (fst (fst pasteRun)) new_REPL (snd (fst pasteRun)) LINE_ENDING_LF _ _).
  - right. reflexivity.
  - rewrite <- pasteRun_returns. now destruct pasteRun as [[sc r] c].
Defined.

(** ** Scripts *)

Section Tails.

Context {St : Type}.

Lemma tails_ret {A : Type} (a : A) : tails (@ret St A a).
Proof. intros sc s. now exists 0%nat. Qed.

Lemma tails_step (f : St -> St) : tails (step f).
Proof. intros sc s. now exists 0%nat. Qed.

Lemma tails_read {A : Type} (f : St -> A) : tails (read f).
Proof. intros sc s. now exists 0%nat. Qed.

Lemma skipn_tl {X : Type} (k : nat) (l : list X) : skipn k (tl l) = skipn (S k) l.
Proof. destruct l; [now destruct k | reflexivity]. Qed.

Lemma tails_timeout (loop : list (St -> St) -> St -> St * bool) : tails (_timeout loop).
Proof.
  intros sc s. exists 1%nat. unfold _timeout.
  destruct (loop (hd [] sc) s) as [s' b]. cbn [fst]. now destruct sc.
Qed.

Lemma tails_forever (loop : list (St -> St) -> St -> St * bool) : tails (forever loop).
Proof.
  intros sc s. exists 1%nat. unfold forever.
  destruct (loop (hd [] sc) s) as [s' b]. cbn [fst]. now destruct sc.
Qed.

Lemma tails_andThen {A B : Type} (m : async St A) (f : A -> async St B) :
  tails m -> (forall a, tails (f a)) -> tails (andThen m f).
Proof.
  intros Hm Hf sc s. unfold andThen. destruct (Hm sc s) as [k Hk].
  destruct (m sc s) as [[sc1 s1] [a|e|]]; cbn [fst] in Hk.
  - destruct (Hf a sc1 s1) as [k' Hk']. exists (k' + k)%nat.
    rewrite Hk', Hk. apply skipn_skipn.
  - now exists k.
  - now exists k.
Qed.

Lemma tails_tryCatch {A : Type} (m : async St A) (h : string -> async St A) :
  tails m -> (forall e, tails (h e)) -> tails (tryCatch m h).
Proof.
  intros Hm Hh sc s. unfold tryCatch. destruct (Hm sc s) as [k Hk].
  destruct (m sc s) as [[sc1 s1] [a|e|]]; cbn [fst] in Hk.
  - now exists k.
  - destruct (Hh e sc1 s1) as [k' Hk']. exists (k' + k)%nat.
    rewrite Hk', Hk. apply skipn_skipn.
  - now exists k.
Qed.

Lemma tails_Forall {A : Type} (m : async St A) (P : list (St -> St) -> Prop)
  (sc : script St) (s : St) :
  tails m -> Forall P sc -> Forall P (fst (fst (m sc s))).
Proof.
  intros Hm HP. destruct (Hm sc s) as [k ->]. revert sc HP.
  induction k as [|k IH]; intros sc HP; [exact HP|].
  destruct sc as [|x sc]; [constructor|]. cbn [skipn]. apply IH. now inversion HP.
Qed.

End Tails.

Lemma tails_call {A : Type} (f : REPL -> REPL * A) : tails (call f).
Proof. intros sc s. exists 0%nat. unfold call. now destruct (f s). Qed.

Ltac tails_tac :=
  repeat first
    [ apply tails_andThen; [|intros ?]
    | apply tails_tryCatch; [|intros ?]
    | apply tails_ret | apply tails_step | apply tails_read | apply tails_call
    | apply tails_timeout | apply tails_forever
    | match goal with |- tails (if ?c then _ else _) => destruct c end
    | match goal with |- tails (match ?c with _ => _ end) => destruct c end ].

Lemma tails_interruptCode : tails interruptCode.
Proof. unfold interruptCode. tails_tac. Qed.

Lemma tails_getToPrompt : tails getToPrompt.
Proof. unfold getToPrompt. tails_tac. Qed.

Lemma tails_enterRawMode : tails enterRawMode.
Proof.
  unfold enterRawMode, _waitForModeChange. tails_tac.
Qed.

(** ** Waits that do not throw *)

Lemma poll_finished {St : Type} (cond : St -> bool) (body : St -> St)
  (sleeps : list (St -> St)) (s : St) :
  snd (poll cond body sleeps s) = true -> cond (fst (poll cond body sleeps s)) = false.
Proof.
  revert s. induction sleeps as [|arrive sleeps IH]; intros s; cbn [poll].
  - destruct (cond s) eqn:E; [discriminate | now intros _].
  - destruct (cond s) eqn:E; [apply IH | now intros _].
Qed.

Lemma interruptLoop_finished (n : nat) :
  forall (sleeps : list (REPL -> REPL)) (r : REPL),
    (List.length sleeps <= n)%nat ->
    snd (interruptLoop sleeps r) = true ->
    _pythonCodeRunning (fst (interruptLoop sleeps r)) = false.
Proof.
  induction n as [|n IH]; intros sleeps r Hn.
  - destruct sleeps; [|simpl in Hn; lia]. cbn [interruptLoop].
    destruct (_pythonCodeRunning r) eqn:E; [|now intros _].
    destruct (checkPromptSleeps _); discriminate.
  - destruct sleeps as [|a1 sleeps].
    { cbn [interruptLoop]. destruct (_pythonCodeRunning r) eqn:E; [|now intros _].
      destruct (checkPromptSleeps _); discriminate. }
    cbn [interruptLoop]. destruct (_pythonCodeRunning r) eqn:E; [|now intros _].
    destruct (checkPromptSleeps _).
    + destruct sleeps as [|a2 sleeps]; [discriminate|].
      apply IH. simpl in Hn |- *. lia.
    + apply IH. simpl in Hn |- *. lia.
Qed.

(** [interruptCode] does not throw, whatever the device does: it returns
    [undefined] with the running flag down, or, when the prompt did not
    show before the deadline, it logs and returns [false]. *)
Theorem interruptCode_returns (sc : script REPL) (r : REPL) :
  exists (r' : REPL) (v : option bool),
    interruptCode sc r = (tl sc, r', Return v) /\
    ((v = None /\ _pythonCodeRunning r' = false) \/
     (v = Some false /\ exists r1, r' = console_error "Awaiting prompt timed out." r1)).
Proof.
  unfold interruptCode, andThen, step, tryCatch, _timeout, ret.
  pose proof (interruptLoop_finished (List.length (hd [] sc)) (hd [] sc)
                (set_pythonCodeRunning true r) (le_n _)) as F.
  destruct (interruptLoop (hd [] sc) (set_pythonCodeRunning true r)) as [r1 [|]].
  - exists r1, None. split; [reflexivity|]. left. split; [reflexivity|]. now apply F.
  - exists (console_error "Awaiting prompt timed out." r1), (Some false).
    split; [reflexivity|]. right. split; [reflexivity|]. now exists r1.
Qed.

(** ** Raw mode *)

Lemma received_quiet (arrive : REPL -> REPL) : received arrive -> quiet arrive.
Proof.
  intros [-> | [edata ->]] r; [reflexivity|].
  pose proof (receive_outside edata r) as H.
  unfold outside in H. now injection H.
Qed.

Lemma raw_processToken (r : REPL) (token : string) :
  _mode r = MODE_RAW ->
  _mode (_processToken r token) = MODE_RAW /\
  _pythonCodeRunning (_processToken r token) = _pythonCodeRunning r.
Proof.
  intros Hm. unfold _processToken. fold (titleToken r token).
  set (r1 := titleToken r token).
  assert (H1 : _mode r1 = MODE_RAW /\ _pythonCodeRunning r1 = _pythonCodeRunning r).
  { unfold r1, titleToken.
    repeat match goal with
           | |- context [if ?c then _ else _] => destruct c
           end; now split. }
  set (r2 := set_serialInputBuffer (_serialInputBuffer r1 ++ token) r1).
  assert (H2 : _mode r2 = MODE_RAW /\ _pythonCodeRunning r2 = _pythonCodeRunning r)
    by exact H1.
  clearbody r2. clear H1. clearbody r1. destruct H2 as [M2 R2].
  destruct (_pythonCodeRunning r2) eqn:E2.
  - assert (C : checkPrompt r2 = r2) by (unfold checkPrompt; now rewrite M2).
    rewrite C, M2. cbn [mode_eqb negb].
    match goal with
    | |- context [readCodeLines ?f ?l ?x] =>
        pose proof (obs_readCodeLines _ (fun r => (_mode r, _pythonCodeRunning r))
                      (fun _ _ => eq_refl) f l x) as Hr;
        destruct (readCodeLines f l x) as [r3 codelines]
    end.
    cbn [fst] in Hr. injection Hr as M3 R3. rewrite M2 in M3. rewrite E2 in R3.
    rewrite R3. cbn [andb].
    assert (A : forall l x, _mode x = MODE_RAW ->
              _mode (fold_left addCodeLine l x) = MODE_RAW /\
              _pythonCodeRunning (fold_left addCodeLine l x) = _pythonCodeRunning x).
    { induction l as [|c l IHl]; intros x Hx; [now split|].
      cbn [fold_left].
      assert (S1 : _mode (addCodeLine x c) = MODE_RAW /\
                   _pythonCodeRunning (addCodeLine x c) = _pythonCodeRunning x).
      { unfold addCodeLine.
        repeat match goal with
               | |- context [if ?c then _ else _] => destruct c
               end; now split. }
      destruct S1 as [S1 S2]. destruct (IHl _ S1) as [I1 I2]. split; congruence. }
    destruct (0 <? Z.of_nat (List.length codelines)).
    + destruct (A codelines r3 M3) as [A1 A2]. split; congruence.
    + split; congruence.
  - rewrite E2. cbn [andb]. split; congruence.
Qed.

(** In raw mode nothing that arrives changes the mode or the running
    flag. *)
Lemma raw_receive (edata : string) (r : REPL) :
  _mode r = MODE_RAW ->
  _mode (receive edata r) = MODE_RAW /\
  _pythonCodeRunning (receive edata r) = _pythonCodeRunning r.
Proof.
  intros Hm. unfold receive, onSerialReceive.
  destruct (receiveTokens edata r) as [[data tokens] partial]. cbn [fst].
  unfold _processQueuedTokens.
  cbn [_tokenQueue set_tokenQueue set_partialToken].
  set (r0 := set_tokenQueue [] _).
  assert (H0 : _mode r0 = MODE_RAW /\ _pythonCodeRunning r0 = _pythonCodeRunning r)
    by now split.
  destruct H0 as [M0 R0]. rewrite <- R0. clear R0. clearbody r0.
  generalize (_tokenQueue r ++ tokens)%list as l. intros l. revert r0 M0.
  induction l as [|t l IH]; intros r0 M0; [now split|].
  cbn [fold_left]. destruct (raw_processToken r0 t M0) as [M1 R1].
  destruct (IH _ M1) as [I1 I2]. split; congruence.
Qed.

Lemma raw_poll (sleeps : list (REPL -> REPL)) :
  Forall received sleeps ->
  forall r, _mode r = MODE_RAW -> _pythonCodeRunning r = true ->
    snd (poll _pythonCodeRunning id sleeps r) = false /\
    _mode (fst (poll _pythonCodeRunning id sleeps r)) = MODE_RAW /\
    _pythonCodeRunning (fst (poll _pythonCodeRunning id sleeps r)) = true /\
    outside (fst (poll _pythonCodeRunning id sleeps r)) = outside r /\
    _codeOutput (fst (poll _pythonCodeRunning id sleeps r))
      = _codeOutput (fold_left (fun x arrive => arrive x) sleeps r).
Proof.
  induction 1 as [|arrive sleeps Ha Hs IH]; intros r Hm Hr; cbn [poll].
  - rewrite Hr. repeat split; auto.
  - rewrite Hr. unfold id at 1.
    assert (A : _mode (arrive r) = MODE_RAW /\ _pythonCodeRunning (arrive r) = true
                /\ outside (arrive r) = outside r).
    { destruct Ha as [-> | [edata ->]]; [now repeat split|].
      destruct (raw_receive edata r Hm) as [M1 R1]. rewrite Hr in R1.
      repeat split; auto. apply receive_outside. }
    destruct A as (M1 & R1 & O1).
    destruct (IH _ M1 R1) as (I1 & I2 & I3 & I4 & I5).
    rewrite O1 in I4. repeat split; auto.
Qed.

(** The wait for the code in raw mode ends at its deadline. *)
Lemma waitForCodeExecution_raw (sc : script REPL) (r0 : REPL) :
  _mode r0 = MODE_RAW -> _pythonCodeRunning r0 = true ->
  Forall received (hd [] sc) ->
  exists r1 : REPL,
    _waitForCodeExecution CODE_EXECUTION_TIMEOUT sc r0
      = (tl sc, console_error "Code timed out." r1, Return tt) /\
    _mode r1 = MODE_RAW /\ _pythonCodeRunning r1 = true /\
    outside r1 = outside r0 /\
    _codeOutput r1 = _codeOutput (fold_left (fun x arrive => arrive x) (hd [] sc) r0).
Proof.
  intros M0 R0 Hs.
  destruct (raw_poll (hd [] sc) Hs r0 M0 R0) as (P1 & P2 & P3 & P4 & P5).
  unfold _waitForCodeExecution, CODE_EXECUTION_TIMEOUT.
  cbn [Z.eqb negb]. unfold tryCatch, _timeout.
  destruct (poll _pythonCodeRunning id (hd [] sc) r0) as [r1 b]. cbn [fst snd] in *.
  subst b. unfold step. exists r1. now repeat split.
Qed.

(** [finishRawMode] in raw mode waits until the deadline of the code
    timeout whatever the device sends: nothing on the receive path lowers
    the running flag in raw mode. It then logs, and returns the output
    captured meanwhile, which is the output of what arrived, with the
    flag still up. *)
Theorem finishRawMode_times_out (sc : script REPL) (r : REPL) :
  _mode r = MODE_RAW -> Forall received (hd [] sc) ->
  exists r' : REPL,
    finishRawMode sc r = (tl sc, r', Return (getCodeOutput r')) /\
    getCodeOutput r'
      = _codeOutput (fold_left (fun x arrive => arrive x) (hd [] sc)
                       (serialTransmit CHAR_CTRL_D
                          (set_errorOutput "" (set_codeOutput ""
                             (set_pythonCodeRunning true r))))) /\
    console r' = (console r ++ ["Code timed out."])%list /\
    transmitted r' = (transmitted r ++ [CHAR_CTRL_D])%list /\
    _pythonCodeRunning r' = true /\ _mode r' = MODE_NORMAL.
Proof.
  intros Hm Hs. unfold finishRawMode.
  do 4 (unfold andThen at 1; unfold step at 1).
  set (r0 := serialTransmit CHAR_CTRL_D _).
  assert (M0 : _mode r0 = MODE_RAW) by exact Hm.
  assert (R0 : _pythonCodeRunning r0 = true) by reflexivity.
  assert (O0 : outside r0
               = ((transmitted r ++ [CHAR_CTRL_D])%list, console r, _inputLineEnding r,
                  _outputLineEnding r, terminalOutput r)) by reflexivity.
  destruct (waitForCodeExecution_raw sc r0 M0 R0 Hs) as (r1 & W & M1 & R1 & O1 & C1).
  unfold andThen at 1. rewrite W. unfold andThen, step, read.
  eexists. split; [reflexivity|].
  rewrite O0 in O1. unfold outside in O1. injection O1 as T C _ _ _.
  unfold getCodeOutput.
  cbn [console transmitted _pythonCodeRunning _mode _codeOutput set_mode console_error
       set_console].
  rewrite T, C. auto.
Qed.

(** The wait of [finishRawMode] on the device without raw paste. *)
Lemma finishRawMode_times_out_raw :
  exists r' : REPL,
    finishRawMode [[receive ("OK2" ++ LINE_ENDING_CRLF ++ CHAR_CTRL_D ++ CHAR_CTRL_D ++ ">")]]
      (set_mode MODE_RAW new_REPL)
    = ([], r', Return (getCodeOutput r')) /\
    getCodeOutput r' = "OK2" ++ LINE_ENDING_LF /\
    console r' = ["Code timed out."] /\
    transmitted r' = [CHAR_CTRL_D] /\
    _pythonCodeRunning r' = true /\ _mode r' = MODE_NORMAL.
Proof.
  destruct (finishRawMode_times_out
              [[receive ("OK2" ++ LINE_ENDING_CRLF ++ CHAR_CTRL_D ++ CHAR_CTRL_D ++ ">")]]
              (set_mode MODE_RAW new_REPL) eq_refl)
    as (r' & F & O & C & T & R & M).
  - constructor; [|constructor]. right. now eexists.
  - exists r'. split; [exact F|]. split; [rewrite O; reflexivity|].
    split; [exact C|]. split; [exact T|]. split; [exact R | exact M].
Defined.

(** ** A device without raw paste *)

Lemma poll_keeps {St : Type} (P : St -> Prop) (cond : St -> bool) (body : St -> St)
  (sleeps : list (St -> St)) :
  (forall x, P x -> P (body x)) ->
  Forall (fun arrive => forall x, P x -> P (arrive x)) sleeps ->
  forall s, P s -> P (fst (poll cond body sleeps s)).
Proof.
  intros Hb. induction 1 as [|arrive sleeps Ha Hs IH]; intros s HP; cbn [poll].
  - now destruct (cond s).
  - destruct (cond s); [|exact HP]. apply IH, Ha, Hb, HP.
Qed.

Lemma Forall_hd {X : Type} (P : list X -> Prop) (l : list (list X)) :
  P [] -> Forall P l -> P (hd [] l).
Proof. intros H0 H. destruct H; [exact H0 | assumption]. Qed.

Lemma Forall_tl {X : Type} (P : X -> Prop) (l : list X) : Forall P l -> Forall P (tl l).
Proof. intros H. destruct H; [constructor | assumption]. Qed.

(** [enterRawMode] returns in raw mode only. *)
Lemma enterRawMode_mode (sc sc' : script REPL) (r r' : REPL) (u : unit) :
  enterRawMode sc r = (sc', r', Return u) -> _mode r' = MODE_RAW.
Proof.
  unfold enterRawMode. unfold andThen at 1, read at 1.
  destruct (mode_eqb (_mode r) MODE_RAW) eqn:E.
  - unfold ret. intros [= _ <- _]. now destruct (_mode r).
  - intros H. apply andThen_Return in H. destruct H as (u1 & sc1 & r1 & _ & H).
    unfold andThen at 1, step at 1 in H.
    unfold _waitForModeChange, _timeout in H.
    match type of H with
    | context [poll ?c ?b ?l ?x] =>
        pose proof (poll_finished c b l x) as F; destruct (poll c b l x) as [r2 [|]]
    end; [|discriminate].
    injection H as _ <- _. cbn [fst snd] in F. specialize (F eq_refl).
    apply negb_false_iff in F. now destruct (_mode r2).
Qed.

(** On a call that begins with no loop of [interruptCode] running and
    leaves none behind (the prompt came, or the driver was in raw mode):
    when the handshake of raw paste is not answered with R and a one
    byte, [execRawPasteMode] runs the code in raw mode, waits until the
    deadline of the code timeout, and returns [undefined]: the output is
    left in the object. *)
Theorem execRawPasteMode_fallback (fuel : nat) (code : string) (codeTimeoutMs : Z)
  (sc sc1 : script REPL) (r r1 : REPL) (success : option bool) :
  promptCame sc r ->
  Forall (Forall received) sc ->
  enterRawPasteMode sc r = (sc1, r1, Return success) ->
  success <> Some true ->
  exists r' : REPL,
    execRawPasteMode fuel code codeTimeoutMs sc r = (tl sc1, r', Return None) /\
    transmitted r' = (transmitted r1 ++ [code; CHAR_CTRL_D])%list /\
    console r' = (console r1 ++ ["Code timed out."])%list /\
    _mode r' = MODE_NORMAL.
Proof.
  intros _ Hsc He Hs.
  (* the driver is in raw mode after the handshake *)
  assert (Hr1 : _mode r1 = MODE_RAW /\ Forall received (hd [] sc1)).
  { unfold enterRawPasteMode in He.
    apply andThen_Return in He. destruct He as (u & sca & ra & Hraw & He).
    pose proof (enterRawMode_mode _ _ _ _ _ Hraw) as Ma.
    pose proof (tails_Forall enterRawMode (Forall received) sc r tails_enterRawMode Hsc)
      as Hsca.
    rewrite Hraw in Hsca. cbn [fst] in Hsca.
    unfold andThen at 1, read at 1 in He. unfold andThen at 1, step at 1 in He.
    unfold andThen at 1, _timeout at 1 in He.
    match type of He with
    | context [poll ?c id (hd [] sca) ?st] =>
        pose proof (poll_keeps (fun r => _mode r = MODE_RAW) c id (hd [] sca)
                      (fun y H => H)) as K;
        specialize (K ltac:(apply (Forall_impl (P := received));
                            [intros a [-> | [edata ->]] y Hy;
                             [exact Hy | now apply raw_receive]
                            |apply Forall_hd; [constructor | exact Hsca]])
                      st Ma);
        destruct (poll c id (hd [] sca) st) as [rb [|]]
    end; [|discriminate].
    cbn [fst] in K.
    assert (Hsc1 : sc1 = tl sca /\ _mode r1 = MODE_RAW).
    { unfold andThen at 1, read at 1 in He.
      destruct (len (_serialInputBuffer rb) <? len (_serialInputBuffer ra) + 2).
      - unfold andThen, step, ret in He. injection He as <- <- _. now split.
      - unfold andThen at 1, call at 1 in He. cbn [_readSerialBytes] in He.
        destruct (matchString _ CHAR_RAW_PASTE_UNSUPPORTED).
        + unfold andThen, step, ret in He. injection He as <- <- _. now split.
        + destruct (matchString _ CHAR_RAW_PASTE_SUPPORTED).
          * unfold andThen, step, ret in He. injection He as _ _ <-. contradiction.
          * destruct (String.eqb _ "ra").
            -- unfold andThen, step, ret in He. injection He as <- <- _. now split.
            -- unfold ret in He. injection He as <- <- _. now split. }
    destruct Hsc1 as [-> M1]. split; [exact M1|].
    apply Forall_hd; [constructor|]. now apply Forall_tl. }
  destruct Hr1 as [M1 Hq].
  (* the wait of raw mode, after CTRL-D *)
  set (r0 := serialTransmit CHAR_CTRL_D
               (set_errorOutput "" (set_codeOutput ""
                  (set_pythonCodeRunning true (serialTransmit code r1))))).
  assert (M0 : _mode r0 = MODE_RAW) by exact M1.
  assert (O0 : outside r0
               = ((transmitted r1 ++ [code; CHAR_CTRL_D])%list, console r1,
                  _inputLineEnding r1, _outputLineEnding r1, terminalOutput r1)).
  { unfold outside, r0. cbn [transmitted console _inputLineEnding _outputLineEnding
      terminalOutput serialTransmit set_transmitted set_errorOutput set_codeOutput
      set_pythonCodeRunning]. now rewrite <- app_assoc. }
  destruct (waitForCodeExecution_raw sc1 r0 M0 eq_refl Hq) as (r2 & W & M2 & R2 & O2 & _).
  rewrite O0 in O2. unfold outside in O2. injection O2 as T C _ _ _.
  exists (set_mode MODE_NORMAL (console_error "Code timed out." r2)).
  split; [|split; [|split]].
  - unfold execRawPasteMode. unfold andThen at 1. rewrite He.
    assert (X : (execRawMode code;; ret (@None string)) sc1 r1
                = (tl sc1, set_mode MODE_NORMAL (console_error "Code timed out." r2),
                   Return None)).
    { unfold execRawMode. unfold andThen at 1. unfold andThen at 1.
      unfold enterRawMode. unfold andThen at 1, read at 1. rewrite M1.
      cbn [mode_eqb]. unfold ret at 1. unfold andThen at 1, step at 1.
      unfold finishRawMode.
      do 4 (unfold andThen at 1; unfold step at 1).
      fold r0. unfold andThen at 1. rewrite W. reflexivity. }
    destruct success as [[|]|]; [contradiction | exact X | exact X].
  - cbn [transmitted set_mode console_error set_console]. exact T.
  - cbn [console set_mode console_error set_console]. now rewrite C.
  - reflexivity.
Qed.

Abbreviation handshake := (enterRawPasteMode rawScript new_REPL).

Lemma handshake_fails : snd handshake = Return (Some false).
Proof. reflexivity. Qed.

(** The run on the device without raw paste, which shows the prompt. *)
Lemma execRawPasteMode_fallback_raw :
  exists r' : REPL,
    execRawPasteMode 100 ("print(1+1)" ++ LINE_ENDING_LF) 15000 rawScript new_REPL
      = (tl (fst (fst handshake)), r', Return None) /\
    transmitted r'
      = (transmitted (snd (fst handshake))
         ++ [("print(1+1)" ++ LINE_ENDING_LF)%string; CHAR_CTRL_D])%list /\
    console r' = (console (snd (fst handshake)) ++ ["Code timed out."])%list /\
    _mode r' = MODE_NORMAL.
Proof.
  refine (execRawPasteMode_fallback 100 ("print(1+1)" ++ LINE_ENDING_LF) 15000 rawScript
            (fst (fst handshake)) new_REPL (snd (fst handshake)) (Some false) _ _ _ _).
  - right. reflexivity.
  - unfold rawScript. repeat first [apply Forall_cons | apply Forall_nil].
    all: first [left; reflexivity | right; eexists; reflexivity].
  - rewrite <- handshake_fails. now destruct handshake as [[sc r] c].
  - discriminate.
Defined.

End PasteFacts.


Module LineFacts.

Import Js Re Async Lines JsFacts ReFacts TokenFacts ReceiveFacts.

(** ** Lines *)

Lemma splitOn_none (s cur : string) :
  includes CRLF s = false -> splitOn CRLF cur 0 s = [cur ++ s].
Proof.
  revert cur. induction s as [|c s IH]; intros cur H.
  - cbn. now rewrite append_nil_r.
  - cbn [includes] in H. apply orb_false_iff in H. destruct H as [H0 H].
    cbn [splitOn]. rewrite H0. rewrite IH by exact H.
    now rewrite append_assoc.
Qed.

Lemma startsWith_CRLF_app (c : ascii) (line rest : string) :
  startsWith CRLF (String c line) = false ->
  startsWith CRLF (String c (line ++ CRLF ++ rest)) = false.
Proof.
  unfold CRLF. cbn [startsWith]. destruct (Ascii.eqb "013" c); [|reflexivity].
  cbn [andb]. destruct line as [|d line]; cbn; [reflexivity|].
  now destruct (Ascii.eqb "010" d).
Qed.

(** The first line of a text is the first piece of its split. *)
Lemma splitOn_line (line rest cur : string) :
  includes CRLF line = false ->
  splitOn CRLF cur 0 (line ++ CRLF ++ rest) = (cur ++ line) :: splitOn CRLF "" 0 rest.
Proof.
  revert cur. induction line as [|c line IH]; intros cur H.
  - cbn [String.append]. rewrite append_nil_r. reflexivity.
  - cbn [includes] in H. apply orb_false_iff in H. destruct H as [H0 H].
    change (String c line ++ CRLF ++ rest) with (String c (line ++ CRLF ++ rest)).
    cbn [splitOn]. rewrite (startsWith_CRLF_app c line rest H0).
    rewrite IH by exact H. now rewrite append_assoc.
Qed.

Lemma first_line (s : string) :
  includes CRLF s = true ->
  exists line rest, s = line ++ CRLF ++ rest /\ includes CRLF line = false.
Proof.
  induction s as [|c s IH]; [discriminate|].
  cbn [includes]. destruct (startsWith CRLF (String c s)) eqn:E.
  - intros _. exists "", (drop 2 (String c s)). split; [|reflexivity].
    cbn [String.append]. rewrite <- (take_drop 2 (String c s)) at 1.
    f_equal. exact (startsWith_take _ _ E).
  - cbn [orb]. intros H. destruct (IH H) as (line & rest & -> & Hl).
    exists (String c line), rest. split; [reflexivity|].
    cbn [includes]. rewrite Hl, orb_false_r.
    revert E. unfold CRLF. cbn [startsWith]. destruct (Ascii.eqb "013" c); [|reflexivity].
    cbn [andb]. destruct line as [|d line]; cbn; [reflexivity|].
    now destruct (Ascii.eqb "010" d).
Qed.

(** [s.split("\r\n")]: the text as it is when it has no line ending, and
    else its first line and the split of what follows the line ending. *)
Lemma split_cases (s : string) :
  (includes CRLF s = false /\ Js.split s CRLF = [s]) \/
  (exists line rest,
     s = line ++ CRLF ++ rest /\ includes CRLF line = false /\
     Js.split s CRLF = line :: Js.split rest CRLF).
Proof.
  destruct (includes CRLF s) eqn:E.
  - right. destruct (first_line s E) as (line & rest & -> & Hl).
    exists line, rest. repeat split; auto. unfold Js.split. now rewrite splitOn_line.
  - left. split; [reflexivity|]. unfold Js.split. now rewrite splitOn_none.
Qed.

Lemma split_not_nil (s sep : string) : Js.split s sep <> [].
Proof.
  unfold Js.split. generalize 0%nat as skip. generalize "" as cur.
  induction s as [|c s IH]; intros cur skip; cbn [splitOn]; [discriminate|].
  destruct skip; [|apply IH]. destruct (startsWith sep _); [discriminate | apply IH].
Qed.

(** ** The prompt at the end *)

Lemma endsWith_drop (p s : string) :
  endsWith p s <-> exists j : nat, (j <= String.length s)%nat /\ drop j s = p.
Proof.
  split.
  - intros [pre ->]. exists (String.length pre). rewrite length_append, drop_append.
    split; [lia | reflexivity].
  - intros (j & _ & <-). exists (take j s). symmetry. apply take_drop.
Qed.

(** [/>>> $/] matches the strings that end with the prompt. *)
Lemma test_prompt (line : string) :
  test (Cat (lit PROMPT) Eol) line = true <-> endsWith PROMPT line.
Proof.
  assert (M : forall pos rest,
            matchAt (Cat (lit PROMPT) Eol) pos rest <> None <-> rest = PROMPT).
  { intros pos rest. unfold matchAt. cbn [rmatch]. rewrite rmatch_lit.
    destruct (startsWith PROMPT rest) eqn:E.
    - pose proof (startsWith_take _ _ E) as T.
      change (String.length PROMPT) with 4%nat in *. cbn [rmatch].
      destruct (drop 4 rest) eqn:D.
      + split; [|discriminate]. intros _.
        rewrite <- (take_drop 4 rest), D, T. reflexivity.
      + split; [intros H; now contradiction H|].
        intros ->. discriminate D.
    - split; [intros H; now contradiction H|]. intros ->. discriminate E. }
  rewrite endsWith_drop. unfold test, exec. cbn [Nat.ltb Nat.leb]. rewrite drop_0.
  destruct (search (Cat (lit PROMPT) Eol) 0 line) as [m|] eqn:E.
  - split; [intros _ | reflexivity].
    destruct (search_Some _ _ _ _ E) as (d & Hd & _ & Hm & _).
    exists d. split; [exact Hd|]. apply (M (0 + d)%nat). now rewrite Hm.
  - split; [discriminate|]. intros (j & Hj & Hp).
    pose proof (search_None _ _ _ E j Hj) as N.
    exfalso. apply (proj2 (M (0 + j)%nat (drop j line)) Hp). exact N.
Qed.

Lemma includes_last_char (c : ascii) (y : string) (j : nat) :
  (j <= String.length y)%nat ->
  includes (String c "") (drop j (y ++ String c "")) = true.
Proof.
  revert j. induction y as [|d y IH]; intros j Hj.
  - destruct j; [|simpl in Hj; lia]. cbn. now rewrite Ascii.eqb_refl.
  - destruct j as [|j].
    + cbn [drop String.append includes]. specialize (IH 0%nat ltac:(lia)).
      cbn [drop] in IH. rewrite IH. apply orb_true_r.
    + cbn [drop String.append]. apply IH. simpl in Hj. lia.
Qed.

(** The prompt holds no line feed, so a text ends with the prompt when
    its last line does. *)
Lemma last_line_prompt (n : nat) :
  forall s : string,
    (String.length s <= n)%nat ->
    (endsWith PROMPT (last (Js.split s CRLF) "") <-> endsWith PROMPT s).
Proof.
  induction n as [|n IH]; intros s Hn.
  - destruct s; [|simpl in Hn; lia]. reflexivity.
  - destruct (split_cases s) as [[_ ->]|(line & rest & -> & Hl & ->)]; [reflexivity|].
    assert (L : last (line :: Js.split rest CRLF) "" = last (Js.split rest CRLF) "").
    { pose proof (split_not_nil rest CRLF). cbn [last].
      destruct (Js.split rest CRLF); [contradiction | reflexivity]. }
    rewrite L, IH.
    2: { rewrite !length_append in Hn. simpl in Hn. lia. }
    rewrite !endsWith_drop. split.
    + intros (j & Hj & Hp). rewrite <- append_assoc. set (y := line ++ CRLF).
      exists (String.length y + j)%nat.
      rewrite length_append. split; [lia|].
      rewrite <- drop_drop, drop_append. exact Hp.
    + intros (j & Hj & Hp). rewrite <- append_assoc in Hp, Hj.
      assert (Y : line ++ CRLF = (line ++ String "013" "") ++ String "010" "")
        by now rewrite append_assoc.
      assert (Ylen : String.length (line ++ CRLF) = S (String.length (line ++ String "013" "")))
        by (rewrite !length_append; simpl; lia).
      set (y := line ++ CRLF) in *.
      rewrite length_append in Hj.
      destruct (Nat.le_gt_cases (String.length y) j) as [Hge|Hlt].
      * exists (j - String.length y)%nat. split; [lia|].
        rewrite <- Hp.
        replace j with (String.length y + (j - String.length y))%nat at 2 by lia.
        rewrite <- drop_drop, drop_append. reflexivity.
      * exfalso. rewrite drop_app_le in Hp by lia.
        assert (I : includes (String "010" "") PROMPT = true).
        { rewrite <- Hp, includes_char_app. rewrite Y.
          rewrite includes_last_char; [reflexivity | lia]. }
        discriminate I.
Qed.

(** [_currentLineIsNormalPrompt()] of [src/repl.js] holds exactly when
    the whole input buffer ends with the prompt; in the cursor variant,
    when what the cursor has not passed ends with the prompt. *)
Theorem prompt_at_the_end (r : RawPaste.REPL) (b : Buffered.REPL) :
  RawPaste._inputLineEnding r = CRLF ->
  Buffered.lineEnding (Buffered._serialInputBuffer b) = CRLF ->
  (RawPaste._currentLineIsNormalPrompt r = true
   <-> endsWith PROMPT (RawPaste._serialInputBuffer r)) /\
  (Buffered._currentLineIsNormalPrompt b = true
   <-> endsWith PROMPT (unread (Buffered._serialInputBuffer b))).
Proof.
  intros Hr Hb. split.
  - unfold RawPaste._currentLineIsNormalPrompt, RawPaste._lineIsPrompt,
      RawPaste._getInputBufferLines. rewrite Hr.
    pose proof (split_not_nil (RawPaste._serialInputBuffer r) CRLF) as N.
    destruct (Js.split (RawPaste._serialInputBuffer r) CRLF) as [|l ls] eqn:E;
      [contradiction|].
    rewrite <- E. rewrite (test_prompt (last _ "")).
    apply (last_line_prompt (String.length (RawPaste._serialInputBuffer r))). lia.
  - unfold Buffered._currentLineIsNormalPrompt, Buffered._lineIsPrompt,
      Buffered.readLastLine, Buffered.getLines. rewrite Hb.
    fold (unread (Buffered._serialInputBuffer b)).
    set (u := unread (Buffered._serialInputBuffer b)).
    pose proof (last_line_prompt (String.length u) u (le_n _)) as L.
    destruct (Z.eqb_spec (len u) 0) as [Z0|NZ].
    + split; [discriminate|]. intros [pre E]. apply (f_equal len) in E.
      rewrite len_append in E. pose proof (len_nonneg pre).
      change (len PROMPT) with 4 in E. lia.
    + destruct (Buffered.truthy (last (Js.split u CRLF) "")) eqn:T.
      * rewrite (test_prompt (last _ "")). exact L.
      * split; [discriminate|]. intros H. apply L in H. destruct H as [pre E].
        unfold Buffered.truthy in T. apply negb_false_iff, String.eqb_eq in T.
        rewrite T in E. destruct pre; discriminate E.
Qed.

(** A buffer that ends with the prompt, and one with a command after
    it. *)
Lemma prompt_at_the_end_new :
  RawPaste._currentLineIsNormalPrompt
    (RawPaste.set_serialInputBuffer ("2" ++ CRLF ++ PROMPT) RawPaste.new_REPL) = true.
Proof.
  apply (proj1 (prompt_at_the_end
                  (RawPaste.set_serialInputBuffer ("2" ++ CRLF ++ PROMPT) RawPaste.new_REPL)
                  Buffered.new_REPL eq_refl eq_refl)).
  now exists ("2" ++ CRLF).
Defined.

End LineFacts.


Module CursorFacts.

Import Js Re Async Buffered Lines Cursor JsFacts ReFacts TokenFacts ReceiveFacts LineFacts
  BufferedFacts PasteFacts.

Lemma unread_inside (b : InputBuffer) :
  inside b -> unread b = drop (Z.to_nat (_pointer b)) (_buffer b).
Proof. intros H. unfold unread. now apply sliceFrom_inside. Qed.

Lemma len_unread (b : InputBuffer) :
  inside b -> len (unread b) = len (_buffer b) - _pointer b.
Proof.
  intros H. rewrite unread_inside by exact H. rewrite len_drop.
  unfold inside in H. lia.
Qed.

(** ** Reading what is left *)

(** [getRemainingBuffer()] returns all that the cursor has not passed and
    leaves the cursor at the end, so that the next call returns exactly
    what was appended meanwhile: every character is returned once. *)
Theorem getRemainingBuffer_stream (b : InputBuffer) (data : string) :
  inside b ->
  let b1 := fst (getRemainingBuffer b) in
  snd (getRemainingBuffer b) = unread b /\
  _pointer b1 = len (_buffer b) /\ _buffer b1 = _buffer b /\
  snd (getRemainingBuffer b1) = "" /\
  snd (getRemainingBuffer (append data b1)) = data /\
  inside (fst (getRemainingBuffer (append data b1))).
Proof.
  intros Hb. cbn zeta. pose proof (len_unread b Hb) as Hl.
  unfold getRemainingBuffer. fold (unread b). cbn [fst snd _pointer _buffer set_pointer].
  rewrite Hl. replace (_pointer b + (len (_buffer b) - _pointer b)) with (len (_buffer b))
    by lia.
  split; [reflexivity|]. split; [reflexivity|]. split; [reflexivity|].
  pose proof (len_nonneg (_buffer b)) as Hn. pose proof (len_nonneg data) as Hd.
  assert (S2 : sliceFrom (_buffer b ++ data) (len (_buffer b)) = data).
  { rewrite sliceFrom_inside by (rewrite len_append; lia).
    unfold len. rewrite Nat2Z.id. apply drop_append. }
  split; [|split].
  - apply sliceFrom_beyond. lia.
  - unfold append. cbn [_buffer _pointer set_buffer set_pointer]. exact S2.
  - unfold append, inside. cbn [_buffer _pointer set_buffer set_pointer].
    rewrite S2, len_append. lia.
Qed.

(** Two chunks read as they come. *)
Lemma getRemainingBuffer_stream_OK :
  snd (getRemainingBuffer (holding "OK")) = "OK" /\
  snd (getRemainingBuffer (append "2" (fst (getRemainingBuffer (holding "OK"))))) = "2".
Proof.
  destruct (getRemainingBuffer_stream (holding "OK") "2") as (H1 & _ & _ & _ & H2 & _).
  - unfold inside. cbn. lia.
  - split; [exact H1 | exact H2].
Defined.

(** ** Reading a line *)

(** [readLine()] returns [null] when nothing is left. When a line ending
    is left, it returns the text before the first one and moves the cursor
    past that line ending. When text without a line ending is left, it
    returns the text and moves the cursor as far past it as a line ending
    is long, beyond the end of the buffer. *)
Theorem readLine_spec (b : InputBuffer) (line rest : string) :
  inside b -> lineEnding b = CRLF -> includes CRLF line = false ->
  (unread b = "" -> readLine true b = (b, None)) /\
  (unread b = line ++ CRLF ++ rest ->
   snd (readLine true b) = Some line /\
   unread (fst (readLine true b)) = rest /\ inside (fst (readLine true b))) /\
  (unread b = line -> line <> "" ->
   snd (readLine true b) = Some line /\
   _pointer (fst (readLine true b)) = len (_buffer b) + 2).
Proof.
  intros Hb Hle Hl. pose proof (len_unread b Hb) as Hlen.
  unfold readLine, getLines. fold (unread b). rewrite Hle. split; [|split].
  - intros ->. reflexivity.
  - intros E. rewrite E in *.
    assert (NZ : (len (line ++ CRLF ++ rest) =? 0) = false).
    { apply Z.eqb_neq. rewrite !len_append. pose proof (len_nonneg line).
      pose proof (len_nonneg rest). change (len CRLF) with 2. lia. }
    rewrite NZ. unfold Js.split. rewrite splitOn_line by exact Hl.
    cbn [hd fst snd String.append]. split; [reflexivity|].
    rewrite !len_append in Hlen. change (len CRLF) with 2 in *.
    pose proof (len_nonneg line). pose proof (len_nonneg rest).
    destruct Hb as [Hb1 Hb2].
    assert (U : unread (set_pointer (_pointer b + len line + 2) b) = rest).
    { unfold unread. cbn [_buffer _pointer set_pointer].
      rewrite sliceFrom_inside by lia.
      replace (Z.to_nat (_pointer b + len line + 2))
        with (Z.to_nat (_pointer b) + String.length (line ++ CRLF))%nat
        by (rewrite length_append; unfold len; simpl; lia).
      rewrite <- drop_drop.
      change (drop (Z.to_nat (_pointer b)) (_buffer b))
        with (drop (Z.to_nat (_pointer b)) (_buffer b)).
      rewrite <- sliceFrom_inside by lia. fold (unread b).
      unfold unread in E |- *. rewrite E, <- append_assoc. apply drop_append. }
    split; [exact U|]. unfold inside. cbn [_buffer _pointer set_pointer]. lia.
  - intros E N. rewrite E in *.
    assert (NZ : (len line =? 0) = false).
    { apply Z.eqb_neq. destruct line; [contradiction|]. rewrite len_cons.
      pose proof (len_nonneg line). lia. }
    rewrite NZ. unfold Js.split. rewrite splitOn_none by exact Hl.
    cbn [hd fst snd String.append _pointer set_pointer]. split; [reflexivity|].
    change (len CRLF) with 2. lia.
Qed.

(** A line with its ending, and a prompt without one. *)
Lemma readLine_spec_prompt :
  snd (readLine true (holding ("2" ++ CRLF ++ PROMPT))) = Some "2" /\
  unread (fst (readLine true (holding ("2" ++ CRLF ++ PROMPT)))) = PROMPT /\
  _pointer (fst (readLine true (holding PROMPT))) = 6.
Proof.
  destruct (readLine_spec (holding ("2" ++ CRLF ++ PROMPT)) "2" PROMPT)
    as (_ & H2 & _); [unfold inside; cbn; lia | reflexivity | reflexivity |].
  destruct (readLine_spec (holding PROMPT) PROMPT "")
    as (_ & _ & H3); [unfold inside; cbn; lia | reflexivity | reflexivity |].
  destruct (H2 eq_refl) as (A & B & _). destruct (H3 eq_refl ltac:(discriminate)) as [_ C].
  repeat split; assumption.
Defined.

(** ** Reading up to a pattern *)

Lemma nonempty_len (x : string) : x <> "" -> 0 < len x.
Proof.
  destruct x as [|c x]; [contradiction|]. intros _. rewrite len_cons.
  pose proof (len_nonneg x). lia.
Qed.

Lemma take_one_empty (x : string) : take 1 x = "" -> x = "".
Proof. destruct x; [reflexivity | discriminate]. Qed.

Lemma scanned_step (value : regex) (b0 b : InputBuffer) (bytes newByte : string) :
  inside b0 ->
  scanned value b0 bytes newByte b ->
  test value bytes = false ->
  scanned value b0 (bytes ++ snd (readExactly 1 b)) (snd (readExactly 1 b))
    (fst (readExactly 1 b)).
Proof.
  intros Hb0 (Hbuf & Hp & Hbytes & Hshort & Hend & Hin) Ht.
  pose proof (len_nonneg (_buffer b0)) as Hl. destruct Hb0 as [Hb1 Hb2].
  unfold readExactly. cbn [fst snd _buffer _pointer set_pointer].
  rewrite Hbuf. rewrite slice_nonneg by lia.
  replace (_pointer b + 1 - _pointer b) with 1 by lia. cbn [Z.to_nat Pos.to_nat Pos.iter_op].
  change (Z.to_nat 1) with 1%nat.
  set (n := Z.to_nat (_pointer b - _pointer b0)) in *.
  assert (Hu : unread b0 = drop (Z.to_nat (_pointer b0)) (_buffer b0))
    by (apply unread_inside; split; assumption).
  assert (Hd : drop (Z.to_nat (_pointer b)) (_buffer b0) = drop n (unread b0)).
  { rewrite Hu, drop_drop. f_equal. unfold n. lia. }
  rewrite Hd.
  assert (Hn1 : Z.to_nat (_pointer b + 1 - _pointer b0) = (n + 1)%nat) by (unfold n; lia).
  unfold scanned. cbn [_buffer _pointer set_pointer]. rewrite Hn1.
  split; [exact Hbuf|]. split; [lia|]. split; [|split; [|split]].
  - rewrite take_add, Hbytes. reflexivity.
  - intros m Hm. destruct (Nat.eq_dec m n) as [->|N].
    + rewrite <- Hbytes. exact Ht.
    + apply Hshort. lia.
  - intros E. apply take_one_empty in E. apply (f_equal len) in E.
    rewrite len_drop in E. change (len "") with 0 in E.
    rewrite Hu, len_drop in E. unfold n in E. lia.
  - intros N _. assert (L : 0 < len (drop n (unread b0))).
    { apply nonempty_len. intros E0. apply N. now rewrite E0. }
    rewrite len_drop, Hu, len_drop in L. unfold n in L. lia.
Qed.

Lemma readUntilLoop_scanned (value : regex) (b0 : InputBuffer) (fuel : nat) :
  inside b0 ->
  forall (bytes newByte : string) (b b' : InputBuffer) (newByte' : string),
    scanned value b0 bytes newByte b ->
    readUntilLoop fuel value bytes newByte b = Some (b', newByte') ->
    exists bytes',
      scanned value b0 bytes' newByte' b' /\
      (newByte' <> "" -> test value bytes' = true).
Proof.
  intros Hb0. induction fuel as [|fuel IH]; intros bytes newByte b b' newByte' Hs H;
    [discriminate|].
  cbn [readUntilLoop] in H.
  destruct (test value bytes) eqn:Et; cbn [negb andb] in H.
  - injection H as <- <-. exists bytes. split; [exact Hs | now intros _].
  - destruct (Z.ltb_spec 0 (len newByte)) as [Hpos|Hzero].
    + pose proof (scanned_step value b0 b bytes newByte Hb0 Hs Et) as Hs'.
      destruct (readExactly 1 b) as [b1 nb]. cbn [fst snd] in Hs'.
      apply (IH _ _ _ _ _ Hs' H).
    + injection H as <- <-. exists bytes. split; [exact Hs|].
      intros N. destruct newByte; [contradiction|]. rewrite len_cons in Hzero.
      pose proof (len_nonneg newByte). lia.
Qed.

(** [readUntil(value)] returns [true] with the cursor right after the
    shortest part of what was left in which the pattern matches, and
    [false], with the cursor where it was, when the pattern matches in no
    part of what was left. *)
Theorem readUntil_shortest (value : regex) (b : InputBuffer) :
  inside b -> test value "" = false ->
  exists (b' : InputBuffer) (found : bool),
    readUntil value b = Some (b', found) /\
    (found = true ->
     exists n : nat,
       (1 <= n <= String.length (unread b))%nat /\
       _pointer b' = _pointer b + Z.of_nat n /\
       test value (take n (unread b)) = true /\
       forall m : nat, (m < n)%nat -> test value (take m (unread b)) = false) /\
    (found = false ->
     _pointer b' = _pointer b /\
     forall m : nat, test value (take m (unread b)) = false).
Proof.
  intros Hb He. destruct (readUntil_spec value b Hb He) as (b' & found & E & _ & _ & _).
  exists b', found. split; [exact E|].
  unfold readUntil in E. destruct (readExactly 1 b) as [b1 bytes] eqn:E1.
  assert (S0 : scanned value b bytes " " b1).
  { pose proof (unread_inside b Hb) as Hu. pose proof (len_unread b Hb) as Hl.
    unfold readExactly in E1. injection E1 as <- <-.
    unfold scanned. cbn [_buffer _pointer set_pointer].
    replace (_pointer b + 1 - _pointer b) with 1 by lia. change (Z.to_nat 1) with 1%nat.
    destruct Hb as [Hb1 Hb2].
    split; [reflexivity|]. split; [lia|]. split; [|split; [|split]].
    - rewrite slice_nonneg by lia. replace (_pointer b + 1 - _pointer b) with 1 by lia.
      rewrite Hu. reflexivity.
    - intros m Hm. replace m with 0%nat by lia. exact He.
    - discriminate.
    - intros _ N. rewrite slice_nonneg in N by lia.
      replace (_pointer b + 1 - _pointer b) with 1 in N by lia.
      assert (L : 0 < len (drop (Z.to_nat (_pointer b)) (_buffer b))).
      { apply nonempty_len. intros E0. apply N. now rewrite E0. }
      rewrite len_drop in L. lia. }
  destruct (readUntilLoop _ value bytes " " b1) as [[b2 newByte]|] eqn:EL; [|discriminate].
  destruct (readUntilLoop_scanned value b _ Hb _ _ _ _ _ S0 EL)
    as (bytes' & (Hbuf & Hp & Hbytes & Hshort & Hend & Hin) & Hex).
  pose proof (len_unread b Hb) as Hl. pose proof (len_nonneg (unread b)) as Hl0.
  destruct (Z.eqb_spec (len newByte) 0) as [Z0|NZ]; injection E as <- <-.
  - split; [discriminate|]. intros _. cbn [_pointer set_pointer]. split; [reflexivity|].
    assert (N0 : newByte = "") by (apply len_zero; exact Z0).
    specialize (Hend N0). intros m.
    destruct (Nat.le_gt_cases m (String.length (unread b))) as [Hle|Hgt].
    + apply Hshort. unfold len in *. lia.
    + rewrite take_all by lia. rewrite <- (take_all (String.length (unread b)) (unread b))
        by lia.
      apply Hshort. unfold len in *. lia.
  - split; [|discriminate]. intros _.
    assert (N0 : newByte <> "") by (intros ->; now apply NZ).
    specialize (Hex N0).
    assert (B0 : bytes' <> "") by (intros ->; congruence).
    specialize (Hin N0 B0).
    exists (Z.to_nat (_pointer b2 - _pointer b)). split; [unfold len in *; lia|].
    split; [lia|]. split; [now rewrite <- Hbytes | exact Hshort].
Qed.

(** The banner in the buffer, and no prompt after it yet. *)
Lemma readUntil_shortest_banner :
  exists (b' : InputBuffer) (found : bool),
    readUntil REGEX_PROMPT_RAW_MODE (holding ("ok raw REPL; CTRL-B to exit" ++ CRLF))
      = Some (b', found) /\
    (found = true ->
     exists n : nat,
       (1 <= n <= String.length
                    (unread (holding ("ok raw REPL; CTRL-B to exit" ++ CRLF))))%nat /\
       _pointer b' = _pointer (holding ("ok raw REPL; CTRL-B to exit" ++ CRLF)) + Z.of_nat n /\
       test REGEX_PROMPT_RAW_MODE
         (take n (unread (holding ("ok raw REPL; CTRL-B to exit" ++ CRLF)))) = true /\
       forall m : nat, (m < n)%nat ->
         test REGEX_PROMPT_RAW_MODE
           (take m (unread (holding ("ok raw REPL; CTRL-B to exit" ++ CRLF)))) = false) /\
    (found = false ->
     _pointer b' = _pointer (holding ("ok raw REPL; CTRL-B to exit" ++ CRLF)) /\
     forall m : nat,
       test REGEX_PROMPT_RAW_MODE
         (take m (unread (holding ("ok raw REPL; CTRL-B to exit" ++ CRLF)))) = false).
Proof.
  apply (readUntil_shortest REGEX_PROMPT_RAW_MODE
           (holding ("ok raw REPL; CTRL-B to exit" ++ CRLF))).
  - unfold inside. cbn. lia.
  - reflexivity.
Defined.

End CursorFacts.


Module RawFacts.

Import Js Re Async Buffered Lines Cursor Raw JsFacts ReFacts AsyncFacts BufferedFacts ModeFacts
  CursorFacts.

(** ** The bytes of raw mode *)

Lemma matchString_byte (b c : ascii) :
  matchString (String b "") (String c "") = Ascii.eqb c b.
Proof. unfold matchString. apply test_char. Qed.

Lemma includes_byte_cons (c b : ascii) (s : string) :
  includes (String c "") (String b s) = false ->
  Ascii.eqb c b = false /\ includes (String c "") s = false.
Proof.
  cbn [includes startsWith]. rewrite andb_true_r. intros H.
  now apply orb_false_iff in H.
Qed.

Lemma checkCodeBytes_OK (rest : string) (r : REPL) :
  _checkpointCount r = 0 ->
  checkCodeBytes ("OK" ++ rest) r = checkCodeBytes rest (set_checkpointCount 1 r).
Proof.
  intros H. cbn [String.append checkCodeBytes]. rewrite H. cbn [Z.eqb Z.add].
  rewrite slice_nonneg by lia. change (Z.to_nat (2 - 0)) with 2%nat.
  change (Z.to_nat 0) with 0%nat.
  cbn [take drop]. change (matchString "OK" "OK") with true. cbv iota.
  now destruct rest.
Qed.

Lemma checkCodeBytes_marker (rest : string) (r : REPL) :
  _checkpointCount r <> 0 ->
  checkCodeBytes (CHAR_CTRL_D ++ rest) r
    = checkCodeBytes rest (set_checkpointCount (_checkpointCount r + 1) r).
Proof.
  intros H. change (CHAR_CTRL_D ++ rest) with (String "004" rest).
  cbn [checkCodeBytes]. destruct (Z.eqb_spec (_checkpointCount r) 0); [contradiction|].
  unfold CHAR_CTRL_D. rewrite matchString_byte. reflexivity.
Qed.

Lemma checkCodeBytes_output (out rest : string) (r : REPL) :
  _checkpointCount r = 1 ->
  includes CHAR_CTRL_D out = false ->
  checkCodeBytes (out ++ rest) r
    = checkCodeBytes rest (set_codeOutput (_codeOutput r ++ out) r).
Proof.
  revert r. induction out as [|b out IH]; intros r Hc Hout.
  - destruct r; simpl in *. now rewrite append_nil_r.
  - apply includes_byte_cons in Hout. destruct Hout as [Hb Hout].
    change (String b out ++ rest) with (String b (out ++ rest)).
    cbn [checkCodeBytes]. rewrite Hc. cbn [Z.eqb Pos.eqb]. unfold CHAR_CTRL_D.
    rewrite matchString_byte, Hb. rewrite IH by (auto).
    destruct r; unfold set_codeOutput; simpl. now rewrite append_assoc.
Qed.

Lemma checkCodeBytes_error (err rest : string) (r : REPL) :
  _checkpointCount r = 2 ->
  includes CHAR_CTRL_D err = false ->
  checkCodeBytes (err ++ rest) r
    = checkCodeBytes rest (set_errorOutput (_errorOutput r ++ err) r).
Proof.
  revert r. induction err as [|b err IH]; intros r Hc Herr.
  - destruct r; simpl in *. now rewrite append_nil_r.
  - apply includes_byte_cons in Herr. destruct Herr as [Hb Herr].
    change (String b err ++ rest) with (String b (err ++ rest)).
    cbn [checkCodeBytes]. rewrite Hc. cbn [Z.eqb Pos.eqb]. unfold CHAR_CTRL_D.
    rewrite matchString_byte, Hb. rewrite IH by (auto).
    destruct r; unfold set_errorOutput; simpl. now rewrite append_assoc.
Qed.

Lemma checkCodeBytes_done (rest : string) (r : REPL) :
  2 < _checkpointCount r ->
  _codeOutput (checkCodeBytes rest r) = _codeOutput r /\
  _errorOutput (checkCodeBytes rest r) = _errorOutput r /\
  _checkpointCount r <= _checkpointCount (checkCodeBytes rest r) /\
  (_pythonCodeRunning r = false -> _pythonCodeRunning (checkCodeBytes rest r) = false).
Proof.
  revert r. induction rest as [|b rest IH]; intros r Hc.
  { cbn [checkCodeBytes]. repeat split; auto. lia. }
  cbn [checkCodeBytes].
  destruct (Z.eqb_spec (_checkpointCount r) 0); [lia|].
  destruct (matchString _ CHAR_CTRL_D).
  { destruct (IH (set_checkpointCount (_checkpointCount r + 1) r)) as (A & B & C & D);
      [cbn; lia|]. cbn in *. repeat split; auto; lia. }
  destruct (Z.eqb_spec (_checkpointCount r) 1); [lia|].
  destruct (Z.eqb_spec (_checkpointCount r) 2); [lia|].
  destruct (Z.geb_spec (_checkpointCount r) 2); [|lia].
  destruct (IH (set_pythonCodeRunning false r)) as (A & B & C & D); [cbn; lia|].
  cbn in *. repeat split; auto.
Qed.

(** The byte loop of [_checkCodeRunning] on the answer of raw mode: after
    [OK], what comes before the first EOT is the output and what comes
    between the two EOT is the error text. The running flag falls with
    the first byte after the second EOT that is not an EOT, and not with
    the EOT itself. *)
Theorem checkCodeBytes_answer (out err rest : string) (r : REPL) :
  _checkpointCount r = 0 ->
  includes CHAR_CTRL_D out = false ->
  includes CHAR_CTRL_D err = false ->
  let r' := checkCodeBytes (answer out err rest) r in
  _codeOutput r' = _codeOutput r ++ out /\
  _errorOutput r' = _errorOutput r ++ err /\
  (rest = "" -> _checkpointCount r' = 3 /\ _pythonCodeRunning r' = _pythonCodeRunning r) /\
  (forall b rest', rest = String b rest' -> b <> "004"%char ->
     _pythonCodeRunning r' = false).
Proof.
  intros Hc Hout Herr. cbn zeta. unfold answer.
  rewrite checkCodeBytes_OK by exact Hc.
  rewrite checkCodeBytes_output by (auto).
  rewrite checkCodeBytes_marker by (cbn; lia).
  rewrite checkCodeBytes_error by (auto).
  rewrite checkCodeBytes_marker by (cbn; lia).
  match goal with |- context [checkCodeBytes rest ?x] => set (r3 := x) end.
  assert (H3 : 2 < _checkpointCount r3) by (cbn; lia).
  destruct (checkCodeBytes_done rest r3 H3) as (A & B & C & D).
  split; [exact A|]. split; [exact B|]. split.
  - intros ->. split; reflexivity.
  - intros b rest' -> Hb. cbn [checkCodeBytes].
    destruct (Z.eqb_spec (_checkpointCount r3) 0); [lia|].
    unfold CHAR_CTRL_D. rewrite matchString_byte.
    destruct (Ascii.eqb_spec "004"%char b) as [E|_]; [now contradiction Hb|].
    destruct (Z.eqb_spec (_checkpointCount r3) 1); [lia|].
    destruct (Z.eqb_spec (_checkpointCount r3) 2); [lia|].
    destruct (Z.geb_spec (_checkpointCount r3) 2); [|lia].
    apply checkCodeBytes_done; [exact H3 | reflexivity].
Qed.

(** The answer to [print(2)], with the prompt of raw mode after it. *)
Lemma checkCodeBytes_answer_2 :
  _codeOutput (checkCodeBytes (answer ("2" ++ CRLF) "" ">") submitted) = "2" ++ CRLF /\
  _errorOutput (checkCodeBytes (answer ("2" ++ CRLF) "" ">") submitted) = "" /\
  _pythonCodeRunning (checkCodeBytes (answer ("2" ++ CRLF) "" ">") submitted) = false.
Proof.
  destruct (checkCodeBytes_answer ("2" ++ CRLF) "" ">" submitted eq_refl eq_refl eq_refl)
    as (A & B & _ & D).
  split; [exact A|]. split; [exact B|]. apply (D ">"%char ""); [reflexivity | discriminate].
Defined.

(** ** Mode detection that finds nothing *)

Lemma no_anchor_position (a : regex) (text : string) :
  test a text = false -> _findLastRegexPosition a text = -1.
Proof.
  intros H. destruct (_findLastRegexPosition_spec a text) as [[E _]|(Hp & Ho & _)];
    [exact E|].
  exfalso. unfold test in H. destruct (exec a text 0) as [m|] eqn:E; [discriminate|].
  apply (exec_None _ _ _ E (Z.to_nat (_findLastRegexPosition a text))); [lia | exact Ho].
Qed.

(** [_detectCurrentMode()] leaves the buffer as it is, never moves the
    cursor back or out of the buffer, and never forgets a mode it knew.
    When no anchor is in the buffer it does nothing at all if the mode is
    known, and if the mode is unknown it restarts the device: it transmits
    CTRL-D and then CTRL-C. *)
Theorem detectCurrentMode_keeps (r : REPL) :
  inside (_serialInputBuffer r) ->
  let r' := _detectCurrentMode r in
  _buffer (_serialInputBuffer r') = _buffer (_serialInputBuffer r) /\
  _pointer (_serialInputBuffer r) <= _pointer (_serialInputBuffer r') /\
  inside (_serialInputBuffer r') /\
  (_mode r <> None -> _mode r' <> None) /\
  (anchorless (get (_serialInputBuffer r)) ->
   r' = match _mode r with
        | Some _ => r
        | None => serialTransmit CHAR_CTRL_C (serialTransmit CHAR_CTRL_D r)
        end).
Proof.
  intros Hb. cbn zeta.
  assert (Mv : forall p m,
            let x := set_serialInputBuffer (movePointer p (_serialInputBuffer r))
                       (set_mode (Some m) r) in
            _buffer (_serialInputBuffer x) = _buffer (_serialInputBuffer r) /\
            _pointer (_serialInputBuffer r) <= _pointer (_serialInputBuffer x) /\
            inside (_serialInputBuffer x) /\ _mode x = Some m).
  { intros p m. cbn zeta. cbn [_serialInputBuffer set_serialInputBuffer set_mode _mode].
    destruct (movePointer_spec p _ Hb) as [B [P1 P2]].
    split; [exact B|]. split; [exact P1|]. split; [|reflexivity].
    unfold inside. rewrite B. destruct Hb. split; [lia | exact P2]. }
  assert (K : _buffer (_serialInputBuffer (_detectCurrentMode r))
              = _buffer (_serialInputBuffer r) /\
              _pointer (_serialInputBuffer r)
              <= _pointer (_serialInputBuffer (_detectCurrentMode r)) /\
              inside (_serialInputBuffer (_detectCurrentMode r)) /\
              (_mode r <> None -> _mode (_detectCurrentMode r) <> None)).
  { unfold _detectCurrentMode.
    set (raw := _findLastRegexPosition REGEX_PROMPT_RAW_MODE (get (_serialInputBuffer r))).
    set (normal := _findLastRegexPosition REGEX_PROMPT_NORMAL_MODE
                     (get (_serialInputBuffer r))).
    set (pre := _findLastRegexPosition REGEX_PRE_PROMPT (get (_serialInputBuffer r))).
    destruct ((pre >? normal) && (pre >? raw)).
    { destruct (Mv pre MODE_PRE_PROMPT) as (A & B & C & D).
      cbn [serialTransmit set_transmitted _serialInputBuffer _mode set_serialInputBuffer
           set_mode] in *.
      repeat split; try assumption; try apply C. discriminate. }
    destruct (raw >? normal).
    { destruct (Mv raw MODE_RAW) as (A & B & C & D).
      cbn [serialTransmit set_transmitted _serialInputBuffer _mode set_serialInputBuffer
           set_mode] in *.
      repeat split; try assumption; try apply C. discriminate. }
    destruct (normal >? raw).
    { destruct (Mv normal MODE_NORMAL) as (A & B & C & D).
      cbn [serialTransmit set_transmitted _serialInputBuffer _mode set_serialInputBuffer
           set_mode] in *.
      repeat split; try assumption; try apply C. discriminate. }
    destruct (_mode r) as [m|] eqn:Em.
    - repeat split; try apply Hb; try lia. intros _. rewrite Em. discriminate.
    - cbn [serialTransmit softRestart set_transmitted _serialInputBuffer _mode].
      repeat split; try apply Hb; try lia. intros N. now contradiction N. }
  destruct K as (K1 & K2 & K3 & K4).
  split; [exact K1|]. split; [exact K2|]. split; [exact K3|]. split; [exact K4|].
  intros (H1 & H2 & H3). unfold _detectCurrentMode.
  rewrite (no_anchor_position _ _ H1), (no_anchor_position _ _ H2),
    (no_anchor_position _ _ H3).
  change (-1 >? -1) with false. cbn [andb]. cbv iota. reflexivity.
Qed.

(** A new object: nothing was received and the mode is unknown. *)
Lemma detectCurrentMode_keeps_new :
  _detectCurrentMode new_REPL
    = serialTransmit CHAR_CTRL_C (serialTransmit CHAR_CTRL_D new_REPL).
Proof.
  destruct (detectCurrentMode_keeps new_REPL) as (_ & _ & _ & _ & H).
  - unfold inside. cbn. lia.
  - apply H. repeat split.
Defined.

End RawFacts.


Module OutputFacts.

Import Js Re Async RawPaste Terms Tokens Lines Output JsFacts ReFacts RawPasteFacts TokenFacts
  ReceiveFacts LineFacts.

Lemma replace_none (a : regex) (s by_ : string) :
  test a s = false -> Re.replace a s by_ = s.
Proof.
  unfold test, Re.replace. now destruct (exec a s 0).
Qed.

Lemma formatCodeOutput_shown (line : string) : shown line -> _formatCodeOutput line = line.
Proof.
  intros (P & C & _). unfold _formatCodeOutput.
  unfold IGNORE_OUTPUT_LINE_PREFIXES, CONTROL_SEQUENCES in *.
  apply Forall_cons_iff in P. destruct P as [P1 P'].
  apply Forall_cons_iff in P'. destruct P' as [P2 _].
  apply Forall_cons_iff in C. destruct C as [C1 _].
  cbn [existsb fold_left]. rewrite P1, P2. cbn [orb]. now apply replace_none.
Qed.

Lemma formatCodeOutput_echoed (line : string) : echoed line -> _formatCodeOutput line = "".
Proof. intros H. unfold _formatCodeOutput. unfold echoed in H. now rewrite H. Qed.

(** One call of [_getSerialCodeOutput]: the line up to the next line
    ending, and nothing when no line ending is there. *)
Lemma getSerialCodeOutput_line (r : REPL) (line rest : string) :
  _inputLineEnding r = CRLF -> includes CRLF line = false ->
  unreadCode r = line ++ CRLF ++ rest ->
  _getSerialCodeOutput r
    = (set_codeCheckPointer (_codeCheckPointer r + len line + 2) r,
       _formatCodeOutput line).
Proof.
  intros Hle Hl Hu. unfold _getSerialCodeOutput. fold (unreadCode r). rewrite Hle, Hu.
  assert (I : includes CRLF (line ++ CRLF ++ rest) = true).
  { destruct (includes CRLF (line ++ CRLF ++ rest)) eqn:E; [reflexivity|].
    exfalso. rewrite includes_false in E.
    specialize (E (String.length line)).
    rewrite drop_append in E. rewrite length_append in E.
    discriminate E. lia. }
  rewrite I. unfold Js.split. rewrite splitOn_line by exact Hl.
  cbn [hd String.append]. reflexivity.
Qed.

Lemma getSerialCodeOutput_none (r : REPL) :
  _inputLineEnding r = CRLF -> includes CRLF (unreadCode r) = false ->
  _getSerialCodeOutput r = (r, "").
Proof.
  intros Hle Hu. unfold _getSerialCodeOutput. fold (unreadCode r). now rewrite Hle, Hu.
Qed.

Lemma readCodeLines_S (fuel : nat) (codelines : list string) (r : REPL) :
  readCodeLines (S fuel) codelines r
  = let '(r1, codeline) := _getSerialCodeOutput r in
    if truthy codeline
    then readCodeLines fuel (codelines ++ [codeline]) r1
    else (r1, codelines).
Proof. reflexivity. Qed.

(** While code runs outside raw paste and the code pointer stands inside
    the buffer, the token that brings the line ending of a line completes
    the line, however the line was cut before: a line that is shown goes
    to the output with the line ending of the result after it, and an
    echoed prompt does not. Either way the line is read past, and the
    code pointer stands at the end of the buffer, inside it again. The
    code pointer is inside the buffer from a new driver on; a submission
    in raw paste, which cuts the buffer, can leave it below 0, and then
    nothing is said here. *)
Theorem processToken_line (r : REPL) (head tail : string) :
  _pythonCodeRunning r = true -> _mode r <> MODE_RAWPASTE ->
  _inputLineEnding r = CRLF ->
  0 <= _codeCheckPointer r <= len (_serialInputBuffer r) ->
  unreadCode r = head ->
  includes CRLF (head ++ tail) = false ->
  let r' := _processToken r (tail ++ CRLF) in
  _serialInputBuffer r' = _serialInputBuffer r ++ tail ++ CRLF /\
  _codeCheckPointer r' = len (_serialInputBuffer r') /\
  (shown (head ++ tail) -> head ++ tail <> "" ->
   _codeOutput r' = _codeOutput r ++ (head ++ tail) ++ _outputLineEnding r) /\
  (echoed (head ++ tail) -> _codeOutput r' = _codeOutput r).
Proof.
  intros Hrun Hmode Hle Hptr Hu Hl. cbn zeta.
  set (token := tail ++ CRLF). set (line := head ++ tail) in *.
  unfold _processToken. cbv zeta. fold (titleToken r token).
  set (r1 := titleToken r token).
  assert (F1 : _pythonCodeRunning r1 = true /\ _mode r1 = _mode r /\
               _inputLineEnding r1 = CRLF /\ _outputLineEnding r1 = _outputLineEnding r /\
               _codeCheckPointer r1 = _codeCheckPointer r /\
               _serialInputBuffer r1 = _serialInputBuffer r /\
               _codeOutput r1 = _codeOutput r).
  { unfold r1, titleToken.
    repeat match goal with
           | |- context [if ?c then _ else _] => destruct c
           end; repeat split; assumption. }
  clearbody r1. destruct F1 as (R1 & M1 & L1 & O1 & C1 & B1 & Q1).
  set (r2 := set_serialInputBuffer (_serialInputBuffer r1 ++ token) r1).
  assert (U2 : unreadCode r2 = line ++ CRLF ++ "").
  { unfold unreadCode, r2. cbn [_serialInputBuffer _codeCheckPointer set_serialInputBuffer].
    rewrite B1, C1.
    rewrite sliceFrom_inside
      by (rewrite len_append; pose proof (len_nonneg token); lia).
    unfold unreadCode in Hu. rewrite sliceFrom_inside in Hu by lia.
    rewrite <- (take_drop (Z.to_nat (_codeCheckPointer r)) (_serialInputBuffer r)) at 1.
    rewrite append_assoc.
    replace (Z.to_nat (_codeCheckPointer r))
      with (String.length (take (Z.to_nat (_codeCheckPointer r)) (_serialInputBuffer r)))
      at 1 by (rewrite length_take; unfold len in Hptr; lia).
    rewrite drop_append, Hu. unfold line, token.
    rewrite append_nil_r. symmetry. apply append_assoc. }
  assert (F2 : _pythonCodeRunning r2 = true /\ _mode r2 = _mode r /\
               _inputLineEnding r2 = CRLF /\ _outputLineEnding r2 = _outputLineEnding r /\
               _codeCheckPointer r2 = _codeCheckPointer r /\
               _serialInputBuffer r2 = _serialInputBuffer r ++ token /\
               _codeOutput r2 = _codeOutput r).
  { unfold r2. cbn [_pythonCodeRunning _mode _inputLineEnding _outputLineEnding
                    _codeCheckPointer _serialInputBuffer _codeOutput set_serialInputBuffer].
    rewrite B1. repeat split; assumption. }
  clearbody r2. clear r1 R1 M1 L1 O1 C1 B1 Q1.
  destruct F2 as (R2 & M2 & L2 & O2 & C2 & B2 & Q2).
  rewrite R2.
  assert (NP : mode_eqb (_mode r2) MODE_RAWPASTE = false).
  { rewrite M2. destruct (_mode r); try reflexivity. now contradiction Hmode. }
  assert (CP : checkPrompt r2 = r2) by (unfold checkPrompt; now rewrite NP).
  rewrite CP, NP. cbn [negb].
  (* the first round reads the line *)
  set (r3 := set_codeCheckPointer (_codeCheckPointer r2 + len line + 2) r2).
  assert (U3 : includes CRLF (unreadCode r3) = false).
  { unfold unreadCode, r3.
    cbn [_serialInputBuffer _codeCheckPointer set_codeCheckPointer].
    rewrite sliceFrom_beyond; [reflexivity|].
    rewrite B2, C2. unfold token. rewrite !len_append.
    unfold unreadCode in Hu. apply (f_equal len) in Hu.
    rewrite sliceFrom_inside, len_drop in Hu by lia.
    unfold line. rewrite len_append. change (len CRLF) with 2. lia. }
  assert (P3 : _codeCheckPointer r3 = len (_serialInputBuffer r3)).
  { unfold r3. cbn [_serialInputBuffer _codeCheckPointer set_codeCheckPointer].
    rewrite B2, C2. unfold token. rewrite !len_append.
    unfold unreadCode in Hu. apply (f_equal len) in Hu.
    rewrite sliceFrom_inside, len_drop in Hu by lia.
    unfold line. rewrite len_append. change (len CRLF) with 2. lia. }
  assert (G1 : _getSerialCodeOutput r2 = (r3, _formatCodeOutput line))
    by (now apply (getSerialCodeOutput_line r2 line "")).
  assert (G2 : _getSerialCodeOutput r3 = (r3, ""))
    by (apply getSerialCodeOutput_none; [exact L2 | exact U3]).
  assert (Fuel : exists fuel,
             S (Z.to_nat (len (_serialInputBuffer r2) - _codeCheckPointer r2)) = S (S fuel)).
  { exists (Z.to_nat (len (_serialInputBuffer r2) - _codeCheckPointer r2) - 1)%nat.
    rewrite B2, C2. unfold token. rewrite !len_append. change (len CRLF) with 2.
    pose proof (len_nonneg tail). lia. }
  destruct Fuel as [fuel ->].
  rewrite readCodeLines_S. rewrite G1.
  assert (F3 : _pythonCodeRunning r3 = true /\ _mode r3 = _mode r /\
               _outputLineEnding r3 = _outputLineEnding r /\
               _serialInputBuffer r3 = _serialInputBuffer r ++ token /\
               _codeOutput r3 = _codeOutput r).
  { unfold r3. cbn [_pythonCodeRunning _mode _outputLineEnding _serialInputBuffer
                    _codeOutput set_codeCheckPointer]. repeat split; assumption. }
  destruct F3 as (R3 & M3 & O3 & B3 & Q3).
  assert (Shown : shown line -> line <> "" ->
            let r' := (let '(ra, codelines) :=
                         if truthy (_formatCodeOutput line)
                         then readCodeLines (S fuel) ([] ++ [_formatCodeOutput line]) r3
                         else (r3, []) in
                       if _pythonCodeRunning ra && (0 <? Z.of_nat (List.length codelines))
                       then fold_left addCodeLine codelines ra else ra) in
            r' = set_codeOutput (_codeOutput r3 ++ line ++ _outputLineEnding r3) r3).
  { intros Hs Hn. cbn zeta. rewrite (formatCodeOutput_shown line Hs).
    assert (T : truthy line = true).
    { unfold truthy. destruct (String.eqb_spec line ""); [contradiction | reflexivity]. }
    rewrite T. rewrite readCodeLines_S. rewrite G2. cbn [truthy String.eqb negb app].
    rewrite R3. cbn [List.length Z.of_nat Z.ltb Z.compare andb fold_left].
    destruct Hs as (P & C & E & B). unfold IGNORE_OUTPUT_LINE_PREFIXES in P.
    apply Forall_cons_iff in P. destruct P as [P1 P'].
    apply Forall_cons_iff in P'. destruct P' as [P2 _].
    unfold addCodeLine, IGNORE_OUTPUT_LINE_PREFIXES. cbn [nth].
    rewrite P1, P2, E, B. cbn [negb andb]. rewrite andb_false_r. reflexivity. }
  assert (Echoed : echoed line ->
            let r' := (let '(ra, codelines) :=
                         if truthy (_formatCodeOutput line)
                         then readCodeLines (S fuel) ([] ++ [_formatCodeOutput line]) r3
                         else (r3, []) in
                       if _pythonCodeRunning ra && (0 <? Z.of_nat (List.length codelines))
                       then fold_left addCodeLine codelines ra else ra) in
            r' = r3).
  { intros He. cbn zeta. rewrite (formatCodeOutput_echoed line He).
    cbn [truthy String.eqb negb]. now rewrite andb_false_r. }
  assert (Always :
            let r' := (let '(ra, codelines) :=
                         if truthy (_formatCodeOutput line)
                         then readCodeLines (S fuel) ([] ++ [_formatCodeOutput line]) r3
                         else (r3, []) in
                       if _pythonCodeRunning ra && (0 <? Z.of_nat (List.length codelines))
                       then fold_left addCodeLine codelines ra else ra) in
            _serialInputBuffer r' = _serialInputBuffer r3 /\
            _codeCheckPointer r' = _codeCheckPointer r3).
  { cbn zeta. destruct (truthy (_formatCodeOutput line)).
    - rewrite readCodeLines_S. rewrite G2. cbn [truthy String.eqb negb app].
      destruct (_ && _); [|now split].
      cbn [fold_left]. unfold addCodeLine.
      repeat match goal with
             | |- context [if ?c then _ else _] => destruct c
             end; now split.
    - destruct (_ && _); now split. }
  cbn zeta in Shown, Echoed, Always.
  destruct Always as [A1 A2].
  split; [rewrite A1, B3; reflexivity|]. split; [rewrite A1, A2; exact P3|]. split.
  - intros Hs Hn. rewrite (Shown Hs Hn). cbn [_codeOutput set_codeOutput].
    rewrite Q3, O3. reflexivity.
  - intros He. rewrite (Echoed He). exact Q3.
Qed.

(** A line of output that arrives in two parts, and the echo of a
    command. *)
Lemma processToken_line_hello :
  _codeOutput (_processToken (running "hel") ("lo" ++ CRLF)) = "hello" ++ LINE_ENDING_LF /\
  _codeOutput (_processToken (running ">>> pri") ("nt(1)" ++ CRLF)) = "".
Proof.
  destruct (processToken_line (running "hel") "hel" "lo" eq_refl ltac:(discriminate) eq_refl
              ltac:(cbn; lia) eq_refl eq_refl) as (_ & _ & A & _).
  destruct (processToken_line (running ">>> pri") ">>> pri" "nt(1)" eq_refl ltac:(discriminate) eq_refl
              ltac:(cbn; lia) eq_refl eq_refl) as (_ & _ & _ & B).
  split.
  - apply A; [|discriminate]. repeat constructor.
  - apply B. reflexivity.
Defined.

End OutputFacts.


Module FileOpsFacts.

Import Js Re Async ErrorText RawPaste FileOps.

Lemma next_not_returned {A B : Type} (m : fileAsync A) (k : A -> fileAsync B)
  (sc : script REPL) (f : FileOps) (r : REPL) :
  ~ returned (outcome (m sc f r)) -> ~ returned (outcome (next m k sc f r)).
Proof.
  unfold next, outcome, returned. destruct (m sc f r) as [[[sc' f'] r'] [a|e|]]; cbn.
  - intros H. exfalso. apply H. now exists a.
  - intros _ [b Hb]. discriminate.
  - intros _ [b Hb]. discriminate.
Qed.

Lemma checkReadOnly_not_returned (fuel : nat) (sc : script REPL) (f : FileOps) (r : REPL) :
  _doCheckReadOnly f = true -> ~ returned (outcome (_checkReadOnly fuel sc f r)).
Proof.
  intros Hc. unfold _checkReadOnly, next, field, outcome, returned. rewrite Hc. cbn [negb].
  destruct (_isReadOnly f) as [v|] eqn:Ev.
  - unfold pure, settled, invoke. cbn. intros [a Ha]. discriminate.
  - destruct (isReadOnly fuel sc f r) as [[[sc' f'] r'] [v|e|]];
      unfold update, settled, invoke; cbn; intros [a Ha]; discriminate.
Qed.

(** With the check of the file system on, which is the default,
    [_checkReadOnly] never returns: it throws or stays pending. So no call
    of [makeDir], [delete] or [move] returns either; and once the state of
    the file system is known the check throws a [TypeError] at once, with
    nothing sent to the device. *)
Theorem checkReadOnly_never_returns (fuel : nat) (sc : script REPL)
  (f : FileOps) (r : REPL) :
  _doCheckReadOnly f = true ->
  ~ returned (outcome (_checkReadOnly fuel sc f r)) /\
  (forall path modificationTime,
      ~ returned (outcome (makeDir fuel path modificationTime sc f r))) /\
  (forall path, ~ returned (outcome (delete fuel path sc f r))) /\
  (forall oldPath newPath, ~ returned (outcome (move fuel oldPath newPath sc f r))) /\
  (_isReadOnly f <> None -> _checkReadOnly fuel sc f r = (sc, f, r, Throw "TypeError")).
Proof.
  intros Hc. pose proof (checkReadOnly_not_returned fuel sc f r Hc) as N.
  split; [exact N|]. split; [|split; [|split]].
  - intros path mt. unfold makeDir. now apply next_not_returned.
  - intros path. unfold delete. now apply next_not_returned.
  - intros o n. unfold move. now apply next_not_returned.
  - intros Hk. unfold _checkReadOnly, next, field. rewrite Hc. cbn [negb].
    destruct (_isReadOnly f) as [v|] eqn:Ev; [|contradiction].
    reflexivity.
Qed.

(** An object that checks, on a silent device. *)
Lemma checkReadOnly_never_returns_new :
  ~ returned (outcome (makeDir 100 "/lib" None [] (new_FileOps true) new_REPL)) /\
  _checkReadOnly 100 [] (set_isReadOnly (Some false) (new_FileOps true)) new_REPL
  = ([], set_isReadOnly (Some false) (new_FileOps true), new_REPL, Throw "TypeError").
Proof.
  destruct (checkReadOnly_never_returns 100 [] (new_FileOps true) new_REPL eq_refl)
    as (_ & M & _).
  destruct (checkReadOnly_never_returns 100 []
              (set_isReadOnly (Some false) (new_FileOps true)) new_REPL eq_refl)
    as (_ & _ & _ & _ & K).
  split; [apply M | apply K; discriminate].
Defined.

Lemma next_returns {A B : Type} (m : fileAsync A) (k : A -> fileAsync B)
  (sc sc' : script REPL) (f f' : FileOps) (r r' : REPL) (b : B) :
  next m k sc f r = (sc', f', r', Return b) ->
  exists sc1 f1 r1 a,
    m sc f r = (sc1, f1, r1, Return a) /\ k a sc1 f1 r1 = (sc', f', r', Return b).
Proof.
  unfold next. destruct (m sc f r) as [[[sc1 f1] r1] [a|e|]]; try discriminate.
  intros H. now exists sc1, f1, r1, a.
Qed.

Lemma bind_not_pending {A B : Type} (c : completion A) (k : A -> completion B) :
  c <> Pending -> (forall a, k a <> Pending) -> bind c k <> Pending.
Proof. destruct c; cbn; auto; discriminate. Qed.

Lemma defined_not_pending {A : Type} (o : option A) : defined o <> Pending.
Proof. destruct o; discriminate. Qed.

Lemma decodeError_not_pending (inputLineEnding rawError : string) :
  decodeError inputLineEnding rawError <> Pending.
Proof.
  unfold decodeError, group1.
  destruct (0 <? _); [|discriminate].
  repeat (apply bind_not_pending; [apply defined_not_pending | intros ?]).
  destruct (String.eqb _ _); [|discriminate].
  apply bind_not_pending; [apply defined_not_pending | intros ?]. discriminate.
Qed.

(** [_checkReplErrors] reaches no wait: it reads no sleep of the script
    and is never left pending. *)
Lemma checkReplErrors_no_wait (fuel : nat) (sc : script REPL) (f : FileOps) (r : REPL) :
  fst (fst (fst (_checkReplErrors fuel sc f r))) = sc /\
  outcome (_checkReplErrors fuel sc f r) <> Pending.
Proof.
  unfold _checkReplErrors, next, ofRepl, outcome.
  destruct (getErrorOutput false r) as [[text| |e]|e|] eqn:G; cbn.
  - destruct (truthy text); cbn; split; [reflexivity | discriminate | reflexivity | discriminate].
  - split; [reflexivity | discriminate].
  - destruct (match type e with Some _ => _ | None => _ end); cbn.
    + unfold _checkReadOnly, next, field, update. cbn.
      destruct (_doCheckReadOnly f); cbn; split; first [reflexivity | discriminate].
    + split; [reflexivity | discriminate].
  - split; [reflexivity | discriminate].
  - exfalso. unfold getErrorOutput in G. cbn in G.
    destruct (negb (truthy (_errorOutput r))); [discriminate|].
    destruct (decodeError (_inputLineEnding r) (_errorOutput r)) eqn:D;
      try discriminate.
    now apply decodeError_not_pending in D.
Qed.

(** [move] never reports a success: when it returns, it returns [false],
    for what it negates is the promise of the check of the errors, which
    it does not await. It returns only when the check of the file system
    is off, and then the terminal output is on again. *)
Theorem move_reports_failure (fuel : nat) (oldPath newPath : string)
  (sc sc' : script REPL) (f f' : FileOps) (r r' : REPL) (moved : bool) :
  move fuel oldPath newPath sc f r = (sc', f', r', Return moved) ->
  moved = false /\ _doCheckReadOnly f = false /\ terminalOutput r' = true.
Proof.
  intros H.
  assert (C : _doCheckReadOnly f = false).
  { destruct (_doCheckReadOnly f) eqn:E; [|reflexivity]. exfalso.
    assert (N : ~ returned (outcome (move fuel oldPath newPath sc f r))).
    { unfold move. apply next_not_returned. now apply checkReadOnly_not_returned. }
    apply N. unfold returned, outcome. rewrite H. now exists moved. }
  unfold move in H.
  apply next_returns in H. destruct H as (sc1 & f1 & r1 & [] & _ & H).
  apply next_returns in H. destruct H as (sc2 & f2 & r2 & [] & _ & H).
  apply next_returns in H. destruct H as (sc3 & f3 & r3 & res & _ & H).
  apply next_returns in H. destruct H as (sc4 & f4 & r4 & error & _ & H).
  apply next_returns in H. destruct H as (sc5 & f5 & r5 & [] & S5 & H).
  unfold pure in H. unfold onRepl, step in S5.
  injection H as _ _ <- <-. injection S5 as _ _ <-.
  split; [|split; [exact C|]]; reflexivity.
Qed.

(** An object that does not check, on a device that has raw paste. *)
Lemma move_reports_failure_file :
  outcome (move 100 "/a" "/b" fileScript (new_FileOps false) new_REPL) = Return false /\
  terminalOutput (snd (fst (move 100 "/a" "/b" fileScript (new_FileOps false) new_REPL)))
  = true.
Proof.
  assert (E : outcome (move 100 "/a" "/b" fileScript (new_FileOps false) new_REPL)
              = Return false) by reflexivity.
  split; [exact E|].
  destruct (move 100 "/a" "/b" fileScript (new_FileOps false) new_REPL)
    as [[[sc' f'] r'] c] eqn:M.
  cbn [outcome snd] in E. subst c.
  exact (proj2 (proj2 (move_reports_failure 100 "/a" "/b" fileScript sc'
                         (new_FileOps false) f' new_REPL r' false M))).
Defined.

Lemma attempt_not_thrown {A : Type} (m : fileAsync A) (a : A)
  (sc : script REPL) (f : FileOps) (r : REPL) (e : string) :
  outcome (attempt m (fun _ => pure a) sc f r) <> Throw e.
Proof.
  unfold attempt, outcome, pure.
  destruct (m sc f r) as [[[sc' f'] r'] [x|e'|]]; cbn; discriminate.
Qed.

(** A raw read never gives the file: [_readRawFile] tests the promise of
    the check of the errors, which it does not await, so the base64 text
    is never decoded, whatever [atob] does. When the call ends, it
    returns [null], and so does [readFile] with [raw] set. *)
Theorem readRawFile_null (fuel : nat) (atob : string -> completion string)
  (path : string) (sc : script REPL) (f : FileOps) (r : REPL) :
  (outcome (_readRawFile fuel atob path sc f r) = Return None \/
   outcome (_readRawFile fuel atob path sc f r) = Pending) /\
  (outcome (readFile fuel atob path true sc f r) = Return None \/
   outcome (readFile fuel atob path true sc f r) = Pending).
Proof.
  assert (R : forall sc f r,
             outcome (_readRawFile fuel atob path sc f r) = Return None \/
             outcome (_readRawFile fuel atob path sc f r) = Pending).
  { clear. intros sc f r.
    unfold _readRawFile, attempt, next, onRepl, unawaited, outcome, truthyPromise, pure.
    destruct (execRawPasteMode _ _ _ sc r) as [[sc1 r1] [res|e|]].
    - destruct (_checkReplErrors fuel sc1 f r1) as [[[sc2 f2] r2] c]. now left.
    - now left.
    - now right. }
  split; [apply R|].
  unfold readFile, next, outcome. unfold onRepl at 1, step. cbn.
  specialize (R sc f (set_terminalOutput DEBUG r)). unfold outcome in R.
  destruct (_readRawFile fuel atob path sc f (set_terminalOutput DEBUG r))
    as [[[sc1 f1] r1] [res|e|]]; cbn in *.
  - destruct R as [R|R]; [|discriminate]. injection R as ->. now left.
  - destruct R; discriminate.
  - now right.
Qed.

Lemma checkReplErrors_clean (fuel : nat) (sc : script REPL) (f : FileOps) (r : REPL) :
  _errorOutput r = "" -> _checkReplErrors fuel sc f r = (sc, f, r, Return NoError).
Proof.
  intros E. unfold _checkReplErrors, next, ofRepl, getErrorOutput. now rewrite E.
Qed.

Lemma checkReplErrors_falsy (fuel : nat) (sc sc' : script REPL) (f f' : FileOps)
  (r r' : REPL) (error : ErrorOutput) :
  _checkReplErrors fuel sc f r = (sc', f', r', Return error) ->
  truthyError error = false ->
  _errorOutput r = "" /\ sc' = sc /\ f' = f /\ r' = r.
Proof.
  unfold _checkReplErrors, next, ofRepl, getErrorOutput. cbn -[_checkReadOnly].
  destruct (truthy (_errorOutput r)) eqn:T; cbn -[_checkReadOnly].
  - destruct (decodeError (_inputLineEnding r) (_errorOutput r)) as [e|e|];
      cbn -[_checkReadOnly]; try discriminate.
    destruct (match type e with Some _ => _ | None => _ end); cbn -[_checkReadOnly].
    + destruct (_checkReadOnly fuel _ _ _) as [[[sc1 f1] r1] [[]|e1|]];
        cbn -[_checkReadOnly]; try discriminate.
      intros [= _ _ _ <-]. discriminate.
    + intros [= _ _ _ <-]. discriminate.
  - intros [= <- <- <- <-] _. unfold truthy in T.
    destruct (String.eqb_spec (_errorOutput r) ""); [now repeat split | discriminate].
Qed.

Lemma readTextFile_not_thrown (fuel : nat) (path : string)
  (sc : script REPL) (f : FileOps) (r : REPL) (e : string) :
  outcome (_readTextFile fuel path sc f r) <> Throw e.
Proof. unfold _readTextFile. apply attempt_not_thrown. Qed.

(** A read of a text file never throws: [readFile] returns [null] on
    every failure. It returns a text exactly when the program ran in raw
    paste mode and left no error output, and the text is then what the
    run returned less its last two characters, with the terminal output
    on again. *)
Theorem readFile_text (fuel : nat) (atob : string -> completion string)
  (path : string) (sc : script REPL) (f : FileOps) (r : REPL) :
  (forall e, outcome (readFile fuel atob path false sc f r) <> Throw e) /\
  (forall sc' f' r' text,
      readFile fuel atob path false sc f r = (sc', f', r', Return (Some text)) <->
      exists result r1,
        execRawPasteMode fuel (readTextCode path) CODE_EXECUTION_TIMEOUT sc
          (set_terminalOutput DEBUG r) = (sc', r1, Return (Some result)) /\
        _errorOutput r1 = "" /\
        text = Text (Js.slice result 0 (-2)) /\
        r' = set_terminalOutput true r1 /\ f' = f).
Proof.
  split.
  - intros e. unfold readFile, next, outcome. unfold onRepl at 1, step.
    pose proof (readTextFile_not_thrown fuel path sc f (set_terminalOutput DEBUG r)) as N.
    unfold outcome in N.
    destruct (_readTextFile fuel path sc f (set_terminalOutput DEBUG r))
      as [[[sc1 f1] r1] [res|e1|]]; cbn [snd] in N |- *.
    + discriminate.
    + exfalso. exact (N e1 eq_refl).
    + discriminate.
  - intros sc' f' r' text. unfold readFile, next. unfold onRepl at 1, step.
    unfold _readTextFile, attempt, next. unfold onRepl at 1.
    destruct (execRawPasteMode fuel (readTextCode path) CODE_EXECUTION_TIMEOUT sc
                (set_terminalOutput DEBUG r)) as [[sc1 r1] [res|e|]].
    + destruct (_checkReplErrors fuel sc1 f r1) as [[[sc2 f2] r2] c2] eqn:C.
      assert (Clean : _errorOutput r1 = "" ->
                      c2 = Return NoError /\ sc2 = sc1 /\ f2 = f /\ r2 = r1).
      { intros E. rewrite (checkReplErrors_clean fuel sc1 f r1 E) in C.
        injection C as <- <- <- <-. now repeat split. }
      destruct c2 as [error|e|].
      * destruct (truthyError error) eqn:T.
        -- unfold pure, onRepl, step. split; [intros [=]|].
           intros (result & r3 & [= <- <- ->] & E & _).
           destruct (Clean E) as ([= ->] & _). discriminate.
        -- destruct (checkReplErrors_falsy fuel sc1 sc2 f f2 r1 r2 error C T)
             as (E & -> & -> & ->).
           destruct res as [text0|]; unfold settled, defined, pure, onRepl, step.
           ++ split.
              ** intros [= <- <- <- <-]. now exists text0, r1.
              ** intros (result & r3 & [= <- <- <-] & _ & -> & -> & ->). reflexivity.
           ++ split; [intros [=]|]. intros (result & r3 & [=] & _).
      * unfold pure, onRepl, step. split; [intros [=]|].
        intros (result & r3 & [= <- <- ->] & E & _).
        destruct (Clean E) as ([=] & _).
      * split; [intros [=]|].
        intros (result & r3 & [= <- <- ->] & E & _).
        destruct (Clean E) as ([=] & _).
    + unfold pure, onRepl, step. split; [intros [=]|]. intros (result & r3 & [=] & _).
    + split; [intros [=]|]. intros (result & r3 & [=] & _).
Qed.

Abbreviation readRun :=
  (execRawPasteMode 100 (readTextCode "/f") CODE_EXECUTION_TIMEOUT fileScript
     (set_terminalOutput DEBUG new_REPL)).

Lemma readRun_returns :
  readRun = ([], snd (fst readRun), Return (Some ("hi" ++ LINE_ENDING_CRLF))).
Proof. vm_compute. reflexivity. Qed.

(** The file of the device that has raw paste. *)
Lemma readFile_text_hi :
  readFile 100 noAtob "/f" false fileScript (new_FileOps true) new_REPL
  = ([], new_FileOps true, set_terminalOutput true (snd (fst readRun)),
     Return (Some (Text "hi"))).
Proof.
  apply (proj2 (readFile_text 100 noAtob "/f" fileScript (new_FileOps true) new_REPL)).
  exists ("hi" ++ LINE_ENDING_CRLF), (snd (fst readRun)).
  split; [exact readRun_returns|]. split; [vm_compute; reflexivity|].
  repeat split.
Defined.

End FileOpsFacts.


Module TitleFacts.

Import Js Re RawPaste Title JsFacts ReFacts TokenFacts ReceiveFacts PasteFacts.

(** *** Plain patterns *)

Lemma rmatch_plain_sound {A : Type} (r : regex) :
  plain r = true ->
  forall (pos : nat) (rest : string) (caps : captures)
         (k : nat -> string -> captures -> option A) (x : A),
    rmatch r pos rest caps k = Some x ->
    exists n : nat,
      (n <= String.length rest)%nat /\ denotes r (take n rest) /\
      k (pos + n)%nat (drop n rest) caps = Some x.
Proof.
  induction r as [p| |r1 IH1 r2 IH2|r1 IH1 r2 IH2| | | |]; cbn [plain]; try discriminate.
  - intros _ pos rest caps k x H. cbn [rmatch] in H.
    destruct rest as [|c rest]; [discriminate|].
    destruct (p c) eqn:Ep; [|discriminate].
    exists 1%nat. cbn [take drop String.length]. split; [lia|]. split.
    + cbn [denotes]. now exists c.
    + now rewrite Nat.add_1_r.
  - intros _ pos rest caps k x H. cbn [rmatch] in H.
    exists 0%nat. rewrite Nat.add_0_r. split; [lia|]. split; [|exact H].
    cbn [denotes]. now destruct rest.
  - intros Hp pos rest caps k x H. apply andb_true_iff in Hp. destruct Hp as [P1 P2].
    cbn [rmatch] in H.
    destruct (IH1 P1 _ _ _ _ _ H) as (n1 & L1 & D1 & H1).
    destruct (IH2 P2 _ _ _ _ _ H1) as (n2 & L2 & D2 & H2).
    rewrite length_drop in L2.
    exists (n1 + n2)%nat. split; [lia|]. split.
    + cbn [denotes]. exists (take n1 rest), (take n2 (drop n1 rest)).
      split; [apply take_add | now split].
    + rewrite drop_drop in H2. now rewrite Nat.add_assoc.
  - intros Hp pos rest caps k x H. apply andb_true_iff in Hp. destruct Hp as [P1 P2].
    cbn [rmatch] in H.
    destruct (rmatch r1 pos rest caps k) as [y|] eqn:E1.
    + injection H as ->. destruct (IH1 P1 _ _ _ _ _ E1) as (n & L & D & Hk).
      exists n. split; [exact L|]. split; [now left | exact Hk].
    + destruct (IH2 P2 _ _ _ _ _ H) as (n & L & D & Hk).
      exists n. split; [exact L|]. split; [now right | exact Hk].
Qed.

Lemma rmatch_plain_complete {A : Type} (r : regex) :
  plain r = true ->
  forall (s : string), denotes r s ->
  forall (pos : nat) (rest : string) (caps : captures)
         (k : nat -> string -> captures -> option A),
    k (pos + String.length s)%nat rest caps <> None ->
    rmatch r pos (s ++ rest) caps k <> None.
Proof.
  induction r as [p| |r1 IH1 r2 IH2|r1 IH1 r2 IH2| | | |]; cbn [plain]; try discriminate.
  - intros _ s (c & -> & Hc) pos rest caps k Hk. cbn [rmatch String.append].
    rewrite Hc. cbn [String.length] in Hk. now rewrite Nat.add_1_r in Hk.
  - intros _ s -> pos rest caps k Hk. cbn [rmatch String.append].
    cbn [String.length] in Hk. now rewrite Nat.add_0_r in Hk.
  - intros Hp s (s1 & s2 & -> & D1 & D2) pos rest caps k Hk.
    apply andb_true_iff in Hp. destruct Hp as [P1 P2].
    cbn [rmatch]. rewrite append_assoc. apply (IH1 P1 s1 D1).
    apply (IH2 P2 s2 D2). rewrite length_append, Nat.add_assoc in Hk. exact Hk.
  - intros Hp s D pos rest caps k Hk.
    apply andb_true_iff in Hp. destruct Hp as [P1 P2].
    cbn [rmatch]. destruct (rmatch r1 pos (s ++ rest) caps k) as [y|] eqn:E1;
      [discriminate|].
    destruct D as [D|D].
    + exfalso. now apply (IH1 P1 s D pos rest caps k Hk).
    + now apply (IH2 P2 s D).
Qed.

(** *** The matcher, one step at a time *)

Lemma rmatch_Cat {A : Type} (r1 r2 : regex) (pos : nat) (rest : string)
  (caps : captures) (k : nat -> string -> captures -> option A) :
  rmatch (Cat r1 r2) pos rest caps k
  = rmatch r1 pos rest caps (fun pos' rest' caps' => rmatch r2 pos' rest' caps' k).
Proof. reflexivity. Qed.

Lemma rmatch_Grp {A : Type} (n : nat) (r1 : regex) (pos : nat) (rest : string)
  (caps : captures) (k : nat -> string -> captures -> option A) :
  rmatch (Grp n r1) pos rest caps k
  = rmatch r1 pos rest caps
      (fun pos' rest' caps' => k pos' rest' ((n, take (pos' - pos) rest) :: caps')).
Proof. reflexivity. Qed.

(** A greedy run of characters other than line terminators before
    something that matches at the end of the text only: the run takes the
    whole text, or there is no match. *)
Lemma rmatch_dots_to_end {A : Type} (rest : string) :
  forall (pos : nat) (caps : captures) (k : nat -> string -> captures -> option A),
    (forall pos' c rest' caps', k pos' (String c rest') caps' = None) ->
    rmatch (Star true dot) pos rest caps k
    = if oneLine rest then k (pos + String.length rest)%nat "" caps else None.
Proof.
  induction rest as [|c rest IH]; intros pos caps k Hk.
  - cbn. now rewrite Nat.add_0_r.
  - change (rmatch (Star true dot) pos (String c rest) caps k)
      with (match
               (if negb (Ascii.eqb c "010"%char || Ascii.eqb c "013"%char)
                then if (pos <? S pos)%nat
                     then rmatch (Star true dot) (S pos) rest caps k
                     else None
                else None)
             with
             | Some x => Some x
             | None => k pos (String c rest) caps
             end).
    cbn [oneLine String.length].
    destruct (negb (Ascii.eqb c "010"%char || Ascii.eqb c "013"%char)); cbn [andb].
    + replace (pos <? S pos)%nat with true by (symmetry; apply Nat.ltb_lt; lia).
      rewrite (IH (S pos) caps k Hk).
      replace (pos + S (String.length rest))%nat with (S pos + String.length rest)%nat
        by lia.
      destruct (oneLine rest); [|apply Hk].
      destruct (k (S pos + String.length rest)%nat "" caps); [reflexivity | apply Hk].
    + apply Hk.
Qed.

Lemma search_first (r : regex) (d : nat) :
  forall (pos : nat) (rest : string) (m : found),
    (d <= String.length rest)%nat ->
    matchAt r (pos + d) (drop d rest) = Some m ->
    (forall j : nat, (j < d)%nat -> matchAt r (pos + j) (drop j rest) = None) ->
    search r pos rest = Some m.
Proof.
  induction d as [|d IH]; intros pos rest m Hd Hm Hn.
  - rewrite Nat.add_0_r, drop_0 in Hm. destruct rest; cbn [search]; now rewrite Hm.
  - destruct rest as [|c rest]; [cbn in Hd; lia|].
    cbn [search]. pose proof (Hn 0%nat ltac:(lia)) as H0.
    rewrite Nat.add_0_r in H0. cbn [drop] in H0. rewrite H0.
    apply IH.
    + cbn in Hd. lia.
    + replace (S pos + d)%nat with (pos + S d)%nat by lia. exact Hm.
    + intros j Hj. specialize (Hn (S j) ltac:(lia)).
      replace (S pos + j)%nat with (pos + S j)%nat by lia. exact Hn.
Qed.

Lemma exec_matchAt (r : regex) (s : string) (m : found) :
  exec r s 0 = Some m ->
  (index m <= String.length s)%nat /\
  matchAt r (index m) (drop (index m) s) = Some m /\
  forall j : nat, (j < index m)%nat -> matchAt r j (drop j s) = None.
Proof.
  unfold exec. cbn [Nat.ltb Nat.leb]. rewrite drop_0. intros H.
  apply search_Some in H. destruct H as (d & Hd & Hi & Hm & Hn).
  cbn [Nat.add] in *. subst d. now repeat split.
Qed.

Lemma exec_first (r : regex) (s : string) (d : nat) (m : found) :
  (d <= String.length s)%nat ->
  matchAt r d (drop d s) = Some m ->
  (forall j : nat, (j < d)%nat -> matchAt r j (drop j s) = None) ->
  exec r s 0 = Some m.
Proof.
  intros Hd Hm Hn. unfold exec. cbn [Nat.ltb Nat.leb]. rewrite drop_0.
  now apply (search_first r d 0 s m).
Qed.

(** *** The version *)

Lemma matchAt_versionRegex (pos : nat) (rest : string) :
  matchAt versionRegex pos rest
  = if startsWith REPL_MARK rest && oneLine (drop 9 rest)
    then Some (mkFound pos (pos + String.length rest) [(1%nat, drop 9 rest)])
    else None.
Proof.
  unfold matchAt, versionRegex. rewrite rmatch_Cat, rmatch_lit.
  destruct (startsWith REPL_MARK rest) eqn:S; [|reflexivity].
  cbn [andb]. rewrite rmatch_Cat, rmatch_Grp.
  change (String.length REPL_MARK) with 9%nat.
  rewrite rmatch_dots_to_end by reflexivity.
  destruct (oneLine (drop 9 rest)); [|reflexivity].
  cbn [rmatch]. apply startsWith_length in S. change (String.length REPL_MARK) with 9%nat in S.
  rewrite length_drop.
  replace (pos + 9 + (String.length rest - 9) - (pos + 9))%nat
    with (String.length (drop 9 rest)) by (rewrite length_drop; lia).
  rewrite take_all by lia.
  now replace (pos + 9 + (String.length rest - 9))%nat with (pos + String.length rest)%nat
    by lia.
Qed.

Lemma truthy_app (a b c : string) : b <> "" -> truthy (a ++ b ++ c) = true.
Proof.
  intros Hb. unfold truthy. destruct (String.eqb_spec (a ++ b ++ c) "") as [E|]; [|reflexivity].
  exfalso. destruct a; [|discriminate]. destruct b; [now apply Hb | discriminate].
Qed.

(** The version that [getVersion] returns is the text after the mark
    [| REPL | ], up to the end of the title and without a line
    terminator; and the text after the first mark of the title is
    returned when it has no line terminator. A title without the mark
    gives [null]. *)
Theorem getVersion_spec (r : REPL) :
  (forall version,
      getVersion r = Some version ->
      exists before,
        title r = before ++ REPL_MARK ++ version /\ oneLine version = true) /\
  (forall before version,
      title r = before ++ REPL_MARK ++ version ->
      oneLine version = true ->
      (forall j : nat, (j < String.length before)%nat ->
                       ~ occursAt (lit REPL_MARK) (title r) j) ->
      getVersion r = Some version) /\
  ((forall j : nat, ~ occursAt (lit REPL_MARK) (title r) j) -> getVersion r = None).
Proof.
  unfold getVersion, _parseTitleInfo. change (2 <=? S (groupCount versionRegex))%nat with true.
  split; [|split].
  - intros version H. destruct (truthy (title r)); [|discriminate].
    destruct (exec versionRegex (title r) 0) as [m|] eqn:E; [|discriminate].
    apply exec_matchAt in E. destruct E as (Hi & Hm & _).
    rewrite matchAt_versionRegex in Hm.
    destruct (startsWith REPL_MARK (drop (index m) (title r))) eqn:S; [|discriminate].
    destruct (oneLine (drop 9 (drop (index m) (title r)))) eqn:O; [|discriminate].
    cbn [andb] in Hm. injection Hm as Hm. apply (f_equal groups) in Hm.
    cbn [groups] in Hm. rewrite <- Hm in H. cbn [capture Nat.eqb] in H.
    injection H as <-. exists (take (index m) (title r)). split; [|exact O].
    apply startsWith_take in S. change (String.length REPL_MARK) with 9%nat in S.
    rewrite <- S at 1. now rewrite !take_drop.
  - intros before version Ht O Hn.
    rewrite Ht at 1. rewrite truthy_app by discriminate.
    assert (D : drop (String.length before) (title r) = REPL_MARK ++ version)
      by (rewrite Ht; apply drop_append).
    rewrite (exec_first versionRegex (title r) (String.length before)
               (mkFound (String.length before)
                  (String.length before + String.length (REPL_MARK ++ version))
                  [(1%nat, version)])).
    + reflexivity.
    + rewrite Ht, length_append. lia.
    + rewrite matchAt_versionRegex, D.
      rewrite (startsWith_app REPL_MARK REPL_MARK version eq_refl).
      change 9%nat with (String.length REPL_MARK). rewrite drop_append, O. reflexivity.
    + intros j Hj. rewrite matchAt_versionRegex.
      destruct (startsWith REPL_MARK (drop j (title r))) eqn:S; [|reflexivity].
      exfalso. apply (Hn j Hj). split.
      * rewrite Ht, length_append. lia.
      * rewrite matchAt_lit, S. discriminate.
  - intros Hn. destruct (truthy (title r)); [|reflexivity].
    destruct (exec versionRegex (title r) 0) as [m|] eqn:E; [|reflexivity].
    exfalso. apply exec_matchAt in E. destruct E as (Hi & Hm & _).
    rewrite matchAt_versionRegex in Hm.
    destruct (startsWith REPL_MARK (drop (index m) (title r))) eqn:S; [|discriminate].
    apply (Hn (index m)). split; [exact Hi|]. rewrite matchAt_lit, S. discriminate.
Qed.

(** The version of a title of CircuitPython. *)
Lemma getVersion_spec_8_2 : getVersion (titled "Wi-Fi: off | REPL | 8.2.0") = Some "8.2.0".
Proof.
  apply (proj1 (proj2 (getVersion_spec (titled "Wi-Fi: off | REPL | 8.2.0")))
           "Wi-Fi: off " "8.2.0" eq_refl eq_refl).
  intros j Hj [_ H]. apply H. cbn in Hj.
  do 11 (destruct j as [|j]; [reflexivity|]). lia.
Defined.

(** *** The address *)

Lemma denotes_Cat (r1 r2 : regex) (s : string) :
  denotes (Cat r1 r2) s <-> exists s1 s2, s = s1 ++ s2 /\ denotes r1 s1 /\ denotes r2 s2.
Proof. reflexivity. Qed.

Lemma denotes_octetRegex (s : string) : denotes octetRegex s <-> octet s.
Proof.
  unfold octet. split.
  - intros (s1 & s2 & -> & (c1 & -> & H1) & [(s3 & s4 & -> & (c2 & -> & H2) & [D|D])|D]).
    + destruct D as (c3 & -> & H3). cbn. rewrite H1, H2, H3. split; [lia | reflexivity].
    + cbn in D. subst s4. cbn. rewrite H1, H2. split; [lia | reflexivity].
    + cbn in D. subst s2. cbn. rewrite H1. split; [lia | reflexivity].
  - intros [L D]. destruct s as [|c1 [|c2 [|c3 [|c4 s]]]]; cbn in L; try lia; cbn in D.
    + rewrite andb_true_r in D.
      exists (String c1 ""), "". split; [reflexivity|]. split; [now exists c1|].
      right. reflexivity.
    + rewrite andb_true_r in D. apply andb_true_iff in D. destruct D as [D1 D2].
      exists (String c1 ""), (String c2 ""). split; [reflexivity|]. split; [now exists c1|].
      left. exists (String c2 ""), "". split; [reflexivity|]. split; [now exists c2|].
      right. reflexivity.
    + rewrite andb_true_r in D. apply andb_true_iff in D. destruct D as [D1 D].
      apply andb_true_iff in D. destruct D as [D2 D3].
      exists (String c1 ""), (String c2 (String c3 "")).
      split; [reflexivity|]. split; [now exists c1|].
      left. exists (String c2 ""), (String c3 ""). split; [reflexivity|].
      split; [now exists c2|]. left. now exists c3.
Qed.

Lemma denotes_octetDot (s : string) :
  denotes octetDot s <-> exists a, octet a /\ s = a ++ ".".
Proof.
  unfold octetDot. rewrite denotes_Cat. split.
  - intros (s1 & s2 & -> & D1 & (c & -> & Hc)). apply denotes_octetRegex in D1.
    apply Ascii.eqb_eq in Hc. subst c. now exists s1.
  - intros (a & Ha & ->). exists a, ".". split; [reflexivity|].
    split; [now apply denotes_octetRegex|]. now exists "."%char.
Qed.

Lemma denotes_quadRegex (s : string) : denotes quadRegex s <-> quad s.
Proof.
  unfold quadRegex, quad. rewrite denotes_Cat. split.
  - intros (s1 & s2 & -> & D1 & D2). apply denotes_octetDot in D1.
    destruct D1 as (a & Ha & ->).
    apply denotes_Cat in D2. destruct D2 as (s3 & s4 & -> & D3 & D4).
    apply denotes_octetDot in D3. destruct D3 as (b & Hb & ->).
    apply denotes_Cat in D4. destruct D4 as (s5 & d & -> & D5 & D6).
    apply denotes_octetDot in D5. destruct D5 as (c & Hc & ->).
    apply denotes_octetRegex in D6.
    exists a, b, c, d. split; [now rewrite !append_assoc|].
    split; [exact Ha|]. split; [exact Hb|]. split; [exact Hc | exact D6].
  - intros (a & b & c & d & -> & Ha & Hb & Hc & Hd).
    exists (a ++ "."), ((b ++ ".") ++ (c ++ ".") ++ d).
    split; [now rewrite !append_assoc|].
    split; [apply denotes_octetDot; now exists a|].
    apply denotes_Cat. exists (b ++ "."), ((c ++ ".") ++ d). split; [reflexivity|].
    split; [apply denotes_octetDot; now exists b|].
    apply denotes_Cat. exists (c ++ "."), d. split; [reflexivity|].
    split; [apply denotes_octetDot; now exists c|]. now apply denotes_octetRegex.
Qed.

Lemma matchAt_ipRegex (pos : nat) (rest : string) (m : found) :
  matchAt ipRegex pos rest = Some m ->
  exists n : nat,
    (n <= String.length rest)%nat /\ quad (take n rest) /\
    capture 1 (groups m) = Some (take n rest).
Proof.
  unfold matchAt, ipRegex. rewrite rmatch_Grp.
  destruct (rmatch quadRegex pos rest [] _) as [[e c]|] eqn:E; [|discriminate].
  intros [= <-].
  apply (rmatch_plain_sound quadRegex eq_refl) in E.
  destruct E as (n & L & D & [= <- <-]).
  exists n. split; [exact L|]. split; [now apply denotes_quadRegex|].
  cbn [groups capture Nat.eqb]. now replace (pos + n - pos)%nat with n by lia.
Qed.

Lemma matchAt_ipRegex_quad (pos : nat) (ip rest : string) :
  quad ip -> matchAt ipRegex pos (ip ++ rest) <> None.
Proof.
  intros Q. unfold matchAt, ipRegex. rewrite rmatch_Grp.
  destruct (rmatch quadRegex pos (ip ++ rest) [] _) as [[e c]|] eqn:E; [discriminate|].
  exfalso. revert E. apply (rmatch_plain_complete quadRegex eq_refl ip).
  - now apply denotes_quadRegex.
  - discriminate.
Qed.

Lemma quad_not_empty (ip : string) : quad ip -> ip <> "".
Proof.
  intros (a & b & c & d & -> & [La _] & _) E.
  destruct a; [cbn in La; lia | discriminate].
Qed.

(** [getIpAddress] finds an address exactly when the title holds four
    numbers of one to three digits with dots between; what it returns is
    such a text of the title, and none starts further left. *)
Theorem getIpAddress_spec (r : REPL) :
  (forall ip,
      getIpAddress r = Some ip ->
      quad ip /\
      exists before after,
        title r = before ++ ip ++ after /\
        forall before' ip' after',
          title r = before' ++ ip' ++ after' -> quad ip' ->
          (String.length before <= String.length before')%nat) /\
  (forall before ip after,
      title r = before ++ ip ++ after -> quad ip ->
      exists ip', getIpAddress r = Some ip').
Proof.
  unfold getIpAddress, _parseTitleInfo. change (2 <=? S (groupCount ipRegex))%nat with true.
  split.
  - intros ip H. destruct (truthy (title r)); [|discriminate].
    destruct (exec ipRegex (title r) 0) as [m|] eqn:E; [|discriminate].
    apply exec_matchAt in E. destruct E as (Hi & Hm & Hn).
    apply matchAt_ipRegex in Hm. destruct Hm as (n & L & Q & C).
    rewrite C in H. injection H as <-. split; [exact Q|].
    exists (take (index m) (title r)), (drop n (drop (index m) (title r))).
    split; [now rewrite !take_drop|].
    intros before' ip' after' Ht Q'. rewrite length_take.
    destruct (Nat.lt_ge_cases (String.length before') (index m)) as [Hlt|Hge]; [|lia].
    exfalso. apply (matchAt_ipRegex_quad (String.length before') ip' after' Q').
    rewrite <- (drop_append before' (ip' ++ after')), <- Ht. now apply Hn.
  - intros before ip after Ht Q.
    assert (T : truthy (title r) = true)
      by (rewrite Ht; apply truthy_app; now apply quad_not_empty).
    rewrite T.
    destruct (exec ipRegex (title r) 0) as [m|] eqn:E.
    + apply exec_matchAt in E. destruct E as (Hi & Hm & Hn).
      apply matchAt_ipRegex in Hm. destruct Hm as (n & L & Q' & C). eauto.
    + exfalso. apply (matchAt_ipRegex_quad (String.length before) ip after Q).
      unfold exec in E. cbn [Nat.ltb Nat.leb] in E. rewrite drop_0 in E.
      rewrite <- (drop_append before (ip ++ after)), <- Ht.
      apply (search_None _ _ _ E (String.length before)).
      rewrite Ht, length_append. lia.
Qed.

(** The address in a title of CircuitPython. *)
Lemma getIpAddress_spec_title :
  exists ip, getIpAddress (titled "192.168.1.20 | REPL | 8.2.0") = Some ip.
Proof.
  apply (proj2 (getIpAddress_spec (titled "192.168.1.20 | REPL | 8.2.0"))
           "" "192.168.1.20" " | REPL | 8.2.0" eq_refl).
  exists "192", "168", "1", "20". repeat split; cbn; lia.
Defined.

End TitleFacts.
